(** * Falcon: a shallow embedding of the repository explorer

    The development follows the Python sources under [backend/]:

    - [backend/tools/shell.py]        the virtual shell tools
      ([list_files], [read_file], [search_code]);
    - [backend/services/ingestion.py] the ingestion walk and the dedup check;
    - [backend/services/agent.py] and [backend/routers/repos.py]
                                      the ReAct loop and its SSE wrapper;
    - [backend/app/queue/job_queue.py] job completion and failure;
    - [backend/app/services/chat_service.py] the context selector.

    Conventions.  A Python [str] is a [string]; its characters stand for
    code points below 128.  A Python [int] is a [Z], a [len] is a [nat].
    A value that may be [None] is an [option].  A call that may raise is an
    [outcome]: [Return v] or [Raise msg], [msg] being [str(e)].  A database
    table is the list (or finite map, when rows are addressed by primary key)
    of its rows, and a query is the function on that table which the SQL text
    denotes. *)

From Stdlib Require Import ZArith String Ascii DecimalString List Bool Lia.
From Stdlib Require Import QArith.
From Stdlib Require Import Uint63 PrimFloat.
From stdpp Require Import base gmap strings list sorting.

Local Open Scope Z_scope.

(** ** Results of calls that may raise *)

Inductive outcome (A : Type) : Type :=
  | Return (a : A)
  | Raise (e : string).
Arguments Return {A} a.
Arguments Raise {A} e.

(** ** Python string and list primitives used by the sources *)

Module Py.

(** [c in chars] for a single character. *)
Fixpoint contains_char (chars : string) (c : ascii) : bool :=
  match chars with
  | EmptyString => false
  | String d chars' => if Ascii.eqb c d then true else contains_char chars' c
  end.

(** [s.lstrip(chars)]: drop leading characters that occur in [chars]. *)
Fixpoint lstrip (chars s : string) : string :=
  match s with
  | EmptyString => EmptyString
  | String c s' => if contains_char chars c then lstrip chars s' else s
  end.

(** [s.rstrip(chars)]: drop trailing characters that occur in [chars]. *)
Fixpoint rstrip (chars s : string) : string :=
  match s with
  | EmptyString => EmptyString
  | String c s' =>
      match rstrip chars s' with
      | EmptyString =>
          if contains_char chars c then EmptyString else String c EmptyString
      | r => String c r
      end
  end.

(** [s.strip(chars)]. *)
Definition strip (chars s : string) : string := rstrip chars (lstrip chars s).

(** [s.split(sep)] for a one-character separator: never the empty list. *)
Fixpoint split (sep : ascii) (s : string) : list string :=
  match s with
  | EmptyString => [EmptyString]
  | String c s' =>
      if Ascii.eqb c sep then EmptyString :: split sep s'
      else match split sep s' with
           | piece :: rest => String c piece :: rest
           | [] => [String c EmptyString]
           end
  end.

(** [sep.join(parts)]. *)
Fixpoint join (sep : string) (parts : list string) : string :=
  match parts with
  | [] => EmptyString
  | p :: rest =>
      match rest with
      | [] => p
      | _ :: _ => p +:+ sep +:+ join sep rest
      end
  end.

(** [str(n)] for an integer: decimal digits, a leading [-] when negative. *)
Definition str (n : Z) : string := NilZero.string_of_int (Z.to_int n).

Fixpoint spaces (n : nat) : string :=
  match n with
  | O => EmptyString
  | S n' => String " " (spaces n')
  end.

(** [f"{s:>{width}}"]: pad with spaces on the left up to [width]. *)
Definition rjust (width : nat) (s : string) : string :=
  spaces (width - String.length s) +:+ s.

(** One bound of a slice [l[lo:hi]] (step 1): a negative index counts from
    the end, and the bound is clamped to [0 .. len]. *)
Definition slice_bound (len : Z) (i : option Z) (default : Z) : Z :=
  match i with
  | None => default
  | Some i => Z.max 0 (Z.min len (if i <? 0 then i + len else i))
  end.

(** [l[lo:hi]]. *)
Definition slice {A : Type} (l : list A) (lo hi : option Z) : list A :=
  let len := Z.of_nat (length l) in
  let lo := slice_bound len lo 0 in
  let hi := slice_bound len hi len in
  take (Z.to_nat (hi - lo)) (drop (Z.to_nat lo) l).

(** [c.lower()] on the letters A..Z. *)
Definition lower_char (c : ascii) : ascii :=
  let n := N_of_ascii c in
  if ((65 <=? n) && (n <=? 90))%N then ascii_of_N (n + 32) else c.

(** [s.lower()]. *)
Fixpoint lower (s : string) : string :=
  match s with
  | EmptyString => EmptyString
  | String c s' => String (lower_char c) (lower s')
  end.

(** [needle in hay] for strings. *)
Fixpoint contains (hay needle : string) : bool :=
  String.prefix needle hay ||
  match hay with
  | EmptyString => false
  | String _ hay' => contains hay' needle
  end.

(** [hay.endswith(needle)]. *)
Fixpoint endswith (hay needle : string) : bool :=
  String.eqb hay needle ||
  match hay with
  | EmptyString => false
  | String _ hay' => endswith hay' needle
  end.

(** The characters [str.split()] treats as white space. *)
Definition is_space (c : ascii) : bool :=
  let n := N_of_ascii c in
  (((9 <=? n) && (n <=? 13)) || ((28 <=? n) && (n <=? 32)))%N.

(** [s.split()]: maximal runs of characters that are not white space.
    [cur] is the run being read, reversed. *)
Fixpoint split_ws_go (cur : option string) (s : string) : list string :=
  match s with
  | EmptyString => option_list (String.rev <$> cur)
  | String c s' =>
      if is_space c
      then option_list (String.rev <$> cur) ++ split_ws_go None s'
      else split_ws_go (Some (String c (default EmptyString cur))) s'
  end.
Definition split_ws (s : string) : list string := split_ws_go None s.

(** [s.replace(old, new)] for a non-empty [old]: occurrences are replaced
    from the left and do not overlap.  [skip] counts the characters of the
    occurrence just replaced that are still to be passed over. *)
Fixpoint replace_go (old new : string) (skip : nat) (s : string) : string :=
  match s with
  | EmptyString => EmptyString
  | String c s' =>
      match skip with
      | S k => replace_go old new k s'
      | O =>
          if String.prefix old s
          then new +:+ replace_go old new (String.length old - 1) s'
          else String c (replace_go old new 0 s')
      end
  end.
Definition replace (old new s : string) : string := replace_go old new 0 s.

(** [l[-1]] on the non-empty list a [split] returns. *)
Definition last_piece (l : list string) : string := List.last l EmptyString.

End Py.

(** ** [fnmatch]

    [fnmatch.fnmatch(name, pat)] on a POSIX host, where [os.path.normcase] is
    the identity: a star matches any run of characters, slashes included, a
    question mark any one character, and every other character itself.  The
    bracket expressions of the library are not modelled: the statements
    below are about patterns without an opening bracket. *)

Module Fnmatch.

Fixpoint fnmatchcase_pat (pat name : string) : bool :=
  match pat with
  | EmptyString =>
      match name with EmptyString => true | String _ _ => false end
  | String p pat' =>
      if Ascii.eqb p "*" then
        (fix star (n : string) : bool :=
           fnmatchcase_pat pat' n ||
           match n with
           | EmptyString => false
           | String _ n' => star n'
           end) name
      else if Ascii.eqb p "?" then
        match name with
        | EmptyString => false
        | String _ name' => fnmatchcase_pat pat' name'
        end
      else
        match name with
        | EmptyString => false
        | String c name' => Ascii.eqb p c && fnmatchcase_pat pat' name'
        end
  end.

Definition fnmatch (name pat : string) : bool := fnmatchcase_pat pat name.

(** A string without glob metacharacters and without a slash. *)
Definition plain (s : string) : Prop :=
  Py.contains_char s "*" = false /\ Py.contains_char s "?" = false /\
  Py.contains_char s "[" = false /\ Py.contains_char s "/" = false.

End Fnmatch.

(** ** The [files] table of [backend/db.py] *)

Module File.

Record row : Type := Row {
  repo_id : string;
  path : string;
  name : string;
  extension : option string;
  parent_path : string;
  depth : Z;
  is_directory : bool;
  content : option string
}.

End File.

(** ** [backend/tools/shell.py] *)

Module Shell.

Definition MAX_LIST_RESULTS : nat := 200.
Definition MAX_FILE_LINES : nat := 500.
Definition MAX_SEARCH_MATCHES : nat := 50.

Definition of_repo (repo_id : string) (r : File.row) : bool :=
  String.eqb (File.repo_id r) repo_id.

(** [ORDER BY path], read as the order of code points. *)
Definition path_le (r1 r2 : File.row) : Prop :=
  String.le (File.path r1) (File.path r2).
#[global] Instance path_le_dec : RelDecision path_le.
Proof. intros r1 r2. unfold path_le. apply _. Defined.

(** [SELECT path, is_directory FROM files WHERE repo_id = $1 ORDER BY path] *)
Definition fetch_by_path (files : list File.row) (repo_id : string)
  : list File.row :=
  merge_sort path_le (List.filter (of_repo repo_id) files).

(** [ORDER BY is_directory DESC, name] *)
Definition listing_le (r1 r2 : File.row) : Prop :=
  match File.is_directory r1, File.is_directory r2 with
  | true, false => True
  | false, true => False
  | _, _ => String.le (File.name r1) (File.name r2)
  end.
#[global] Instance listing_le_dec : RelDecision listing_le.
Proof.
  intros r1 r2. unfold listing_le.
  destruct (File.is_directory r1), (File.is_directory r2); apply _.
Defined.

(** [SELECT name, is_directory FROM files
     WHERE repo_id = $1 AND parent_path = $2
     ORDER BY is_directory DESC, name] *)
Definition fetch_children (files : list File.row) (repo_id parent : string)
  : list File.row :=
  merge_sort listing_le
    (List.filter
       (fun r => of_repo repo_id r && String.eqb (File.parent_path r) parent)
       files).

(** [SELECT content, is_directory FROM files
     WHERE repo_id = $1 AND path = $2], one row at most. *)
Definition fetchrow_path (files : list File.row) (repo_id path : string)
  : option File.row :=
  List.find (fun r => of_repo repo_id r && String.eqb (File.path r) path) files.

(** The list [matched] of glob mode, for the pattern already stripped. *)
Definition glob_matched (files : list File.row) (repo_id pat : string)
  : list File.row :=
  List.filter (fun r => Fnmatch.fnmatch (File.path r) pat)
              (fetch_by_path files repo_id).

Definition glob_entry (r : File.row) : string :=
  if File.is_directory r then File.path r +:+ "/" else File.path r.

Definition dir_entry (r : File.row) : string :=
  if File.is_directory r then File.name r +:+ "/" else File.name r.

Definition nl : string := String "010" EmptyString.

Definition list_files (files : list File.row) (repo_id path : string)
  : string :=
  let path := Py.strip "/" path in
  let path := if String.eqb path "." then EmptyString else path in
  let is_glob := Py.contains_char path "*" || Py.contains_char path "?" in
  if is_glob then
    let matched := glob_matched files repo_id path in
    match matched with
    | [] => "No files matching: " +:+ path
    | _ :: _ =>
        let lines := glob_entry <$> take MAX_LIST_RESULTS matched in
        let lines :=
          if (MAX_LIST_RESULTS <? length matched)%nat
          then lines ++
               [nl +:+ "... " +:+
                Py.str (Z.of_nat (length matched - MAX_LIST_RESULTS)) +:+
                " more results. Narrow your glob."]
          else lines in
        Py.join nl lines
    end
  else
    let rows := fetch_children files repo_id path in
    match rows with
    | [] =>
        "ls: cannot access '" +:+
        (if String.eqb path EmptyString then "." else path) +:+
        "': No such file or directory"
    | _ :: _ => Py.join nl (dir_entry <$> rows)
    end.

(** One line of [read_file]'s output: [f"{num:>{width}} | {line}"]. *)
Definition numbered (width : nat) (num : Z) (line : string) : string :=
  Py.rjust width (Py.str num) +:+ " | " +:+ line.

(** [enumerate(selected)] with [num = first_num + i]. *)
Fixpoint number_lines (width : nat) (num : Z) (selected : list string)
  : list string :=
  match selected with
  | [] => []
  | line :: rest => numbered width num line :: number_lines width (num + 1) rest
  end.

Definition truncation_notice (total : Z) : string :=
  nl +:+ nl +:+ "... truncated (" +:+ Py.str total +:+
  " total lines). Use start_line/end_line to read specific sections.".

(** [x or d] on an optional integer: [None] and [0] are falsy. *)
Definition or_default (x : option Z) (d : Z) : Z :=
  match x with
  | None => d
  | Some v => if v =? 0 then d else v
  end.

Definition read_file (files : list File.row) (repo_id path : string)
    (start_line end_line : option Z) : outcome string :=
  let path := Py.lstrip "./" (Py.strip "/" path) in
  match fetchrow_path files repo_id path with
  | None => Return ("Error: " +:+ path +:+ ": No such file or directory")
  | Some row =>
      if File.is_directory row
      then Return ("Error: " +:+ path +:+ ": Is a directory")
      else
        match File.content row with
        | None => Raise "'NoneType' object has no attribute 'split'"
        | Some text =>
            let lines := Py.split "010" text in
            let total := Z.of_nat (length lines) in
            let cat_mode :=
              let s := or_default start_line 1 - 1 in
              let e := or_default end_line total in
              (Py.slice lines (Some s) (Some e), s + 1) in
            let '(selected, first_num) :=
              match start_line with
              | Some st =>
                  if st <? 0
                  then (Py.slice lines (Some st) None, total + st + 1)
                  else cat_mode
              | None => cat_mode
              end in
            let truncated := (MAX_FILE_LINES <? length selected)%nat in
            let selected :=
              if truncated then take MAX_FILE_LINES selected else selected in
            let width :=
              String.length
                (Py.str (first_num + Z.of_nat (length selected) - 1)) in
            let result := Py.join nl (number_lines width first_num selected) in
            Return (if truncated then result +:+ truncation_notice total
                    else result)
        end
  end.

(** *** [search_code] *)

(** [[a-zA-Z0-9_]]. *)
Definition is_word (c : ascii) : bool :=
  let n := N_of_ascii c in
  (((48 <=? n) && (n <=? 57)) || ((65 <=? n) && (n <=? 90)) ||
   ((97 <=? n) && (n <=? 122)) || (n =? 95))%N.

Fixpoint all_word (s : string) : bool :=
  match s with
  | EmptyString => true
  | String c s' => is_word c && all_word s'
  end.

(** A finished run of word characters is a literal when it has three
    characters or more.  [cur] is the run, reversed. *)
Definition emit_run (cur : string) : list string :=
  if (3 <=? String.length cur)%nat then [String.rev cur] else [].

(** [re.findall(r"[a-zA-Z0-9_]{3,}", pattern)]: the maximal runs of word
    characters of length at least three, from left to right. *)
Fixpoint literal_runs (cur : string) (pattern : string) : list string :=
  match pattern with
  | EmptyString => emit_run cur
  | String c pattern' =>
      if is_word c then literal_runs (String c cur) pattern'
      else emit_run cur ++ literal_runs EmptyString pattern'
  end.

Definition _extract_literals (pattern : string) : list string :=
  literal_runs EmptyString pattern.

(** [re.match(r"^\*(\.\w+)$", glob)], giving [group(1)]: a star, a dot and
    one or more word characters, then the end of the string or one final
    newline. *)
Definition ext_match (glob : string) : option string :=
  match glob with
  | String star (String dot rest) =>
      if Ascii.eqb star "*" && Ascii.eqb dot "." then
        let body :=
          match String.rev rest with
          | String last front =>
              if Ascii.eqb last "010" then String.rev front else rest
          | EmptyString => rest
          end in
        match body with
        | EmptyString => None
        | String _ _ =>
            if all_word body then Some (String "." body) else None
        end
      else None
  | _ => None
  end.

(** [glob.replace("*", "%").replace("?", "_")]. *)
Definition like_glob (glob : string) : string :=
  Py.replace "?" "_" (Py.replace "*" "%" glob).

(** One emitted match, printed as [f"{path}:{line_num}:{line}"]. *)
Record hit : Type := Hit {
  hit_path : string;
  hit_line_num : Z;
  hit_line : string
}.

Definition render_hit (h : hit) : string :=
  hit_path h +:+ ":" +:+ Py.str (hit_line_num h) +:+ ":" +:+ hit_line h.

Definition search_notice : string :=
  nl +:+ "... truncated at " +:+ Py.str (Z.of_nat MAX_SEARCH_MATCHES) +:+
  " matches. Narrow with glob or a more specific pattern.".

(** What [re.compile(pattern)] does: it returns the compiled expression,
    raises [re.error], the one exception [search_code] catches, or raises
    something else, such as the [OverflowError] of a repetition count that
    is too large. *)
Inductive compilation (compiled : Type) : Type :=
  | Compiled (c : compiled)
  | ReError (msg : string)
  | OtherError (e : string).
Arguments Compiled {compiled} c.
Arguments ReError {compiled} msg.
Arguments OtherError {compiled} e.

(** The state of the scan: either still looping, with the matches so far
    (their number is [match_count]), or returned from inside the loops. *)
Inductive scan : Type :=
  | Scanning (output : list hit)
  | Truncated (output : list hit)
  | Failed (e : string).

Section Search.

(** The regular expression engine ([re.compile], [compiled.search]) and
    the store's [LIKE] operator ([like text pattern]) are the
    collaborators of [search_code]. *)
Context {compiled : Type}.
Variable re_compile : string -> compilation compiled.
Variable re_search : compiled -> string -> bool.
Variable like : string -> string -> bool.

(** The [--glob] condition, [None] or [""] adding none. *)
Definition glob_condition (glob : option string) (r : File.row) : bool :=
  match glob with
  | None => true
  | Some EmptyString => true
  | Some g =>
      match ext_match g with
      | Some ext =>
          match File.extension r with
          | Some e => String.eqb e ext
          | None => false
          end
      | None => like (File.name r) (like_glob g)
      end
  end.

(** [content LIKE '%lit%'] for every literal; [NULL] content fails it. *)
Definition literal_condition (literals : list string) (r : File.row)
  : bool :=
  forallb
    (fun lit =>
       match File.content r with
       | Some text => like text ("%" +:+ lit +:+ "%")
       | None => false
       end)
    literals.

(** [SELECT path, content FROM files WHERE repo_id = $1 AND
     is_directory = false AND ... ORDER BY path] *)
Definition candidates (files : list File.row) (repo_id : string)
    (literals : list string) (glob : option string) : list File.row :=
  List.filter
    (fun r => negb (File.is_directory r) && literal_condition literals r &&
              glob_condition glob r)
    (fetch_by_path files repo_id).

(** The inner loop over [enumerate(file_lines, 1)]. *)
Fixpoint scan_lines (c : compiled) (path : string) (line_num : Z)
    (file_lines : list string) (output : list hit) : scan :=
  match file_lines with
  | [] => Scanning output
  | line :: rest =>
      if re_search c line then
        let output := output ++ [Hit path line_num line] in
        if (MAX_SEARCH_MATCHES <=? length output)%nat
        then Truncated output
        else scan_lines c path (line_num + 1) rest output
      else scan_lines c path (line_num + 1) rest output
  end.

(** The outer loop over [rows]. *)
Fixpoint scan_rows (c : compiled) (rows : list File.row)
    (output : list hit) : scan :=
  match rows with
  | [] => Scanning output
  | row :: rows' =>
      match File.content row with
      | None => Failed "'NoneType' object has no attribute 'split'"
      | Some text =>
          match scan_lines c (File.path row) 1 (Py.split "010" text)
                           output with
          | Scanning output' => scan_rows c rows' output'
          | stop => stop
          end
      end
  end.

(** The scan [search_code] runs for a pattern that compiles. *)
Definition search_scan (files : list File.row) (repo_id pattern : string)
    (glob : option string) (c : compiled) : scan :=
  scan_rows c (candidates files repo_id (_extract_literals pattern) glob) [].

Definition search_code (files : list File.row) (repo_id pattern : string)
    (glob : option string) : outcome string :=
  match re_compile pattern with
  | ReError e => Return ("Invalid regex: " +:+ e)
  | OtherError e => Raise e
  | Compiled c =>
      match candidates files repo_id (_extract_literals pattern) glob with
      | [] => Return ("No matches found for pattern: " +:+ pattern)
      | _ :: _ =>
          match search_scan files repo_id pattern glob c with
          | Failed e => Raise e
          | Truncated output =>
              Return (Py.join nl ((render_hit <$> output) ++ [search_notice]))
          | Scanning [] =>
              Return ("No matches found for pattern: " +:+ pattern)
          | Scanning output => Return (Py.join nl (render_hit <$> output))
          end
      end
  end.

(** The matching lines of one file, and of a list of rows, without the cap. *)
Fixpoint line_hits (c : compiled) (path : string) (line_num : Z)
    (file_lines : list string) : list hit :=
  match file_lines with
  | [] => []
  | line :: rest =>
      (if re_search c line then [Hit path line_num line] else []) ++
      line_hits c path (line_num + 1) rest
  end.

Definition row_hits (c : compiled) (row : File.row) : list hit :=
  line_hits c (File.path row) 1
            (Py.split "010" (default EmptyString (File.content row))).

Definition all_hits (c : compiled) (rows : list File.row) : list hit :=
  flat_map (row_hits c) rows.

End Search.

End Shell.

(** ** [backend/services/ingestion.py] *)

Module Ingestion.

Definition SKIP_DIRS : list string :=
  [ ".git"; "node_modules"; "__pycache__"; ".venv"; "venv"; ".env";
    "vendor"; "dist"; "build"; ".next"; ".nuxt"; "target"; "bin"; "obj";
    ".idea"; ".vscode"; ".DS_Store"; ".svn"; ".hg";
    "coverage"; ".cache"; ".parcel-cache"; ".turbo" ].

Definition SKIP_EXTENSIONS : list string :=
  [ ".png"; ".jpg"; ".jpeg"; ".gif"; ".svg"; ".ico"; ".bmp"; ".webp";
    ".woff"; ".woff2"; ".ttf"; ".eot"; ".otf";
    ".mp3"; ".mp4"; ".wav"; ".avi"; ".mov"; ".webm";
    ".zip"; ".tar"; ".gz"; ".rar"; ".7z"; ".bz2";
    ".pdf"; ".doc"; ".docx"; ".xls"; ".xlsx";
    ".exe"; ".dll"; ".so"; ".dylib"; ".bin";
    ".pyc"; ".pyo"; ".class"; ".o"; ".a"; ".obj"; ".wasm";
    ".sqlite"; ".db"; ".pickle"; ".pkl";
    ".map" ].

Definition SKIP_FILENAMES : list string :=
  [ "package-lock.json"; "yarn.lock"; "pnpm-lock.yaml";
    "poetry.lock"; "Cargo.lock"; "composer.lock";
    "Gemfile.lock"; "go.sum";
    ".DS_Store"; "Thumbs.db" ].

(** [x in S] for a set of strings. *)
Definition member (x : string) (S : list string) : bool :=
  existsb (String.eqb x) S.

(** [os.path.splitext(filename)[1]] for a name without separators: the
    part from the last dot on, unless only dots come before that dot. *)
Definition splitext_ext (filename : string) : string :=
  let rest := Py.lstrip "." filename in
  if Py.contains_char rest "."
  then String "." (Py.last_piece (Py.split "." rest))
  else EmptyString.

Definition _get_extension (filename : string) : string :=
  Py.lower (splitext_ext filename).

(** The cloned working tree.  A regular file carries what [stat().st_size]
    and [read_text(encoding="utf-8")] give for it, [None] when the call
    raises ([OSError], [UnicodeDecodeError]).  A directory carries its
    entries in the order [os.walk] lists them. *)
#[warnings="-register-all"]
Inductive node : Type :=
  | RegularFile (st_size : option Z) (text : option string)
  | Directory (entries : list (string * node)).

(** [str(p)] for a relative path given by its parts; ["."] when empty. *)
Definition path_str (parts : list string) : string :=
  match parts with
  | [] => "."
  | _ :: _ => Py.join "/" parts
  end.

(** [str(p.parent) if str(p.parent) != "." else ""]. *)
Definition parent_str (parts : list string) : string :=
  match removelast parts with
  | [] => EmptyString
  | front => Py.join "/" front
  end.

Section Walk.

(** [backend.config.MAX_FILE_SIZE], read from the environment
    (500 * 1024 by default). *)
Variable MAX_FILE_SIZE : Z.
Variable repo_id : string.

(** The record appended for a directory other than the root. *)
Definition dir_record (rel_dir : list string) : list File.row :=
  match rel_dir with
  | [] => []
  | _ :: _ =>
      [ File.Row repo_id (path_str rel_dir) (Py.last_piece rel_dir) None
          (parent_str rel_dir) (Z.of_nat (length rel_dir)) true None ]
  end.

(** The body of the loop over [filenames]: the record appended for one
    file, or none when the loop [continue]s. *)
Definition file_record (rel_dir : list string) (filename : string)
    (st_size : option Z) (text : option string) : list File.row :=
  if member filename SKIP_FILENAMES then []
  else
    let ext := _get_extension filename in
    if member ext SKIP_EXTENSIONS then []
    else
      let rel_path := rel_dir ++ [filename] in
      match st_size with
      | None => []
      | Some file_size =>
          if MAX_FILE_SIZE <? file_size then []
          else
            match text with
            | None => []
            | Some content =>
                [ File.Row repo_id (path_str rel_path)
                    (Py.last_piece rel_path)
                    (if String.eqb ext EmptyString then None else Some ext)
                    (parent_str rel_path)
                    (Z.of_nat (length rel_path)) false (Some content) ]
            end
      end.

(** One step of [os.walk] and everything below it: the directory's own
    record, the records of its files, then the sub-directories that
    survive the pruning of [dirnames], in order. *)
Fixpoint walk (rel_dir : list string) (n : node) : list File.row :=
  match n with
  | RegularFile _ _ => []
  | Directory entries =>
      dir_record rel_dir ++
      (fix files (es : list (string * node)) : list File.row :=
         match es with
         | [] => []
         | (filename, RegularFile st_size text) :: es' =>
             file_record rel_dir filename st_size text ++ files es'
         | (_, Directory _) :: es' => files es'
         end) entries ++
      (fix dirs (es : list (string * node)) : list File.row :=
         match es with
         | [] => []
         | (d, sub) :: es' =>
             match sub with
             | Directory _ =>
                 (if member d SKIP_DIRS then []
                  else walk (rel_dir ++ [d]) sub) ++ dirs es'
             | RegularFile _ _ => dirs es'
             end
         end) entries
  end.

Definition _collect_file_records (clone : node) : list File.row :=
  walk [] clone.

End Walk.

(** Induction on working trees: a directory has the property when all its
    entries have it. *)
Fixpoint node_induction (P : node -> Prop)
    (Hfile : forall st_size text, P (RegularFile st_size text))
    (Hdir : forall entries,
        Forall (fun e : string * node => P e.2) entries ->
        P (Directory entries))
    (n : node) : P n :=
  match n with
  | RegularFile st_size text => Hfile st_size text
  | Directory entries =>
      Hdir entries
        ((fix go (es : list (string * node))
            : Forall (fun e : string * node => P e.2) es :=
            match es with
            | [] => List.Forall_nil _
            | e :: es' =>
                List.Forall_cons _ e es'
                  (match e return P e.2 with
                   | (_, sub) => node_induction P Hfile Hdir sub
                   end)
                  (go es')
            end) entries)
  end.

(** What the walk guarantees of a record. *)
Definition content_matches_kind (r : File.row) : Prop :=
  if File.is_directory r then File.content r = None
  else File.content r <> None.

(** [file_at n parts st_size text]: below the directory [n], the relative
    path [parts] names a regular file with that size and that text. *)
Inductive file_at : node -> list string -> option Z -> option string -> Prop :=
  | file_here entries filename st_size text :
      (filename, RegularFile st_size text) ∈ entries ->
      file_at (Directory entries) [filename] st_size text
  | file_below entries d sub parts st_size text :
      (d, sub) ∈ entries ->
      file_at sub parts st_size text ->
      file_at (Directory entries) (d :: parts) st_size text.

(** *** [ingest_repo] and the [repos] table *)

Record repo : Type := Repo {
  id : string;
  url : string;
  name : string;
  status : string
}.

Record db : Type := Db {
  repos : list repo;
  files : list File.row
}.

(** [s.removesuffix(suffix)]. *)
Definition removesuffix (s suffix : string) : string :=
  if Py.endswith s suffix
  then String.substring 0 (String.length s - String.length suffix) s
  else s.

Definition _extract_repo_name (url : string) : string :=
  let clean := removesuffix (Py.rstrip "/" url) ".git" in
  if Py.contains clean "://" then
    let parts := Py.split "/" clean in
    if (2 <=? length parts)%nat
    then Py.join "/" (drop (length parts - 2) parts)
    else Py.last_piece parts
  else if Py.contains_char clean ":" then Py.last_piece (Py.split ":" clean)
  else clean.

Inductive result : Type :=
  | already_exists (repo_id : string)
  | ready (repo_id : string) (file_count : nat).

(** [UPDATE repos SET status = ... WHERE id = $1] *)
Definition set_status (new_status repo_id : string) (rs : list repo)
  : list repo :=
  (fun r => if String.eqb (id r) repo_id
            then Repo (id r) (url r) (name r) new_status else r) <$> rs.

(** [ingest_repo(conn, url)].  [repo_id] is the value [uuid.uuid4()]
    returns; [clone] is what [_git_clone] leaves in the temporary
    directory, or the error it raises. *)
Definition ingest_repo (MAX_FILE_SIZE : Z) (d : db) (url repo_id : string)
    (clone : outcome node) : db * outcome result :=
  match List.find (fun r => String.eqb (Ingestion.url r) url) (repos d) with
  | Some existing => (d, Return (already_exists (id existing)))
  | None =>
      let d1 :=
        Db (repos d ++ [Repo repo_id url (_extract_repo_name url) "ingesting"])
           (files d) in
      match clone with
      | Raise e => (Db (set_status "error" repo_id (repos d1)) (files d1),
                    Raise e)
      | Return tree =>
          let records := _collect_file_records MAX_FILE_SIZE repo_id tree in
          (Db (set_status "ready" repo_id (repos d1)) (files d1 ++ records),
           Return (ready repo_id (length records)))
      end
  end.

End Ingestion.

(** ** [backend/services/agent.py] and the chat route of
       [backend/routers/repos.py] *)

Module Agent.

Definition MAX_ITERATIONS : nat := 15.

Definition cap_text : string :=
  Shell.nl +:+ Shell.nl +:+ "---" +:+ Shell.nl +:+
  "I've reached the maximum exploration depth. " +:+
  "Here's my best answer based on what I've found so far.".

(** What the provider streams.  A chunk is its list [choices], each
    choice given by its [delta]. *)
Record function_chunk : Type := FunctionChunk {
  fn_name : option string;
  fn_arguments : option string
}.

Record tc_chunk : Type := TcChunk {
  index : Z;
  tc_id : option string;
  function : option function_chunk
}.

Record delta : Type := Delta {
  tool_calls : option (list tc_chunk);
  content : option string
}.

Definition chunk : Type := list delta.

(** A stream yields its chunks and then ends, or raises [failure]. *)
Record stream : Type := Stream {
  chunks : list chunk;
  failure : option string
}.

(** An entry of the accumulator [tool_calls]. *)
Record tool_call : Type := ToolCall {
  id : option string;
  name : option string;
  arguments_str : string
}.

Inductive message : Type :=
  | chat (role content : string)
  | assistant_tool_calls (calls : list tool_call)
  | tool_message (tool_call_id : option string) (content : string).

Section Loop.

(** Parsed JSON, [json.loads] ([None] on [JSONDecodeError]), the empty
    object, the dispatcher [execute_tool(conn, repo_id, name, arguments)]
    on the request's connection and repository, the provider call
    [client.chat.completions.create], and the system prompt. *)
Context {json : Type}.
Variable json_loads : string -> option json.
Variable empty_object : json.
Variable execute_tool : option string -> json -> outcome string.
Variable create : list message -> outcome stream.
Variable SYSTEM_PROMPT : string.

Inductive event : Type :=
  | tool_start (name : option string) (arguments : json)
  | tool_end (name : option string)
  | text_delta (content : string)
  | done
  | error (content : string).

(** What the generator does, in order: the events it yields and the
    requests it sends to the provider. *)
Inductive action : Type :=
  | Yield (e : event)
  | Request (messages : list message).

(** A run of generator code: the actions performed, then a value or the
    exception that ended it. *)
Definition gen (A : Type) : Type := list action * outcome A.

Definition ret {A : Type} (a : A) : gen A := ([], Return a).
Definition raise {A : Type} (e : string) : gen A := ([], Raise e).
Definition yield (e : event) : gen unit := ([Yield e], Return tt).
Definition bind {A B : Type} (m : gen A) (k : A -> gen B) : gen B :=
  match m with
  | (t, Return a) => let '(t', r) := k a in (t ++ t', r)
  | (t, Raise e) => (t, Raise e)
  end.
Definition lift {A : Type} (o : outcome A) : gen A := ([], o).

#[local] Instance gen_bind : MBind gen := fun A B k m => bind m k.

(** [await client.chat.completions.create(...)]. *)
Definition request (messages : list message) : gen stream :=
  ([Request messages], create messages).

(** One [tc_chunk] of [delta.tool_calls]. *)
Definition accumulate (acc : gmap Z tool_call) (tc : tc_chunk)
  : outcome (gmap Z tool_call) :=
  match function tc with
  | None =>
      match acc !! index tc with
      | None => Raise "'NoneType' object has no attribute 'name'"
      | Some _ => Raise "'NoneType' object has no attribute 'arguments'"
      end
  | Some f =>
      let acc :=
        match acc !! index tc with
        | Some _ => acc
        | None =>
            <[index tc := ToolCall (tc_id tc) (fn_name f) EmptyString]> acc
        end in
      match fn_arguments f with
      | None => Return acc
      | Some EmptyString => Return acc
      | Some fragment =>
          Return (alter (fun c => ToolCall (id c) (name c)
                                    (arguments_str c +:+ fragment))
                        (index tc) acc)
      end
  end.

Fixpoint accumulate_all (acc : gmap Z tool_call) (tcs : list tc_chunk)
  : outcome (gmap Z tool_call) :=
  match tcs with
  | [] => Return acc
  | tc :: tcs' =>
      match accumulate acc tc with
      | Return acc' => accumulate_all acc' tcs'
      | Raise e => Raise e
      end
  end.

(** The body of [async for chunk in stream]. *)
Definition on_chunk (acc : gmap Z tool_call) (c : chunk)
  : gen (gmap Z tool_call) :=
  match c with
  | [] => raise "list index out of range"
  | d :: _ =>
      acc' ← lift (match tool_calls d with
                    | None => Return acc
                    | Some tcs => accumulate_all acc tcs
                    end) ;
      match content d with
      | None => ret acc'
      | Some EmptyString => ret acc'
      | Some text => yield (text_delta text) ;; ret acc'
      end
  end.

Fixpoint consume (acc : gmap Z tool_call) (cs : list chunk)
  : gen (gmap Z tool_call) :=
  match cs with
  | [] => ret acc
  | c :: cs' => acc' ← on_chunk acc c ; consume acc' cs'
  end.

Definition consume_stream (s : stream) : gen (gmap Z tool_call) :=
  acc ← consume ∅ (chunks s) ;
  match failure s with
  | None => ret acc
  | Some e => raise e
  end.

(** [[tool_calls[idx] for idx in sorted(tool_calls.keys())]]. *)
Definition key_le (a b : Z * tool_call) : Prop := a.1 <= b.1.
#[local] Instance key_le_dec : RelDecision key_le.
Proof. intros a b. unfold key_le. apply _. Defined.
Definition in_index_order (acc : gmap Z tool_call) : list tool_call :=
  (merge_sort key_le (map_to_list acc)).*2.

(** The loop that executes the tool calls of one turn. *)
Fixpoint run_tools (calls : list tool_call) (messages : list message)
  : gen (list message) :=
  match calls with
  | [] => ret messages
  | tc :: calls' =>
      let arguments := default empty_object (json_loads (arguments_str tc)) in
      yield (tool_start (name tc) arguments) ;;
      result ← lift (execute_tool (name tc) arguments) ;
      yield (tool_end (name tc)) ;;
      run_tools calls' (messages ++ [tool_message (id tc) result])
  end.

(** [for iteration in range(n)], and the code after the loop. *)
Fixpoint react (n : nat) (messages : list message) : gen unit :=
  match n with
  | O => yield (text_delta cap_text) ;; yield done
  | S n' =>
      s ← request messages ;
      acc ← consume_stream s ;
      match in_index_order acc with
      | [] => yield done
      | calls =>
          messages' ← run_tools calls
                                 (messages ++ [assistant_tool_calls calls]) ;
          react n' messages'
      end
  end.

Definition run_agent (question : string) (history : option (list message))
  : gen unit :=
  react MAX_ITERATIONS
        ([chat "system" SYSTEM_PROMPT] ++ default [] history ++
         [chat "user" question]).

(** The events a run yields, and the requests it sends. *)
Definition yields {A : Type} (g : gen A) : list event :=
  omap (fun a => match a with Yield e => Some e | Request _ => None end) g.1.
Definition requests {A : Type} (g : gen A) : list (list message) :=
  omap (fun a => match a with Request m => Some m | Yield _ => None end) g.1.

(** [chat.event_stream]: one frame [f"data: {json.dumps(event)}\n\n"]
    per event, and an [error] frame when the generator raises. *)
Record frame : Type := Data { data : event }.

Definition event_stream (g : gen unit) : list frame :=
  (Data <$> yields g) ++
  match g.2 with
  | Return _ => []
  | Raise e => [Data (error e)]
  end.

(** An action that is neither a [done] nor an [error] event. *)
Definition quiet (a : action) : Prop :=
  match a with
  | Yield done => False
  | Yield (error _) => False
  | _ => True
  end.

(** An action that is not a request to the provider. *)
Definition local (a : action) : Prop :=
  match a with
  | Request _ => False
  | Yield _ => True
  end.

(** Every provider call streams at least one tool call and ends normally. *)
Definition always_calls_tools : Prop :=
  forall messages, exists s t acc,
    create messages = Return s /\
    consume_stream s = (t, Return acc) /\ acc <> ∅.

(** No tool raises. *)
Definition tools_return : Prop :=
  forall name arguments, exists result,
    execute_tool name arguments = Return result.

Definition is_tool_start (e : event) : bool :=
  match e with
  | tool_start _ _ => true
  | _ => false
  end.

(** The arguments a tool call is executed with. *)
Definition call_arguments (tc : tool_call) : json :=
  default empty_object (json_loads (arguments_str tc)).

(** The tool returns [result] for the call. *)
Definition returns (tc : tool_call) (result : string) : Prop :=
  execute_tool (name tc) (call_arguments tc) = Return result.

(** An exception [e] is raised in the turn that starts with the
    conversation [messages]: by the provider call; by the stream, after
    its chunks; by the handling of one of its chunks; or by a tool, the
    calls before it having returned. *)
Inductive turn_raises (messages : list message) (e : string) : Prop :=
  | provider_raises :
      create messages = Raise e ->
      turn_raises messages e
  | stream_raises s t acc :
      create messages = Return s ->
      consume ∅ (chunks s) = (t, Return acc) ->
      failure s = Some e ->
      turn_raises messages e
  | chunk_raises s before c after t acc :
      create messages = Return s ->
      chunks s = before ++ c :: after ->
      consume ∅ before = (t, Return acc) ->
      (on_chunk acc c).2 = Raise e ->
      turn_raises messages e
  | tool_raises s t acc before results tc after :
      create messages = Return s ->
      consume ∅ (chunks s) = (t, Return acc) ->
      failure s = None ->
      in_index_order acc = before ++ tc :: after ->
      Forall2 returns before results ->
      execute_tool (name tc) (call_arguments tc) = Raise e ->
      turn_raises messages e.

(** The turn that starts with [messages] runs to its end with tool calls,
    no exception being raised, and leaves [messages'] to the next turn. *)
Definition turn_continues (messages messages' : list message) : Prop :=
  exists s t acc results,
    create messages = Return s /\
    consume ∅ (chunks s) = (t, Return acc) /\
    failure s = None /\
    in_index_order acc <> [] /\
    Forall2 returns (in_index_order acc) results /\
    messages' =
      (messages ++ [assistant_tool_calls (in_index_order acc)]) ++
      zip_with (fun tc result => tool_message (id tc) result)
               (in_index_order acc) results.

(** An exception [e] is raised in one of the [n] turns to come, the turns
    before it running to their end. *)
Inductive raises_within : nat -> list message -> string -> Prop :=
  | raises_now n messages e :
      turn_raises messages e ->
      raises_within (S n) messages e
  | raises_later n messages messages' e :
      turn_continues messages messages' ->
      raises_within n messages' e ->
      raises_within (S n) messages e.

End Loop.

End Agent.

(** ** [backend/app/queue/job_queue.py] *)

Module JobQueue.

Record job : Type := Job {
  wiki_id : string;
  status : string;
  attempts : Z;
  max_attempts : Z;
  error_message : option string;
  completed_at : option string
}.

Record wiki : Type := Wiki {
  wiki_status : string;
  wiki_error_message : option string
}.

(** The [jobs] and [wikis] tables, by primary key. *)
Record db : Type := Db {
  jobs : gmap string job;
  wikis : gmap string wiki
}.

Section Orchestrator.

(** [datetime('now')], and [WikiGenerationPipeline(wiki_id).execute()],
    which works on the same store and may raise. *)
Variable now : string.
Variable execute : string -> db -> db * outcome unit.

Definition _complete_job (job_id : string) (d : db) : db :=
  Db (alter (fun j => Job (wiki_id j) "completed" (attempts j)
                        (max_attempts j) (error_message j) (Some now))
            job_id (jobs d))
     (wikis d).

Definition _fail_job (job_id error : string) (attempts max_attempts : Z)
    (d : db) : db :=
  if attempts <? max_attempts then
    Db (alter (fun j => Job (wiki_id j) "queued" (JobQueue.attempts j)
                          (JobQueue.max_attempts j) (Some error)
                          (completed_at j))
              job_id (jobs d))
       (wikis d)
  else
    let jobs' :=
      alter (fun j => Job (wiki_id j) "failed" (JobQueue.attempts j)
                        (JobQueue.max_attempts j) (Some error) (Some now))
            job_id (jobs d) in
    match jobs' !! job_id with
    | None => Db jobs' (wikis d)
    | Some row =>
        Db jobs'
           (alter (fun _ => Wiki "failed" (Some error))
                  (wiki_id row) (wikis d))
    end.

(** [_run_job(job)], [job] being the dictionary of the claimed row. *)
Definition _run_job (job_id : string) (claimed : job) (d : db) : db :=
  match execute (wiki_id claimed) d with
  | (d', Return _) => _complete_job job_id d'
  | (d', Raise e) =>
      _fail_job job_id e (attempts claimed) (max_attempts claimed) d'
  end.

End Orchestrator.

End JobQueue.

(** ** [backend/app/services/chat_service.py] *)

Module ChatService.

(** A page of the manifest, with the defaults of [page.get] filled in. *)
Record page : Type := Page {
  slug : string;
  title : string;
  summary : string;
  key_exports : list string;
  source_files : list string
}.

(** The arithmetic the scores are computed in: [float(n)] for a
    non-negative integer, [+], [*], [/] and [<] on floats. *)
Class Score (F : Type) : Type := {
  of_nat : nat -> F;
  add : F -> F -> F;
  mul : F -> F -> F;
  div : F -> F -> F;
  lt : F -> F -> bool
}.

Section Selector.

Context {F : Type} {arith : Score F}.

(** [set(text.lower().split())]. *)
Definition terms (text : string) : gset string :=
  list_to_set (Py.split_ws (Py.lower text)).

(** The title and summary steps: [if overlap: score += w * len(overlap)
    / max(len(question_terms), 1)]. *)
Definition add_overlap (weight : nat) (question_terms : gset string)
    (text : string) (score : F) : F :=
  let overlap := question_terms ∩ terms text in
  if decide (overlap = ∅) then score
  else add score
           (div (mul (of_nat weight) (of_nat (size overlap)))
                (of_nat (Nat.max (size question_terms) 1))).

(** [export.lower() in question_lower]. *)
Definition export_hit (question_lower export : string) : bool :=
  Py.contains question_lower (Py.lower export).

(** [f.split("/")[-1].replace("_", " ").replace(".py", "")]. *)
Definition file_label (f : string) : string :=
  Py.replace ".py" "" (Py.replace "_" " " (Py.last_piece (Py.split "/" f))).

(** [any(term in filename.lower() for term in question_terms)]. *)
Definition file_hit (question_terms : gset string) (f : string) : bool :=
  existsb (fun term => Py.contains (Py.lower (file_label f)) term)
          (elements question_terms).

(** A loop [for x in xs: if hit(x): score += w]. *)
Definition add_hits {A : Type} (weight : nat) (hit : A -> bool)
    (xs : list A) (score : F) : F :=
  fold_left (fun score x => if hit x then add score (of_nat weight)
                            else score)
            xs score.

Definition page_score (question : string) (p : page) : F :=
  let question_lower := Py.lower question in
  let question_terms : gset string :=
    list_to_set (Py.split_ws question_lower) in
  let score := of_nat 0 in
  let score := add_overlap 3 question_terms (title p) score in
  let score := add_overlap 2 question_terms (summary p) score in
  let score := add_hits 5 (export_hit question_lower) (key_exports p) score in
  add_hits 2 (file_hit question_terms) (source_files p) score.

(** [scored.sort(key=lambda x: x[1], reverse=True)]: the sort is stable,
    so an entry goes before the first one that does not beat it. *)
Fixpoint insert_desc (x : string * F) (sorted : list (string * F))
  : list (string * F) :=
  match sorted with
  | [] => [x]
  | y :: rest =>
      if lt x.2 y.2 then y :: insert_desc x rest else x :: sorted
  end.

Fixpoint sort_desc (scored : list (string * F)) : list (string * F) :=
  match scored with
  | [] => []
  | x :: rest => insert_desc x (sort_desc rest)
  end.

(** The list [scored] before it is sorted. *)
Definition scored_pages (pages : list page) (question : string)
  : list (string * F) :=
  omap (fun p => let score := page_score question p in
                 if lt (of_nat 0) score then Some (slug p, score) else None)
       pages.

Definition _select_context_pages (pages : list page) (question : string)
    (max_pages : nat) : list string :=
  (take max_pages (sort_desc (scored_pages pages question))).*1.



End Selector.

(** Python floats are IEEE 754 binary64 numbers. *)
#[export] Instance float_score : Score float := {
  of_nat n := PrimFloat.of_uint63 (Uint63.of_Z (Z.of_nat n));
  add := PrimFloat.add;
  mul := PrimFloat.mul;
  div := PrimFloat.div;
  lt := PrimFloat.ltb
}.





End ChatService.

(** ** [backend/app/queue/job_queue.py]: claiming a job and crash recovery *)

Module JobClaim.

(** A row of [jobs] with the further columns that [start] and
    [_dequeue_next] read and write: [priority] is an integer and
    [created_at] a text compared by code points, as [datetime('now')]
    values are. *)
Record entry : Type := Entry {
  row : JobQueue.job;
  priority : Z;
  created_at : string;
  started_at : option string;
  worker_id : option string
}.

(** [start], on the [jobs] table by primary key:
    [UPDATE jobs SET status = 'queued', worker_id = NULL
     WHERE status = 'running'] *)
Definition requeue (e : entry) : entry :=
  if String.eqb (JobQueue.status (row e)) "running"
  then Entry (JobQueue.Job (JobQueue.wiki_id (row e)) "queued"
                (JobQueue.attempts (row e)) (JobQueue.max_attempts (row e))
                (JobQueue.error_message (row e))
                (JobQueue.completed_at (row e)))
             (priority e) (created_at e) (started_at e) None
  else e.

Definition start (t : gmap string entry) : gmap string entry := requeue <$> t.

(** [WHERE status = 'queued' AND attempts < max_attempts] *)
Definition eligible (e : entry) : bool :=
  String.eqb (JobQueue.status (row e)) "queued" &&
  (JobQueue.attempts (row e) <? JobQueue.max_attempts (row e)).

(** [ORDER BY priority DESC, created_at ASC] *)
Definition claim_le (a b : string * entry) : Prop :=
  priority b.2 < priority a.2 \/
  (priority a.2 = priority b.2 /\ String.le (created_at a.2) (created_at b.2)).
#[global] Instance claim_le_dec : RelDecision claim_le.
Proof. intros a b. unfold claim_le. apply _. Defined.

(** The sub-query: [SELECT id ... ORDER BY ... LIMIT 1]. *)
Definition next (t : gmap string entry) : option (string * entry) :=
  head (merge_sort claim_le
          (List.filter (fun p : string * entry => eligible p.2)
                       (map_to_list t))).

Section Claim.

(** [datetime('now')]. *)
Variable now : string.

(** [SET status = 'running', started_at = datetime('now'),
     attempts = attempts + 1]. *)
Definition claim (e : entry) : entry :=
  Entry (JobQueue.Job (JobQueue.wiki_id (row e)) "running"
           (JobQueue.attempts (row e) + 1) (JobQueue.max_attempts (row e))
           (JobQueue.error_message (row e)) (JobQueue.completed_at (row e)))
        (priority e) (created_at e) (Some now) (worker_id e).

(** [_dequeue_next]: the table after the update, and the row returned. *)
Definition _dequeue_next (t : gmap string entry) : gmap string entry * option (string * entry) :=
  match next t with
  | None => (t, None)
  | Some (job_id, e) => (<[job_id := claim e]> t, Some (job_id, claim e))
  end.

End Claim.

End JobClaim.

(** ** Vocabulary of the statements about the tools and the walk *)

(** A string ends where a run of word characters may end: it is empty or
    starts with a character that is not one; and the same for the start. *)
Definition run_ends (b : string) : Prop :=
  b = EmptyString \/
  exists c b', b = String c b' /\ Shell.is_word c = false.

Definition run_starts (a : string) : Prop :=
  a = EmptyString \/
  exists a' c, a = a' +:+ String c EmptyString /\ Shell.is_word c = false.

(** The shape of the record the walk makes for the entry [leaf] of the
    directory [dirs] (given by its parts, from the root of the clone). *)
Definition record_at (repo_id : string) (dirs : list string) (leaf : string)
    (r : File.row) : Prop :=
  File.repo_id r = repo_id /\
  File.path r = Py.join "/" (dirs ++ [leaf]) /\
  File.name r = leaf /\
  File.parent_path r = Py.join "/" dirs /\
  File.depth r = Z.of_nat (length dirs) + 1 /\
  File.extension r =
    (if File.is_directory r then None
     else if String.eqb (Ingestion._get_extension leaf) EmptyString then None
          else Some (Ingestion._get_extension leaf)) /\
  (if File.is_directory r
   then Ingestion.member leaf Ingestion.SKIP_DIRS = false
   else Ingestion.member leaf Ingestion.SKIP_FILENAMES = false /\
        Ingestion.member (Ingestion._get_extension leaf)
                         Ingestion.SKIP_EXTENSIONS = false).

(** ** Vocabulary of the statements about the agent loop *)

(** The text a chunk carries for the client: the content of the delta of
    its first choice, when there is one and it is not empty. *)
Definition chunk_text (c : Agent.chunk) : option string :=
  match c with
  | d :: _ =>
      match Agent.content d with
      | Some (String a text) => Some (String a text)
      | _ => None
      end
  | [] => None
  end.

(** The first choice of a chunk exists and carries no tool call. *)
Definition text_only (c : Agent.chunk) : Prop :=
  exists d rest, c = d :: rest /\
    (Agent.tool_calls d = None \/ Agent.tool_calls d = Some []).

(** The argument fragment of a streamed piece of a tool call. *)
Definition fragment (tc : Agent.tc_chunk) : string :=
  match Agent.function tc with
  | Some f => default EmptyString (Agent.fn_arguments f)
  | None => EmptyString
  end.

(** The pieces streamed for the tool call of index [i], in order. *)
Definition pieces_of (i : Z) (tcs : list Agent.tc_chunk)
  : list Agent.tc_chunk :=
  List.filter (fun tc => Agent.index tc =? i) tcs.

(** ** Concrete inputs

    The stores, trees and collaborators the statements below are evaluated
    on. *)

Module Examples.

(** A repository whose only row is the file [.gitignore]. *)
Definition dotfile_repo : list File.row :=
  [ File.Row "r1" ".gitignore" ".gitignore" None "" 1 false
             (Some "node_modules") ].

(** A two-line file at the root of a repository. *)
Definition notes_row : File.row :=
  File.Row "r1" "notes.txt" "notes.txt" (Some ".txt") "" 1 false
           (Some ("alpha" +:+ Shell.nl +:+ "beta")).

Definition notes_repo : list File.row := [notes_row].

(** A repository with a directory whose name ends in [.d]. *)
Definition conf_repo : list File.row :=
  [ File.Row "r1" "etc" "etc" None "" 1 true None;
    File.Row "r1" "etc/conf.d" "conf.d" None "etc" 2 true None;
    File.Row "r1" "etc/conf.d/site.conf" "site.conf" (Some ".conf")
             "etc/conf.d" 3 false (Some "listen 80") ].

(** The repository of the specification's scenarios. *)
Definition scenario_repo : list File.row :=
  [ File.Row "r1" "README.md" "README.md" (Some ".md") "" 1 false
             (Some "# demo");
    File.Row "r1" "src" "src" None "" 1 true None;
    File.Row "r1" "src/a.py" "a.py" (Some ".py") "src" 2 false
             (Some "import os");
    File.Row "r1" "src/b" "b" None "src" 2 true None;
    File.Row "r1" "src/b/c.py" "c.py" (Some ".py") "src/b" 3 false
             (Some "x = 1") ].

(** A working tree with an oversized file, an undecodable file, a skipped
    directory and ordinary sources. *)
Definition clone_tree : Ingestion.node :=
  Ingestion.Directory
    [ ("README.md", Ingestion.RegularFile (Some 6) (Some "# demo"));
      (".git", Ingestion.Directory
         [ ("HEAD", Ingestion.RegularFile (Some 20) (Some "ref: refs/heads/main")) ]);
      ("src", Ingestion.Directory
         [ ("a.py", Ingestion.RegularFile (Some 9) (Some "import os"));
           ("dump.sql", Ingestion.RegularFile (Some 900000) (Some "--"));
           ("blob.dat", Ingestion.RegularFile (Some 4) None);
           ("b", Ingestion.Directory
              [ ("c.py", Ingestion.RegularFile (Some 5) (Some "x = 1")) ]) ]) ].

(** The store after an ingestion of [hello_url] failed: its row is left
    in status [error]. *)
Definition hello_url : string := "https://github.com/octocat/Hello-World".

Definition failed_db : Ingestion.db :=
  Ingestion.Db
    [ Ingestion.Repo "r0" hello_url "octocat/Hello-World" "error" ] [].

(** A store with one running job, on its last attempt, and its wiki. *)
Definition last_attempt_job : JobQueue.job :=
  JobQueue.Job "w1" "running" 3 3 None None.

Definition job_db : JobQueue.db :=
  JobQueue.Db {[ "j1" := last_attempt_job ]}
              {[ "w1" := JobQueue.Wiki "cloning" None ]}.

(** A pipeline that fails while cloning. *)
Definition failing_pipeline (wiki_id : string) (d : JobQueue.db)
  : JobQueue.db * outcome unit :=
  (d, Raise "git clone failed").

(** A provider that asks for [list_files] on every turn, and one whose
    stream breaks after a first text delta. *)
Definition ls_turn : Agent.stream :=
  Agent.Stream
    [ [ Agent.Delta
          (Some [ Agent.TcChunk 0 (Some "call_1")
                    (Some (Agent.FunctionChunk (Some "list_files")
                                               (Some "{}"))) ])
          None ] ]
    None.

Definition eager_client (messages : list Agent.message)
  : outcome Agent.stream :=
  Return ls_turn.

Definition broken_client (messages : list Agent.message)
  : outcome Agent.stream :=
  Return (Agent.Stream [ [ Agent.Delta None (Some "Let me look") ] ]
                       (Some "Connection reset")).

(** A provider that asks for [list_files] on the first turn and refuses
    the next request. *)
Definition rate_limited_client (messages : list Agent.message)
  : outcome Agent.stream :=
  if (length messages <=? 2)%nat then Return ls_turn
  else Raise "Rate limit reached".

(** Arguments are kept as their text; every JSON text parses. *)
Definition text_loads (s : string) : option string := Some s.

Definition listing_tool (name : option string) (arguments : string)
  : outcome string :=
  Return "README.md".

Definition failing_tool (name : option string) (arguments : string)
  : outcome string :=
  Raise "connection is closed".

(** The regular expressions made of literal text and [|]: the compiled
    form is the list of alternatives, and [search] looks for one of them in
    the line, as [re] does for such patterns. *)
Definition word_compile (pattern : string)
  : Shell.compilation (list string) :=
  Shell.Compiled (Py.split "|" pattern).

Definition word_search (alternatives : list string) (line : string) : bool :=
  existsb (Py.contains line) alternatives.

(** [LIKE] with its two wildcards: [%] for any run of characters and [_]
    for any one character. *)
Fixpoint sql_like_pat (pat text : string) : bool :=
  match pat with
  | EmptyString =>
      match text with EmptyString => true | String _ _ => false end
  | String p pat' =>
      if Ascii.eqb p "%" then
        (fix any (t : string) : bool :=
           sql_like_pat pat' t ||
           match t with
           | EmptyString => false
           | String _ t' => any t'
           end) text
      else if Ascii.eqb p "_" then
        match text with
        | EmptyString => false
        | String _ text' => sql_like_pat pat' text'
        end
      else
        match text with
        | EmptyString => false
        | String c text' => Ascii.eqb p c && sql_like_pat pat' text'
        end
  end.

Definition sql_like (text pat : string) : bool := sql_like_pat pat text.

(** A repository with one two-line file. *)
Definition foo_bar_repo : list File.row :=
  [ File.Row "r1" "a.txt" "a.txt" (Some ".txt") "" 1 false
             (Some ("foo" +:+ Shell.nl +:+ "bar")) ].

(** A repository with one file of fifty lines [abc] and a last line
    [abc xyz]. *)
Definition long_repo : list File.row :=
  [ File.Row "r1" "log.txt" "log.txt" (Some ".txt") "" 1 false
             (Some (Py.join Shell.nl (replicate 50 "abc" ++ ["abc xyz"]))) ].

(** A manifest whose second page names a source file [oauth_client.py]. *)
Definition wiki_pages : list ChatService.page :=
  [ ChatService.Page "sessions" "Session handling" "How auth sessions expire"
                     [] ["src/session.py"];
    ChatService.Page "oauth" "Third-party login" "" []
                     ["src/oauth_client.py"] ].

Definition auth_question : string := "how is auth handled".

(** A queue with one job that has used two of its three attempts. *)
Definition queued_table : gmap string JobClaim.entry :=
  {[ "j1" := JobClaim.Entry (JobQueue.Job "w1" "queued" 2 3 None None)
                            0 "2026-01-01 00:00:00" None None ]}.

End Examples.

(** * Properties *)

(** ** Strings *)

Section PyFacts.

Lemma lstrip_head chars s :
  Py.lstrip chars s = EmptyString \/
  exists c s', Py.lstrip chars s = String c s' /\
               Py.contains_char chars c = false.
Proof.
  induction s as [|c s IH]; simpl; [by left|].
  destruct (Py.contains_char chars c) eqn:Hc; [exact IH|].
  right. by exists c, s.
Qed.

(** Stripping a smaller set of characters after a larger one is a no-op. *)
Lemma lstrip_lstrip chars chars' s :
  (forall c, Py.contains_char chars' c = true ->
             Py.contains_char chars c = true) ->
  Py.lstrip chars' (Py.lstrip chars s) = Py.lstrip chars s.
Proof.
  intros Hsub.
  destruct (lstrip_head chars s) as [-> | (c & s' & -> & Hc)]; [done|].
  simpl. destruct (Py.contains_char chars' c) eqn:Hc'; [|done].
  apply Hsub in Hc'. congruence.
Qed.

Lemma rstrip_rstrip chars s :
  Py.rstrip chars (Py.rstrip chars s) = Py.rstrip chars s.
Proof.
  induction s as [|c s IH]; simpl; [done|].
  destruct (Py.rstrip chars s) as [|d r] eqn:Hr.
  - destruct (Py.contains_char chars c) eqn:Hc; simpl; [done|].
    by rewrite Hc.
  - simpl in *. by rewrite IH.
Qed.

Lemma rstrip_tail chars c s :
  Py.rstrip chars (String c s) = String c s -> Py.rstrip chars s = s.
Proof.
  simpl. destruct (Py.rstrip chars s) as [|d r] eqn:Hr.
  - destruct (Py.contains_char chars c); [done|]. congruence.
  - congruence.
Qed.

(** A string without trailing [chars] keeps that property when leading
    characters are removed. *)
Lemma rstrip_lstrip chars chars' s :
  Py.rstrip chars s = s ->
  Py.rstrip chars (Py.lstrip chars' s) = Py.lstrip chars' s.
Proof.
  induction s as [|c s IH]; intros Hfix; simpl; [done|].
  destruct (Py.contains_char chars' c); [|exact Hfix].
  apply IH. by eapply rstrip_tail.
Qed.

(** The path normalisation of [read_file] is idempotent. *)
Lemma normalise_idem p :
  Py.lstrip "./" (Py.strip "/" (Py.lstrip "./" (Py.strip "/" p))) =
  Py.lstrip "./" (Py.strip "/" p).
Proof.
  unfold Py.strip.
  set (t := Py.rstrip "/" (Py.lstrip "/" p)).
  assert (Ht : Py.rstrip "/" t = t) by apply rstrip_rstrip.
  rewrite (lstrip_lstrip "./" "/").
  - rewrite (rstrip_lstrip "/" "./" t Ht).
    by apply lstrip_lstrip.
  - intros c. simpl. destruct (Ascii.eqb c "/"); [|done].
    intros _. by destruct (Ascii.eqb c ".").
Qed.

End PyFacts.

(** ** [read_file] *)

Section ReadFile.

(** C10: [read_file] gives the same result for a path and for that path
    with its leading and trailing slashes stripped and then every leading
    dot or slash removed; so [".gitignore"] is looked up as ["gitignore"],
    and when the repository has no row of that name the call reports "No
    such file or directory", whatever other rows (one with path
    [".gitignore"] included) exist. *)
Theorem read_file_normalises_path :
  (forall files repo_id p start_line end_line,
      Shell.read_file files repo_id p start_line end_line =
      Shell.read_file files repo_id (Py.lstrip "./" (Py.strip "/" p))
                      start_line end_line) /\
  (forall files repo_id start_line end_line,
      Shell.read_file files repo_id ".gitignore" start_line end_line =
      Shell.read_file files repo_id "gitignore" start_line end_line) /\
  (forall files repo_id start_line end_line,
      (forall r, r ∈ files -> File.repo_id r = repo_id ->
                 File.path r <> "gitignore") ->
      Shell.read_file files repo_id ".gitignore" start_line end_line =
      Return "Error: gitignore: No such file or directory").
Proof.
  split; [|split].
  - intros. unfold Shell.read_file. by rewrite normalise_idem.
  - done.
  - intros files repo_id start_line end_line Hnone.
    unfold Shell.read_file.
    change (Py.lstrip "./" (Py.strip "/" ".gitignore")) with "gitignore".
    destruct (Shell.fetchrow_path files repo_id "gitignore") as [r|] eqn:Hf;
      [|done].
    apply find_some in Hf as [Hin Hr].
    apply andb_true_iff in Hr as [Hrepo Hpath].
    apply String.eqb_eq in Hrepo, Hpath.
    exfalso. eapply Hnone; [|exact Hrepo|exact Hpath].
    by apply list_elem_of_In.
Qed.

Lemma read_file_normalises_path_witness :
  Shell.read_file Examples.dotfile_repo "r1" ".gitignore" None None =
  Return "Error: gitignore: No such file or directory".
Proof.
  apply (proj2 (proj2 read_file_normalises_path)).
  intros r Hr _ Hpath.
  apply list_elem_of_In in Hr. simpl in Hr.
  destruct Hr as [<- | []]. discriminate Hpath.
Defined.

End ReadFile.

Section ReadWhole.

Lemma append_cons c a b : String c a +:+ b = String c (a +:+ b).
Proof. reflexivity. Qed.

Lemma contains_char_app a b c :
  Py.contains_char (a +:+ b) c = Py.contains_char a c || Py.contains_char b c.
Proof.
  induction a as [|d a IH]; [done|].
  rewrite append_cons. simpl. rewrite IH. by destruct (Ascii.eqb c d).
Qed.

Lemma digits_no_newline u :
  Py.contains_char (NilEmpty.string_of_uint u) "010" = false.
Proof. induction u; simpl; auto. Qed.

Lemma str_no_newline n : Py.contains_char (Py.str n) "010" = false.
Proof.
  unfold Py.str, NilZero.string_of_int, NilZero.string_of_uint.
  destruct (Z.to_int n) as [u|u]; destruct u; try done;
    simpl; apply digits_no_newline.
Qed.

Lemma spaces_no_newline n : Py.contains_char (Py.spaces n) "010" = false.
Proof. induction n; simpl; auto. Qed.

Lemma split_no_sep sep s :
  Py.contains_char s sep = false -> Py.split sep s = [s].
Proof.
  induction s as [|c s IH]; simpl; [done|].
  rewrite (Ascii.eqb_sym sep c).
  destruct (Ascii.eqb c sep); [done|]. intros H. by rewrite (IH H).
Qed.

Lemma split_app_sep sep s t :
  Py.contains_char s sep = false ->
  Py.split sep (s +:+ String sep t) = s :: Py.split sep t.
Proof.
  induction s as [|c s IH]; simpl.
  - intros _. change (EmptyString +:+ String sep t) with (String sep t).
    simpl. by rewrite Ascii.eqb_refl.
  - rewrite (Ascii.eqb_sym sep c).
    destruct (Ascii.eqb c sep); [done|]. intros H. by rewrite (IH H).
Qed.

Lemma split_nonempty sep s : Py.split sep s <> [].
Proof.
  destruct s as [|c s]; simpl; [done|].
  destruct (Ascii.eqb c sep); [done|]. by destruct (Py.split sep s).
Qed.

Lemma split_pieces sep s :
  Forall (fun piece => Py.contains_char piece sep = false) (Py.split sep s).
Proof.
  induction s as [|c s IH]; simpl; [by constructor|].
  destruct (Ascii.eqb c sep) eqn:Hc; [by constructor|].
  destruct (Py.split sep s) as [|piece rest] eqn:Hs;
    [by apply split_nonempty in Hs|].
  inversion IH; subst. constructor; [|done].
  simpl. rewrite Ascii.eqb_sym, Hc. done.
Qed.

(** Splitting a joined list of newline-free lines gives the lines back. *)
Lemma split_join lines :
  lines <> [] ->
  Forall (fun line => Py.contains_char line "010" = false) lines ->
  Py.split "010" (Py.join Shell.nl lines) = lines.
Proof.
  induction lines as [|p rest IH]; [done|]. intros _ Hall.
  inversion Hall as [|? ? Hp Hrest]; subst.
  destruct rest as [|q rest].
  - simpl. by apply split_no_sep.
  - change (Py.join Shell.nl (p :: q :: rest))
      with (p +:+ String "010" (Py.join Shell.nl (q :: rest))).
    rewrite split_app_sep by done. f_equal. by apply IH.
Qed.

Lemma slice_all {A} (l : list A) :
  Py.slice l (Some 0) (Some (Z.of_nat (length l))) = l.
Proof.
  unfold Py.slice, Py.slice_bound.
  destruct (Z.ltb_spec (Z.of_nat (length l)) 0) as [Hneg|_]; [lia|].
  change (0 <? 0) with false. cbv beta iota zeta.
  replace (Z.to_nat (Z.max 0 (Z.min (Z.of_nat (length l)) 0))) with 0%nat by lia.
  rewrite drop_0. apply take_ge. lia.
Qed.

Lemma number_lines_length w n l : length (Shell.number_lines w n l) = length l.
Proof. revert n. induction l; intros; simpl; auto. Qed.

Lemma number_lines_lookup w n l i :
  Shell.number_lines w n l !! i =
  Shell.numbered w (n + Z.of_nat i) <$> l !! i.
Proof.
  revert n i. induction l as [|x l IH]; intros n [|i]; simpl; try done.
  - by rewrite Z.add_0_r.
  - rewrite IH. by replace (n + 1 + Z.of_nat i) with (n + Z.pos (Pos.of_succ_nat i)) by lia.
Qed.

Lemma numbered_no_newline w n line :
  Py.contains_char line "010" = false ->
  Py.contains_char (Shell.numbered w n line) "010" = false.
Proof.
  intros H. unfold Shell.numbered, Py.rjust.
  rewrite !contains_char_app, spaces_no_newline, str_no_newline, H. done.
Qed.

Lemma number_lines_no_newline w n l :
  Forall (fun line => Py.contains_char line "010" = false) l ->
  Forall (fun line => Py.contains_char line "010" = false)
         (Shell.number_lines w n l).
Proof.
  intros H. revert n. induction H; intros n; simpl; constructor; auto.
  by apply numbered_no_newline.
Qed.

(** C4: for a stored file whose content splits into N lines, [read_file]
    without bounds returns min(N, 500) output lines, one per source line and
    in order; line i (from 1) is the number i right-aligned to the width of
    the last number shown, then [" | "], then the source line unchanged; the
    output lines are separated by newlines and contain none; and when N > 500
    the notice with the total N follows. *)
Theorem read_file_whole files repo_id path row text :
  Shell.fetchrow_path files repo_id (Py.lstrip "./" (Py.strip "/" path))
    = Some row ->
  File.is_directory row = false ->
  File.content row = Some text ->
  let lines := Py.split "010" text in
  let N := length lines in
  let shown := Nat.min N 500 in
  let width := String.length (Py.str (Z.of_nat shown)) in
  exists out : list string,
    Shell.read_file files repo_id path None None =
      Return (if (500 <? N)%nat
              then Py.join Shell.nl out +:+ Shell.nl +:+ Shell.nl +:+
                   "... truncated (" +:+ Py.str (Z.of_nat N) +:+
                   " total lines). Use start_line/end_line to read specific sections."
              else Py.join Shell.nl out) /\
    length out = shown /\
    (forall i line, lines !! i = Some line -> (i < 500)%nat ->
       out !! i = Some (Py.rjust width (Py.str (Z.of_nat (i + 1))) +:+
                        " | " +:+ line)) /\
    Py.split "010" (Py.join Shell.nl out) = out.
Proof.
  intros Hrow Hdir Htext lines N shown width.
  exists (Shell.number_lines width 1 (take shown lines)).
  assert (HN : (0 < N)%nat).
  { subst N lines. pose proof (split_nonempty "010" text).
    destruct (Py.split "010" text); [done|simpl; lia]. }
  split; [|split; [|split]].
  - unfold Shell.read_file. rewrite Hrow, Hdir, Htext.
    fold lines. cbv zeta.
    change (Shell.or_default None 1 - 1) with 0.
    change (Shell.or_default None (Z.of_nat (length lines)))
      with (Z.of_nat (length lines)).
    rewrite slice_all. fold N. change (0 + 1) with 1.
    unfold Shell.MAX_FILE_LINES.
    destruct (500 <? N)%nat eqn:Hcap.
    + apply Nat.ltb_lt in Hcap.
      assert (shown = 500%nat) as Hs by (subst shown; lia).
      rewrite length_take_le by (fold N; lia).
      subst width. rewrite Hs.
      replace (1 + Z.of_nat 500 - 1) with (Z.of_nat 500) by lia.
      done.
    + apply Nat.ltb_ge in Hcap.
      assert (shown = N) as Hs by (subst shown; lia).
      subst width. rewrite Hs. fold N.
      replace (1 + Z.of_nat N - 1) with (Z.of_nat N) by lia.
      rewrite take_ge by (fold N; lia). done.
  - rewrite number_lines_length, length_take. fold N. subst shown. lia.
  - intros i line Hline Hi.
    assert (i < N)%nat by (subst N; by eapply lookup_lt_Some).
    rewrite number_lines_lookup, lookup_take_lt by (subst shown; lia).
    rewrite Hline. simpl. unfold Shell.numbered.
    by replace (1 + Z.of_nat i) with (Z.of_nat (i + 1)) by lia.
  - apply split_join.
    + intros Heq. apply (f_equal length) in Heq.
      rewrite number_lines_length, length_take in Heq. fold N in Heq.
      simpl in Heq. lia.
    + apply number_lines_no_newline, Forall_take, split_pieces.
Qed.

End ReadWhole.

Lemma read_file_whole_witness :
  exists out : list string,
    Shell.read_file Examples.notes_repo "r1" "notes.txt" None None =
      Return (Py.join Shell.nl out) /\
    length out = 2%nat /\
    out !! 1%nat = Some "2 | beta".
Proof.
  destruct (read_file_whole Examples.notes_repo "r1" "notes.txt"
              Examples.notes_row ("alpha" +:+ Shell.nl +:+ "beta")
              eq_refl eq_refl eq_refl) as (out & Hout & Hlen & Hline & _).
  exists out. split; [exact Hout|]. split; [exact Hlen|].
  exact (Hline 1%nat "beta" eq_refl ltac:(lia)).
Defined.

(** ** [list_files] in glob mode *)

Section Glob.

Lemma contains_char_cons d s c :
  Py.contains_char (String d s) c =
  if Ascii.eqb c d then true else Py.contains_char s c.
Proof. reflexivity. Qed.

Lemma append_assoc a b c : (a +:+ b) +:+ c = a +:+ (b +:+ c).
Proof.
  induction a as [|x a IH]; [done|]. rewrite !append_cons. by rewrite IH.
Qed.

Lemma append_nil_r a : a +:+ "" = a.
Proof. induction a as [|x a IH]; [done|]. rewrite append_cons. by rewrite IH. Qed.

(** What a leading [*] does: it takes some prefix of the name. *)
Lemma fnmatch_star pat name :
  Fnmatch.fnmatchcase_pat (String "*" pat) name = true <->
  exists a b, name = a +:+ b /\ Fnmatch.fnmatchcase_pat pat b = true.
Proof.
  simpl. induction name as [|c name IH].
  - rewrite orb_false_r. split.
    + intros H. by exists "", "".
    + intros (a & b & Hab & H). destruct a; [|done].
      change ("" +:+ b) with b in Hab. by subst b.
  - split.
    + intros [H|H]%orb_true_iff.
      * by exists "", (String c name).
      * apply IH in H as (a & b & -> & H). by exists (String c a), b.
    + intros (a & b & Hab & H). apply orb_true_iff.
      destruct a as [|x a].
      * left. change ("" +:+ b) with b in Hab. by subst b.
      * right. rewrite append_cons in Hab. injection Hab as -> ->.
        apply IH. by exists a, b.
Qed.

(** A character that is neither [*] nor [?] matches itself. *)
Lemma fnmatch_char c pat name :
  Ascii.eqb c "*" = false -> Ascii.eqb c "?" = false ->
  Fnmatch.fnmatchcase_pat (String c pat) name = true <->
  exists name', name = String c name' /\
                Fnmatch.fnmatchcase_pat pat name' = true.
Proof.
  intros Hs Hq. simpl. rewrite Hs, Hq. destruct name as [|d name].
  - split; [done|]. by intros (? & ? & _).
  - split.
    + intros [->%Ascii.eqb_eq H]%andb_true_iff. by exists name.
    + intros (name' & [= -> ->] & H). by rewrite Ascii.eqb_refl.
Qed.

Lemma fnmatch_literal pat name :
  Py.contains_char pat "*" = false -> Py.contains_char pat "?" = false ->
  Fnmatch.fnmatchcase_pat pat name = true <-> name = pat.
Proof.
  revert name. induction pat as [|c pat IH]; intros name Hs Hq.
  - destruct name; simpl; split; done.
  - rewrite contains_char_cons in Hs, Hq.
    rewrite (Ascii.eqb_sym "*" c) in Hs.
    rewrite (Ascii.eqb_sym "?" c) in Hq.
    destruct (Ascii.eqb c "*") eqn:Es; [done|].
    destruct (Ascii.eqb c "?") eqn:Eq; [done|].
    rewrite fnmatch_char by done. split.
    + intros (name' & -> & H). f_equal. by apply IH.
    + intros ->. exists pat. split; [done|]. by apply IH.
Qed.

(** The glob for an extension: some directory prefix, a slash, and a last
    part that ends with the dot and the extension.  The [*] crosses
    slashes, so the "last part" may itself contain some. *)
Lemma fnmatch_ext X name :
  Fnmatch.plain X ->
  Fnmatch.fnmatch name ("**/*." +:+ X) = true <->
  exists a b, name = a +:+ "/" +:+ b +:+ "." +:+ X.
Proof.
  intros (Hs & Hq & _ & _). unfold Fnmatch.fnmatch.
  change ("**/*." +:+ X)
    with (String "*" (String "*" (String "/" (String "*" (String "." X))))).
  rewrite fnmatch_star. split.
  - intros (a1 & b1 & -> & (a2 & b2 & -> & H)%fnmatch_star).
    apply fnmatch_char in H as (b3 & -> & H); [|done..].
    apply fnmatch_star in H as (a4 & b4 & -> & H).
    apply fnmatch_literal in H as ->; [|simpl; by rewrite ?Hs, ?Hq..].
    exists (a1 +:+ a2), a4. by rewrite !append_assoc.
  - intros (a & b & ->). exists a, ("/" +:+ b +:+ "." +:+ X). split; [done|].
    apply fnmatch_star. exists "", ("/" +:+ b +:+ "." +:+ X). split; [done|].
    apply fnmatch_char; [done..|]. exists (b +:+ "." +:+ X). split; [done|].
    apply fnmatch_star. exists b, ("." +:+ X). split; [done|].
    apply fnmatch_literal; [simpl; by rewrite ?Hs, ?Hq..|done].
Qed.

Lemma endswith_spec hay needle :
  Py.endswith hay needle = true <-> exists front, hay = front +:+ needle.
Proof.
  induction hay as [|c hay IH].
  - change (Py.endswith "" needle) with (String.eqb "" needle || false).
    rewrite orb_false_r, String.eqb_eq. split.
    + intros <-. by exists "".
    + intros (front & H). destruct front; [done|]. by rewrite append_cons in H.
  - change (Py.endswith (String c hay) needle)
      with (String.eqb (String c hay) needle || Py.endswith hay needle).
    rewrite orb_true_iff, String.eqb_eq, IH. split.
    + intros [<- | (front & ->)]; [by exists ""|]. by exists (String c front).
    + intros ([|d front] & H); [by left|].
      rewrite append_cons in H. injection H as -> ->. right. by exists front.
Qed.

Lemma contains_char_spec s c :
  Py.contains_char s c = true <-> exists a b, s = a +:+ String c b.
Proof.
  induction s as [|d s IH]; simpl.
  - split; [done|]. intros ([|? ?] & ? & H); by rewrite ?append_cons in H.
  - destruct (Ascii.eqb_spec c d) as [->|Hne].
    + split; [|done]. intros _. by exists "", s.
    + rewrite IH. split.
      * intros (a & b & ->). by exists (String d a), b.
      * intros ([|x a] & b & H).
        -- change ("" +:+ String c b) with (String c b) in H. congruence.
        -- rewrite append_cons in H. injection H as -> ->. by exists a, b.
Qed.

(** For an extension without slashes the glob says: the path ends with the
    dot and the extension, and a slash occurs in it. *)
Lemma fnmatch_ext_endswith X name :
  Fnmatch.plain X ->
  Fnmatch.fnmatch name ("**/*." +:+ X) = true <->
  Py.contains_char name "/" = true /\ Py.endswith name ("." +:+ X) = true.
Proof.
  intros HX. rewrite (fnmatch_ext X name HX).
  rewrite contains_char_spec, endswith_spec. split.
  - intros (a & b & ->). split.
    + by exists a, (b +:+ "." +:+ X).
    + exists (a +:+ "/" +:+ b). by rewrite !append_assoc.
  - intros [Hslash (front & ->)].
    assert (Hc : Py.contains_char (front +:+ "." +:+ X) "/" = true)
      by by apply contains_char_spec.
    rewrite contains_char_app in Hc.
    destruct HX as (_ & _ & _ & HX).
    change ("." +:+ X) with (String "." X) in Hc. simpl in Hc.
    rewrite HX, orb_false_r in Hc.
    apply contains_char_spec in Hc as (a & b & ->).
    exists a, b. by rewrite !append_assoc.
Qed.

End Glob.

Section ListFiles.

Lemma filter_sublist {A} (f : A -> bool) l : List.filter f l `sublist_of` l.
Proof.
  induction l as [|x l IH]; simpl; [constructor|].
  destruct (f x); by constructor.
Qed.

Lemma StronglySorted_sublist {A} (R : relation A) l1 l2 :
  l1 `sublist_of` l2 -> StronglySorted R l2 -> StronglySorted R l1.
Proof.
  induction 1 as [|x l1 l2 Hsub IH|x l1 l2 Hsub IH]; intros Hs.
  - constructor.
  - apply StronglySorted_inv in Hs as [Hs Hx]. constructor; [by apply IH|].
    apply Forall_forall. intros y Hy.
    eapply Forall_forall in Hx; [exact Hx|]. by eapply elem_of_sublist.
  - apply StronglySorted_inv in Hs as [Hs _]. by apply IH.
Qed.

#[local] Instance path_le_trans : Transitive Shell.path_le.
Proof. intros x y z. unfold Shell.path_le. apply transitivity. Qed.

#[local] Instance path_le_total : Total Shell.path_le.
Proof. intros x y. unfold Shell.path_le. apply total, _. Qed.

(** The rows of a repository come back in path order. *)
Lemma fetch_by_path_sorted files repo_id :
  StronglySorted Shell.path_le (Shell.fetch_by_path files repo_id).
Proof. unfold Shell.fetch_by_path. apply StronglySorted_merge_sort; apply _. Qed.

Lemma fetch_by_path_elem files repo_id r :
  r ∈ Shell.fetch_by_path files repo_id <->
  r ∈ files /\ File.repo_id r = repo_id.
Proof.
  unfold Shell.fetch_by_path. rewrite merge_sort_Permutation.
  rewrite !list_elem_of_In, filter_In. unfold Shell.of_repo.
  by rewrite String.eqb_eq.
Qed.

Lemma glob_matched_elem files repo_id pat r :
  r ∈ Shell.glob_matched files repo_id pat <->
  r ∈ files /\ File.repo_id r = repo_id /\
  Fnmatch.fnmatch (File.path r) pat = true.
Proof.
  unfold Shell.glob_matched.
  rewrite list_elem_of_In, filter_In, <- list_elem_of_In.
  rewrite fetch_by_path_elem. tauto.
Qed.

Lemma rstrip_slash_free s :
  Py.contains_char s "/" = false -> Py.rstrip "/" s = s.
Proof.
  induction s as [|c s IH]; [done|]. rewrite contains_char_cons.
  destruct (Ascii.eqb "/" c) eqn:Hc; [done|]. intros Hs. simpl.
  rewrite (IH Hs). destruct s; [|done].
  by rewrite (Ascii.eqb_sym c "/"), Hc.
Qed.

(** The pattern for an extension is left alone by [strip("/")]. *)
Lemma strip_ext_pattern X :
  Fnmatch.plain X -> Py.strip "/" ("**/*." +:+ X) = "**/*." +:+ X.
Proof.
  intros (_ & _ & _ & HX). unfold Py.strip.
  change (Py.lstrip "/" ("**/*." +:+ X)) with ("**/*." +:+ X).
  change ("**/*." +:+ X)
    with (String "*" (String "*" (String "/" (String "*" (String "." X))))).
  assert (Hdot : Py.rstrip "/" (String "." X) = String "." X).
  { apply rstrip_slash_free. by rewrite contains_char_cons. }
  cbn [Py.rstrip]. cbn [Py.rstrip] in Hdot. by rewrite Hdot.
Qed.

(** C1, as the code has it: for an extension X without glob
    metacharacters or slashes, [list_files] with the glob [**/*.X] prints,
    in path order and directories with a trailing slash, the first 200 of
    the matched rows of the repository (and a count of the others); among
    the rows whose path contains a slash the matched ones are exactly those
    whose path ends with [.X] as written, directories and files alike. *)
Theorem list_files_glob_extension files repo_id X :
  Fnmatch.plain X ->
  let pat := "**/*." +:+ X in
  let matched := Shell.glob_matched files repo_id pat in
  (forall r, Py.contains_char (File.path r) "/" = true ->
     (r ∈ matched <->
      r ∈ files /\ File.repo_id r = repo_id /\
      Py.endswith (File.path r) ("." +:+ X) = true)) /\
  StronglySorted Shell.path_le matched /\
  Shell.list_files files repo_id pat =
    match matched with
    | [] => "No files matching: " +:+ pat
    | _ :: _ =>
        Py.join Shell.nl
          ((Shell.glob_entry <$> take 200 matched) ++
           (if (200 <? length matched)%nat
            then [Shell.nl +:+ "... " +:+
                  Py.str (Z.of_nat (length matched - 200)) +:+
                  " more results. Narrow your glob."]
            else []))
    end.
Proof.
  intros HX pat matched. split; [|split].
  - intros r Hslash. subst matched. rewrite glob_matched_elem.
    subst pat. rewrite (fnmatch_ext_endswith X _ HX). tauto.
  - eapply StronglySorted_sublist; [apply filter_sublist|].
    apply fetch_by_path_sorted.
  - unfold Shell.list_files. fold pat. subst pat.
    rewrite (strip_ext_pattern X HX).
    change (String.eqb ("**/*." +:+ X) ".") with false. cbv iota.
    change (Py.contains_char ("**/*." +:+ X) "*") with true.
    cbv beta iota zeta. rewrite orb_true_l. cbv iota.
    fold matched. destruct matched as [|r rest] eqn:Hm; [done|].
    unfold Shell.MAX_LIST_RESULTS.
    destruct (200 <? length (r :: rest))%nat; [done|].
    by rewrite app_nil_r.
Qed.

Lemma list_files_glob_extension_witness :
  Shell.list_files Examples.scenario_repo "r1" "**/*.py" =
  "src/a.py" +:+ Shell.nl +:+ "src/b/c.py".
Proof.
  pose proof (list_files_glob_extension Examples.scenario_repo "r1" "py"
                ltac:(repeat split)) as (_ & _ & Hout).
  exact Hout.
Defined.

(** C1, as stated, fails: the glob [**/*.d] lists the directory
    [etc/conf.d], which is not a file row and has no extension. *)
Lemma list_files_glob_lists_directory :
  Shell.list_files Examples.conf_repo "r1" "**/*.d" = "etc/conf.d/" /\
  ~ (forall r,
       r ∈ Shell.glob_matched Examples.conf_repo "r1" "**/*.d" <->
       r ∈ Examples.conf_repo /\ File.repo_id r = "r1" /\
       File.extension r = Some ".d" /\ File.is_directory r = false).
Proof.
  split; [vm_compute; reflexivity|].
  intros H.
  destruct (H (File.Row "r1" "etc/conf.d" "conf.d" None "etc" 2 true None))
    as [Hdir _].
  assert (Hin : File.Row "r1" "etc/conf.d" "conf.d" None "etc" 2 true None
                ∈ Shell.glob_matched Examples.conf_repo "r1" "**/*.d").
  { apply glob_matched_elem. split; [|done].
    apply list_elem_of_In. simpl. tauto. }
  destruct (Hdir Hin) as (_ & _ & Hext & _). discriminate Hext.
Qed.

End ListFiles.

(** ** Ingestion *)

Section IngestionFacts.

Lemma dir_record_ok repo_id rel_dir :
  Forall Ingestion.content_matches_kind (Ingestion.dir_record repo_id rel_dir).
Proof. destruct rel_dir; repeat constructor. Qed.

Lemma file_record_ok MAX repo_id rel_dir filename st_size text :
  Forall Ingestion.content_matches_kind
         (Ingestion.file_record MAX repo_id rel_dir filename st_size text).
Proof.
  unfold Ingestion.file_record.
  repeat match goal with
         | |- context [if ?b then _ else _] => destruct b
         | |- context [match ?o with Some _ => _ | None => _ end] => destruct o
         | |- Forall _ [] => constructor
         end; repeat constructor; done.
Qed.

#[local] Arguments Ingestion.member : simpl never.

Lemma walk_ok MAX repo_id n :
  forall rel_dir,
    Forall Ingestion.content_matches_kind (Ingestion.walk MAX repo_id rel_dir n).
Proof.
  induction n as [st_size text|entries IH] using Ingestion.node_induction;
    intros rel_dir; simpl; [constructor|].
  apply Forall_app. split; [apply dir_record_ok|].
  apply Forall_app. split.
  - clear IH. induction entries as [|[filename [st_size text|sub]] es IHes];
      [constructor| |exact IHes].
    apply Forall_app. split; [apply file_record_ok|exact IHes].
  - induction IH as [|[d [st_size text|sub]] es Hd Hes IHes];
      [constructor|exact IHes|].
    apply Forall_app. split; [|exact IHes].
    destruct (Ingestion.member d Ingestion.SKIP_DIRS); [constructor|].
    apply Hd.
Qed.

Lemma file_record_inv MAX repo_id rel_dir filename st_size text r :
  r ∈ Ingestion.file_record MAX repo_id rel_dir filename st_size text ->
  exists size content,
    st_size = Some size /\ text = Some content /\ size <= MAX /\
    File.is_directory r = false /\
    File.path r = Ingestion.path_str (rel_dir ++ [filename]) /\
    File.content r = Some content.
Proof.
  unfold Ingestion.file_record.
  destruct (Ingestion.member filename _); [by intros ?%elem_of_nil|].
  destruct (Ingestion.member _ Ingestion.SKIP_EXTENSIONS);
    [by intros ?%elem_of_nil|].
  destruct st_size as [size|]; [|by intros ?%elem_of_nil].
  destruct (Z.ltb_spec MAX size); [by intros ?%elem_of_nil|].
  destruct text as [content|]; [|by intros ?%elem_of_nil].
  intros ->%list_elem_of_singleton. by exists size, content.
Qed.

(** Every file record of the walk is the record of a regular file of the
    tree, found at the record's path, whose size is within the cap and whose
    bytes decode to the record's content. *)
Lemma walk_files MAX repo_id n :
  forall rel_dir r,
    r ∈ Ingestion.walk MAX repo_id rel_dir n ->
    File.is_directory r = false ->
    exists parts size content,
      Ingestion.file_at n parts (Some size) (Some content) /\
      size <= MAX /\
      File.path r = Ingestion.path_str (rel_dir ++ parts) /\
      File.content r = Some content.
Proof.
  induction n as [st_size text|entries IH] using Ingestion.node_induction;
    intros rel_dir r; simpl; [by intros ?%elem_of_nil|].
  rewrite !elem_of_app. intros [Hr|[Hr|Hr]] Hfile.
  - destruct rel_dir; [by apply elem_of_nil in Hr|].
    apply list_elem_of_singleton in Hr. by subst r.
  - clear IH.
    match type of Hr with _ ∈ ?f entries => set (files := f) in * end.
    assert (Hgen : forall es, (forall e, e ∈ es -> e ∈ entries) ->
                   r ∈ files es ->
                   exists parts size content,
                     Ingestion.file_at (Ingestion.Directory entries) parts
                                       (Some size) (Some content) /\
                     size <= MAX /\
                     File.path r = Ingestion.path_str (rel_dir ++ parts) /\
                     File.content r = Some content);
      [|by apply (Hgen entries)].
    induction es as [|[filename [st_size text|sub]] es IHes]; intros Hsub Hes.
    + by apply elem_of_nil in Hes.
    + unfold files in Hes. cbn in Hes. fold files in Hes.
      apply elem_of_app in Hes as [Hes|Hes].
      * apply file_record_inv in Hes
          as (size & content & -> & -> & Hsize & _ & Hpath & Hcontent).
        exists [filename], size, content. repeat split; [|done..].
        constructor. apply Hsub. by left.
      * apply IHes; [|done]. intros e He. apply Hsub. by right.
    + unfold files in Hes. cbn in Hes. fold files in Hes.
      apply IHes; [|done]. intros e He. apply Hsub. by right.
  - match type of Hr with _ ∈ ?f entries => set (dirs := f) in * end.
    assert (Hgen : forall es,
                   Forall (fun e : string * Ingestion.node =>
                             forall rel_dir r,
                               r ∈ Ingestion.walk MAX repo_id rel_dir e.2 ->
                               File.is_directory r = false ->
                               exists parts size content,
                                 Ingestion.file_at e.2 parts (Some size)
                                                   (Some content) /\
                                 size <= MAX /\
                                 File.path r
                                   = Ingestion.path_str (rel_dir ++ parts) /\
                                 File.content r = Some content) es ->
                   (forall e, e ∈ es -> e ∈ entries) ->
                   r ∈ dirs es ->
                   exists parts size content,
                     Ingestion.file_at (Ingestion.Directory entries) parts
                                       (Some size) (Some content) /\
                     size <= MAX /\
                     File.path r = Ingestion.path_str (rel_dir ++ parts) /\
                     File.content r = Some content);
      [|by apply (Hgen entries)].
    clear IH Hr.
    induction 1 as [|[d [st_size text|sub]] es Hd _ IHes]; intros Hsub Hes.
    + by apply elem_of_nil in Hes.
    + unfold dirs in Hes. cbn in Hes. fold dirs in Hes.
      apply IHes; [|done]. intros e He. apply Hsub. by right.
    + unfold dirs in Hes. cbn in Hes. fold dirs in Hes.
      apply elem_of_app in Hes as [Hes|Hes].
      * destruct (Ingestion.member d Ingestion.SKIP_DIRS);
          [by apply elem_of_nil in Hes|].
        destruct (Hd (rel_dir ++ [d]) r Hes Hfile)
          as (parts & size & content & Hat & Hsize & Hpath & Hcontent).
        exists (d :: parts), size, content. repeat split; [|done| |done].
        -- eapply Ingestion.file_below; [|exact Hat]. apply Hsub. by left.
        -- by rewrite Hpath, <- app_assoc.
      * apply IHes; [|done]. intros e He. apply Hsub. by right.
Qed.

(** C7: every record of the ingestion walk has null content when it is a
    directory and non-null content when it is a file; every file record is
    that of a regular file of the tree whose size is within the cap and
    whose bytes decode, with the decoded text as content; and the loop over
    the files of a directory appends no record at all for a file whose size
    cannot be read or exceeds the cap, or whose bytes do not decode. *)
Theorem collect_records_content MAX_FILE_SIZE repo_id :
  (forall clone r,
      r ∈ Ingestion._collect_file_records MAX_FILE_SIZE repo_id clone ->
      (File.is_directory r = true -> File.content r = None) /\
      (File.is_directory r = false -> File.content r <> None)) /\
  (forall clone r,
      r ∈ Ingestion._collect_file_records MAX_FILE_SIZE repo_id clone ->
      File.is_directory r = false ->
      exists parts size content,
        Ingestion.file_at clone parts (Some size) (Some content) /\
        size <= MAX_FILE_SIZE /\
        File.path r = Ingestion.path_str parts /\
        File.content r = Some content) /\
  (forall rel_dir filename st_size text,
      st_size = None \/
      (exists size, st_size = Some size /\ MAX_FILE_SIZE < size) \/
      text = None ->
      Ingestion.file_record MAX_FILE_SIZE repo_id rel_dir filename st_size text
      = []).
Proof.
  split; [|split].
  - intros clone r Hr.
    pose proof (walk_ok MAX_FILE_SIZE repo_id clone []) as Hall.
    eapply Forall_forall in Hall; [|exact Hr].
    unfold Ingestion.content_matches_kind in Hall.
    destruct (File.is_directory r); split; done.
  - intros clone r Hr Hfile.
    by apply (walk_files MAX_FILE_SIZE repo_id clone []).
  - intros rel_dir filename st_size text Hskip.
    unfold Ingestion.file_record.
    destruct (Ingestion.member filename Ingestion.SKIP_FILENAMES); [done|].
    destruct (Ingestion.member _ Ingestion.SKIP_EXTENSIONS); [done|].
    destruct Hskip as [-> | [(size & -> & Hbig) | ->]]; [done| |].
    + by apply Z.ltb_lt in Hbig as ->.
    + destruct st_size as [size|]; [|done].
      by destruct (MAX_FILE_SIZE <? size).
Qed.

Lemma collect_records_content_witness :
  Ingestion.file_record 512000 "r1" ["src"] "dump.sql" (Some 900000)
                        (Some "--") = [].
Proof.
  apply (proj2 (proj2 (collect_records_content 512000 "r1"))).
  right. left. exists 900000. split; [reflexivity|lia].
Defined.

(** C2, at the failing input: the URL has a row in status [error], none in
    status [ready], and [ingest_repo] still answers [already_exists] with
    that row's id, whatever the clone would give, and changes nothing. *)
Theorem ingest_repo_dedup_ignores_status :
  forall clone repo_id,
    Ingestion.ingest_repo 512000 Examples.failed_db Examples.hello_url
                          repo_id clone
    = (Examples.failed_db, Return (Ingestion.already_exists "r0")).
Proof. intros clone repo_id. reflexivity. Qed.

(** The dedup check looks at the URL alone: any row with the URL, in any
    status, short-circuits the ingestion. *)
Lemma ingest_repo_dedup_any_status MAX d url repo_id clone existing :
  List.find (fun r => String.eqb (Ingestion.url r) url) (Ingestion.repos d)
    = Some existing ->
  Ingestion.ingest_repo MAX d url repo_id clone
  = (d, Return (Ingestion.already_exists (Ingestion.id existing))).
Proof. intros H. unfold Ingestion.ingest_repo. by rewrite H. Qed.

End IngestionFacts.

(** ** The job queue *)

Section JobQueueFacts.

Variable now : string.
Variable execute : string -> JobQueue.db -> JobQueue.db * outcome unit.

Lemma complete_job_lookup job_id d :
  JobQueue.jobs (JobQueue._complete_job now job_id d) !! job_id =
  (fun j => JobQueue.Job (JobQueue.wiki_id j) "completed" (JobQueue.attempts j)
              (JobQueue.max_attempts j) (JobQueue.error_message j) (Some now))
    <$> JobQueue.jobs d !! job_id.
Proof. unfold JobQueue._complete_job. simpl. apply lookup_alter_eq. Qed.

Lemma fail_job_retry job_id error attempts max_attempts d :
  attempts < max_attempts ->
  JobQueue._fail_job now job_id error attempts max_attempts d =
  JobQueue.Db
    (alter (fun j => JobQueue.Job (JobQueue.wiki_id j) "queued"
                       (JobQueue.attempts j) (JobQueue.max_attempts j)
                       (Some error) (JobQueue.completed_at j))
           job_id (JobQueue.jobs d))
    (JobQueue.wikis d).
Proof.
  intros Hlt. unfold JobQueue._fail_job.
  by apply Z.ltb_lt in Hlt as ->.
Qed.

Lemma fail_job_final job_id error attempts max_attempts d row :
  ~ attempts < max_attempts ->
  JobQueue.jobs d !! job_id = Some row ->
  JobQueue._fail_job now job_id error attempts max_attempts d =
  JobQueue.Db
    (<[job_id := JobQueue.Job (JobQueue.wiki_id row) "failed"
                   (JobQueue.attempts row) (JobQueue.max_attempts row)
                   (Some error) (Some now)]> (JobQueue.jobs d))
    (alter (fun _ => JobQueue.Wiki "failed" (Some error))
           (JobQueue.wiki_id row) (JobQueue.wikis d)).
Proof.
  intros Hge Hrow. unfold JobQueue._fail_job.
  apply Z.ltb_nlt in Hge as ->.
  rewrite lookup_alter_eq, Hrow. simpl. f_equal.
  apply map_eq. intros k. destruct (decide (k = job_id)) as [->|Hne].
  - by rewrite lookup_alter_eq, lookup_insert_eq, Hrow.
  - by rewrite lookup_alter_ne, lookup_insert_ne.
Qed.

(** C5: when the pipeline of a claimed job raises, the job goes back to
    [queued] if the claimed row's attempts are below its max_attempts;
    otherwise the job becomes [failed] with the error message and its wiki
    becomes [failed] with that same message; when the pipeline returns, the
    job becomes [completed].  [d'] is the store the pipeline leaves, in
    which the job's row and (for the wiki part) its wiki's row exist. *)
Theorem run_job_outcome job_id claimed d d' r row :
  execute (JobQueue.wiki_id claimed) d = (d', r) ->
  JobQueue.jobs d' !! job_id = Some row ->
  let final := JobQueue._run_job now execute job_id claimed d in
  match r with
  | Return _ =>
      JobQueue.status <$> JobQueue.jobs final !! job_id = Some "completed"
  | Raise e =>
      (JobQueue.attempts claimed < JobQueue.max_attempts claimed ->
       JobQueue.status <$> JobQueue.jobs final !! job_id = Some "queued") /\
      (~ JobQueue.attempts claimed < JobQueue.max_attempts claimed ->
       JobQueue.status <$> JobQueue.jobs final !! job_id = Some "failed" /\
       JobQueue.error_message <$> JobQueue.jobs final !! job_id
         = Some (Some e) /\
       (is_Some (JobQueue.wikis d' !! JobQueue.wiki_id row) ->
        JobQueue.wikis final !! JobQueue.wiki_id row
          = Some (JobQueue.Wiki "failed" (Some e))))
  end.
Proof.
  intros Hexec Hrow final. subst final. unfold JobQueue._run_job.
  rewrite Hexec. destruct r as [[]|e].
  - by rewrite complete_job_lookup, Hrow.
  - split.
    + intros Hlt. rewrite fail_job_retry by done. simpl.
      by rewrite lookup_alter_eq, Hrow.
    + intros Hge. rewrite (fail_job_final _ _ _ _ _ row) by done. simpl.
      rewrite lookup_insert_eq. repeat split.
      intros [w Hw]. by rewrite lookup_alter_eq, Hw.
Qed.

End JobQueueFacts.

Lemma run_job_outcome_witness :
  let final :=
    JobQueue._run_job "2026-01-01 00:00:00" Examples.failing_pipeline "j1"
                      Examples.last_attempt_job Examples.job_db in
  JobQueue.status <$> JobQueue.jobs final !! "j1" = Some "failed" /\
  JobQueue.wikis final !! "w1"
    = Some (JobQueue.Wiki "failed" (Some "git clone failed")).
Proof.
  pose proof (run_job_outcome "2026-01-01 00:00:00" Examples.failing_pipeline
                "j1" Examples.last_attempt_job Examples.job_db
                Examples.job_db (Raise "git clone failed")
                Examples.last_attempt_job eq_refl eq_refl) as [_ Hfinal].
  destruct (Hfinal ltac:(simpl; lia)) as (Hstatus & _ & Hwiki).
  split; [exact Hstatus|].
  apply Hwiki. by eexists.
Defined.

(** ** The agent loop *)

Section AgentFacts.

Context {json : Type}.
Variable json_loads : string -> option json.
Variable empty_object : json.
Variable execute_tool : option string -> json -> outcome string.
Variable create : list Agent.message -> outcome Agent.stream.
Variable SYSTEM_PROMPT : string.

#[local] Abbreviation gen := (Agent.gen (json := json)).
#[local] Abbreviation action := (Agent.action (json := json)).
#[local] Abbreviation react :=
  (Agent.react json_loads empty_object execute_tool create).
#[local] Abbreviation run_tools :=
  (Agent.run_tools json_loads empty_object execute_tool).
#[local] Abbreviation run_agent :=
  (Agent.run_agent json_loads empty_object execute_tool create SYSTEM_PROMPT).
#[local] Abbreviation turn_raises :=
  (Agent.turn_raises json_loads empty_object execute_tool create).
#[local] Abbreviation turn_continues :=
  (Agent.turn_continues json_loads empty_object execute_tool create).
#[local] Abbreviation raises_within :=
  (Agent.raises_within json_loads empty_object execute_tool create).
#[local] Abbreviation returns :=
  (Agent.returns json_loads empty_object execute_tool).

Lemma bind_fst {A B} (m : gen A) (k : A -> gen B) :
  (Agent.bind m k).1 =
  m.1 ++ match m.2 with Return a => (k a).1 | Raise _ => [] end.
Proof.
  destruct m as [t [a|e]]; simpl; [|by rewrite app_nil_r].
  by destruct (k a).
Qed.

Lemma bind_snd {A B} (m : gen A) (k : A -> gen B) :
  (Agent.bind m k).2 =
  match m.2 with Return a => (k a).2 | Raise e => Raise e end.
Proof. destruct m as [t [a|e]]; simpl; [|done]. by destruct (k a). Qed.

Lemma on_chunk_trace acc c :
  Forall (fun a => Agent.quiet a /\ Agent.local a) (Agent.on_chunk (json := json) acc c).1.
Proof.
  unfold Agent.on_chunk. destruct c as [|d _]; [constructor|].
  unfold mbind, Agent.gen_bind. rewrite bind_fst. simpl.
  destruct (match Agent.tool_calls d with
            | Some tcs => Agent.accumulate_all acc tcs
            | None => Return acc
            end) as [acc'|e]; [|constructor].
  destruct (Agent.content d) as [[|ch text]|]; repeat constructor.
Qed.

Lemma consume_trace acc cs :
  Forall (fun a => Agent.quiet a /\ Agent.local a) (Agent.consume (json := json) acc cs).1.
Proof.
  revert acc. induction cs as [|c cs IH]; intros acc; simpl; [constructor|].
  unfold mbind, Agent.gen_bind. rewrite bind_fst.
  apply Forall_app. split; [apply on_chunk_trace|].
  destruct (Agent.on_chunk acc c).2; [apply IH|constructor].
Qed.

Lemma consume_stream_trace s :
  Forall (fun a => Agent.quiet a /\ Agent.local a) (Agent.consume_stream (json := json) s).1.
Proof.
  unfold Agent.consume_stream, mbind, Agent.gen_bind. rewrite bind_fst.
  apply Forall_app. split; [apply consume_trace|].
  destruct (Agent.consume ∅ (Agent.chunks s)).2; [|constructor].
  destruct (Agent.failure s); constructor.
Qed.

(** One tool call of a turn, spelled out. *)
Lemma run_tools_cons tc calls messages :
  run_tools (tc :: calls) messages =
  let arguments :=
    default empty_object (json_loads (Agent.arguments_str tc)) in
  Agent.bind (Agent.yield (Agent.tool_start (Agent.name tc) arguments))
    (fun _ =>
  Agent.bind (Agent.lift (execute_tool (Agent.name tc) arguments))
    (fun result =>
  Agent.bind (Agent.yield (Agent.tool_end (Agent.name tc)))
    (fun _ =>
  run_tools calls (messages ++ [Agent.tool_message (Agent.id tc) result])))).
Proof. reflexivity. Qed.

Lemma run_tools_trace calls messages :
  Forall (fun a => Agent.quiet a /\ Agent.local a) (run_tools calls messages).1.
Proof.
  revert messages. induction calls as [|tc calls IH]; intros messages;
    [constructor|].
  rewrite run_tools_cons. cbv zeta. rewrite bind_fst.
  apply Forall_app. split; [by repeat constructor|]. cbn [snd Agent.yield].
  rewrite bind_fst. cbn [fst snd Agent.lift app].
  destruct (execute_tool _ _) as [result|e]; [|constructor].
  rewrite bind_fst. apply Forall_app. split; [by repeat constructor|].
  apply IH.
Qed.

(** One turn of the loop, spelled out. *)
Lemma react_step n messages :
  react (S n) messages =
  Agent.bind (Agent.request create messages) (fun s =>
  Agent.bind (Agent.consume_stream s) (fun acc =>
  match Agent.in_index_order acc with
  | [] => Agent.yield Agent.done
  | tc :: tcs =>
      Agent.bind
        (run_tools (tc :: tcs)
                   (messages ++ [Agent.assistant_tool_calls (tc :: tcs)]))
        (react n)
  end)).
Proof. reflexivity. Qed.

Lemma requests_app {A B} (t1 t2 : list action) (o1 : outcome A)
    (o2 : outcome B) :
  Agent.requests (json := json) (t1 ++ t2, o2) =
  Agent.requests (t1, o1) ++ Agent.requests (t2, o2).
Proof. unfold Agent.requests. simpl. apply omap_app. Qed.

Lemma yields_app {A B} (t1 t2 : list action) (o1 : outcome A)
    (o2 : outcome B) :
  Agent.yields (json := json) (t1 ++ t2, o2) =
  Agent.yields (t1, o1) ++ Agent.yields (t2, o2).
Proof. unfold Agent.yields. simpl. apply omap_app. Qed.

Lemma local_requests {A} (t : list action) (o : outcome A) :
  Forall (fun a => Agent.quiet a /\ Agent.local a) t ->
  Agent.requests (json := json) (t, o) = [].
Proof.
  unfold Agent.requests. simpl. induction 1 as [|a t [_ Ha] _ IH]; [done|].
  simpl. destruct a; [|done]. exact IH.
Qed.

Lemma quiet_yields {A} (t : list action) (o : outcome A) :
  Forall Agent.quiet t ->
  Forall (fun e => e <> Agent.done /\ forall msg, e <> Agent.error msg)
         (Agent.yields (json := json) (t, o)).
Proof.
  unfold Agent.yields. simpl. induction 1 as [|a t Ha _ IH]; [constructor|].
  destruct a as [e|?]; simpl; [|exact IH].
  constructor; [|exact IH]. destruct e; simpl in Ha; done.
Qed.

Lemma bind_return {A B} (t : list action) (a : A) (k : A -> gen B) :
  Agent.bind (t, Return a) k = (t ++ (k a).1, (k a).2).
Proof. simpl. by destruct (k a). Qed.

Lemma bind_quiet {A B} (m : gen A) (k : A -> gen B) e :
  (Agent.bind m k).2 = Raise e ->
  Forall Agent.quiet m.1 ->
  (forall a, m.2 = Return a -> (k a).2 = Raise e -> Forall Agent.quiet (k a).1) ->
  Forall Agent.quiet (Agent.bind m k).1.
Proof.
  rewrite bind_fst, bind_snd. intros Hr Hm Hk.
  apply Forall_app. split; [done|].
  destruct m.2 as [a|e']; [by apply Hk|constructor].
Qed.

Lemma quiet_local_quiet (t : list action) :
  Forall (fun a => Agent.quiet a /\ Agent.local a) t -> Forall Agent.quiet t.
Proof. intros H. eapply Forall_impl; [exact H|]. by intros a [Ha _]. Qed.

(** A run that raises has yielded neither [done] nor [error]. *)
Lemma react_raise_quiet n messages e :
  (react n messages).2 = Raise e -> Forall Agent.quiet (react n messages).1.
Proof.
  revert messages. induction n as [|n IH]; intros messages; [done|].
  rewrite react_step. intros Hraise.
  apply (bind_quiet _ _ e Hraise); [by repeat constructor|].
  intros s _ Hs.
  apply (bind_quiet _ _ e Hs);
    [apply quiet_local_quiet, consume_stream_trace|].
  intros acc _ Hacc.
  destruct (Agent.in_index_order acc) as [|tc tcs]; [done|].
  apply (bind_quiet _ _ e Hacc);
    [apply quiet_local_quiet, run_tools_trace|].
  intros messages' _. apply IH.
Qed.

(** An exception of the provider call, of the stream or of a tool in the
    turn that is running ends the run with that exception. *)
Lemma react_request_raises n messages e :
  create messages = Raise e -> (react (S n) messages).2 = Raise e.
Proof.
  intros H. rewrite react_step, bind_snd. unfold Agent.request. simpl.
  by rewrite H.
Qed.

Lemma react_stream_raises n messages s e :
  create messages = Return s ->
  (Agent.consume_stream (json := json) s).2 = Raise e ->
  (react (S n) messages).2 = Raise e.
Proof.
  intros Hc Hs. rewrite react_step, bind_snd. unfold Agent.request.
  cbn [snd]. rewrite Hc, bind_snd. by rewrite Hs.
Qed.

Lemma react_tool_raises n messages s acc tc tcs e :
  create messages = Return s ->
  (Agent.consume_stream (json := json) s).2 = Return acc ->
  Agent.in_index_order acc = tc :: tcs ->
  (run_tools (tc :: tcs)
             (messages ++ [Agent.assistant_tool_calls (tc :: tcs)])).2
    = Raise e ->
  (react (S n) messages).2 = Raise e.
Proof.
  intros Hc Hs Hacc Ht. rewrite react_step, bind_snd. unfold Agent.request.
  cbn [snd]. rewrite Hc, bind_snd, Hs, Hacc, bind_snd. by rewrite Ht.
Qed.

(** The stream, spelled out: its chunks, then its end or its failure. *)
Lemma consume_stream_unfold s :
  Agent.consume_stream (json := json) s =
  Agent.bind (Agent.consume ∅ (Agent.chunks s))
    (fun acc => match Agent.failure s with
                | None => Agent.ret acc
                | Some e => Agent.raise e
                end).
Proof. reflexivity. Qed.

Lemma consume_app acc cs1 cs2 :
  Agent.consume (json := json) acc (cs1 ++ cs2) =
  Agent.bind (Agent.consume acc cs1) (fun acc' => Agent.consume acc' cs2).
Proof.
  revert acc. induction cs1 as [|c cs1 IH]; intros acc.
  - cbn [app Agent.consume]. unfold Agent.ret.
    rewrite bind_return. cbn [app]. by destruct (Agent.consume acc cs2).
  - change (Agent.consume acc ((c :: cs1) ++ cs2))
      with (Agent.bind (Agent.on_chunk (json := json) acc c)
              (fun acc' => Agent.consume acc' (cs1 ++ cs2))).
    change (Agent.consume acc (c :: cs1))
      with (Agent.bind (Agent.on_chunk (json := json) acc c)
              (fun acc' => Agent.consume acc' cs1)).
    destruct (Agent.on_chunk acc c) as [t [acc'|e]]; [|reflexivity].
    rewrite !bind_return, IH. cbn [fst snd].
    destruct (Agent.consume acc' cs1) as [t1 [acc1|e]]; [|reflexivity].
    cbn [fst snd]. rewrite !bind_return. cbn [fst snd].
    by rewrite app_assoc.
Qed.

(** A stream whose chunks are consumed and that ends normally, or fails. *)
Lemma consume_stream_ends s t acc :
  Agent.consume (json := json) ∅ (Agent.chunks s) = (t, Return acc) ->
  Agent.consume_stream s =
  (t, match Agent.failure s with None => Return acc | Some e => Raise e end).
Proof.
  intros Hcons. rewrite consume_stream_unfold, Hcons, bind_return.
  destruct (Agent.failure s); cbn [fst snd Agent.raise Agent.ret];
    by rewrite app_nil_r.
Qed.

Lemma run_tools_prefix before results rest messages :
  Forall2 returns before results ->
  run_tools (before ++ rest) messages =
  (flat_map
     (fun tc : Agent.tool_call =>
        [Agent.Yield
           (Agent.tool_start (Agent.name tc)
              (default empty_object (json_loads (Agent.arguments_str tc))));
         Agent.Yield (Agent.tool_end (Agent.name tc))])
     before ++
     (run_tools rest
        (messages ++
         zip_with (fun (tc : Agent.tool_call) result =>
                     Agent.tool_message (Agent.id tc) result)
                  before results)).1,
   (run_tools rest
      (messages ++
       zip_with (fun (tc : Agent.tool_call) result =>
                   Agent.tool_message (Agent.id tc) result)
                before results)).2).
Proof.
  intros Hall. revert messages.
  induction Hall as [|tc result before results Hres _ IH]; intros messages.
  - cbn [app flat_map zip_with]. rewrite app_nil_r.
    by destruct (run_tools rest messages).
  - rewrite <- app_comm_cons, run_tools_cons. cbv zeta.
    unfold Agent.yield, Agent.lift. unfold Agent.returns, Agent.call_arguments in Hres.
    rewrite bind_return, Hres, bind_return, bind_return, IH.
    cbn [fst snd app flat_map zip_with]. by rewrite <- app_assoc.
Qed.

(** An exception raised in a turn ends the run with that exception. *)
Lemma turn_raises_react n messages e :
  turn_raises messages e -> (react (S n) messages).2 = Raise e.
Proof.
  intros [Hcreate
         |s t acc Hcreate Hcons Hfail
         |s before c after t acc Hcreate Hchunks Hcons Hchunk
         |s t acc before results tc after Hcreate Hcons Hend Hcalls Hbefore Htool].
  - by apply react_request_raises.
  - eapply react_stream_raises; [exact Hcreate|].
    by rewrite (consume_stream_ends _ _ _ Hcons), Hfail.
  - eapply react_stream_raises; [exact Hcreate|].
    rewrite consume_stream_unfold, bind_snd, Hchunks, consume_app, bind_snd.
    rewrite Hcons. cbn [snd].
    change (Agent.consume acc (c :: after))
      with (Agent.bind (Agent.on_chunk (json := json) acc c)
              (fun acc' => Agent.consume acc' after)).
    by rewrite bind_snd, Hchunk.
  - pose proof (consume_stream_ends _ _ _ Hcons) as Hstream.
    rewrite Hend in Hstream.
    assert (Hraise : forall messages0,
               (run_tools (before ++ tc :: after) messages0).2 = Raise e).
    { intros messages0. rewrite (run_tools_prefix _ _ _ _ Hbefore). cbn [snd].
      rewrite run_tools_cons. cbv zeta. unfold Agent.yield, Agent.lift.
      unfold Agent.call_arguments in Htool.
      by rewrite bind_return, Htool. }
    rewrite <- Hcalls in Hraise.
    destruct (Agent.in_index_order acc) as [|tc0 tcs] eqn:Hlist;
      [by destruct before|].
    eapply react_tool_raises; [exact Hcreate| |exact Hlist|apply Hraise].
    by rewrite Hstream.
Qed.

(** A turn that runs to its end hands over to the next one. *)
Lemma turn_continues_react n messages messages' :
  turn_continues messages messages' ->
  exists t,
    react (S n) messages =
    (Agent.Request messages :: t ++ (react n messages').1,
     (react n messages').2).
Proof.
  intros (s & t & acc & results & Hcreate & Hcons & Hend & Hcalls & Hres & ->).
  pose proof (consume_stream_ends _ _ _ Hcons) as Hstream.
  rewrite Hend in Hstream.
  pose proof (run_tools_prefix _ _ [] (messages ++ [Agent.assistant_tool_calls
                (Agent.in_index_order acc)]) Hres) as Htools.
  rewrite app_nil_r in Htools. cbn [Agent.run_tools Agent.ret fst snd] in Htools.
  rewrite app_nil_r in Htools.
  rewrite react_step. unfold Agent.request.
  rewrite Hcreate, bind_return, Hstream, bind_return. cbn [fst snd].
  destruct (Agent.in_index_order acc) as [|tc tcs] eqn:Horder; [done|].
  rewrite Htools, bind_return. cbn [fst snd].
  eexists. cbn [app]. rewrite app_assoc. reflexivity.
Qed.

Lemma raises_within_react n messages e :
  raises_within n messages e -> (react n messages).2 = Raise e.
Proof.
  induction 1 as [n messages e Hturn|n messages messages' e Hturn _ IH].
  - by apply turn_raises_react.
  - destruct (turn_continues_react n _ _ Hturn) as [t ->]. exact IH.
Qed.

(** C3: an exception raised in any turn of [run_agent], by the provider
    call, by the stream, by the handling of one of its chunks or by a tool
    (the turns before it, and in that turn the tool calls before it, having
    run to their end), ends the run with that exception; the event stream
    of the chat route is then the events yielded so far followed by one
    [error] event carrying the message, and nothing after it; none of the
    earlier events is [done] or [error]. *)
Theorem event_stream_surfaces_exception question history e :
  raises_within Agent.MAX_ITERATIONS
    ([Agent.chat "system" SYSTEM_PROMPT] ++ default [] history ++
     [Agent.chat "user" question]) e ->
  (run_agent question history).2 = Raise e /\
  Agent.event_stream (run_agent question history) =
    (Agent.Data <$> Agent.yields (run_agent question history)) ++
    [Agent.Data (Agent.error e)] /\
  Forall (fun ev => ev <> Agent.done /\ forall msg, ev <> Agent.error msg)
         (Agent.yields (run_agent question history)).
Proof.
  intros Hraises. apply raises_within_react in Hraises as Hraise.
  split; [exact Hraise|]. split.
  - unfold Agent.event_stream, Agent.run_agent. by rewrite Hraise.
  - unfold Agent.run_agent in *.
    apply react_raise_quiet in Hraise.
    destruct (react _ _) as [t o]. by apply quiet_yields.
Qed.

(** Conversely, a run raises only in one of these ways. *)
Lemma consume_raises_inv cs :
  forall acc e,
    (Agent.consume (json := json) acc cs).2 = Raise e ->
    exists before c after t acc',
      cs = before ++ c :: after /\
      Agent.consume (json := json) acc before = (t, Return acc') /\
      (Agent.on_chunk (json := json) acc' c).2 = Raise e.
Proof.
  induction cs as [|c cs IH]; intros acc e; [done|].
  change (Agent.consume acc (c :: cs))
    with (Agent.bind (Agent.on_chunk (json := json) acc c)
            (fun acc' => Agent.consume acc' cs)).
  rewrite bind_snd.
  destruct (Agent.on_chunk acc c) as [t0 [acc0|e0]] eqn:Hchunk; cbn [snd].
  - intros (before & c' & after & t & acc' & -> & Hcons & Hraise)%IH.
    exists (c :: before), c', after, (t0 ++ t), acc'. split; [done|].
    split; [|done].
    change (Agent.consume acc (c :: before))
      with (Agent.bind (Agent.on_chunk (json := json) acc c)
              (fun acc' => Agent.consume acc' before)).
    by rewrite Hchunk, bind_return, Hcons.
  - intros [= ->]. exists [], c, cs, [], acc. split; [done|].
    split; [done|]. by rewrite Hchunk.
Qed.

Lemma run_tools_inv calls :
  forall messages,
    match (run_tools calls messages).2 with
    | Return messages' =>
        exists results,
          Forall2 returns calls results /\
          messages' =
            messages ++
            zip_with (fun (tc : Agent.tool_call) result =>
                        Agent.tool_message (Agent.id tc) result)
                     calls results
    | Raise e =>
        exists before results tc after,
          calls = before ++ tc :: after /\
          Forall2 returns before results /\
          execute_tool (Agent.name tc)
            (Agent.call_arguments json_loads empty_object tc) = Raise e
    end.
Proof.
  induction calls as [|tc calls IH]; intros messages.
  - exists []. split; [constructor|]. cbn. by rewrite app_nil_r.
  - rewrite run_tools_cons. cbv zeta. unfold Agent.yield, Agent.lift.
    rewrite bind_return. cbn [fst snd].
    destruct (execute_tool (Agent.name tc)
                (default empty_object (json_loads (Agent.arguments_str tc))))
      as [result|e] eqn:Htool.
    + rewrite bind_return, bind_return. cbn [fst snd].
      specialize (IH (messages ++ [Agent.tool_message (Agent.id tc) result])).
      destruct (run_tools calls _).2 as [messages'|e].
      * destruct IH as (results & Hall & ->). exists (result :: results).
        split; [by constructor|]. cbn [zip_with]. by rewrite <- app_assoc.
      * destruct IH as (before & results & tc' & after & -> & Hall & Hraise).
        exists (tc :: before), (result :: results), tc', after.
        split; [done|]. split; [by constructor|done].
    + cbn [Agent.bind snd]. exists [], [], tc, calls.
      split; [done|]. split; [constructor|done].
Qed.

Lemma react_raises_inv n :
  forall messages e,
    (react n messages).2 = Raise e -> raises_within n messages e.
Proof.
  induction n as [|n IH]; intros messages e; [done|].
  rewrite react_step, bind_snd. unfold Agent.request. cbn [snd].
  destruct (create messages) as [s|e0] eqn:Hcreate;
    [|intros [= ->]; by apply Agent.raises_now, Agent.provider_raises].
  rewrite bind_snd, consume_stream_unfold, bind_snd.
  destruct (Agent.consume ∅ (Agent.chunks s)) as [t [acc|e0]] eqn:Hcons;
    cbn [snd].
  - destruct (Agent.failure s) as [e0|] eqn:Hend.
    + cbn [snd Agent.raise]. intros [= ->].
      by eapply Agent.raises_now, Agent.stream_raises.
    + cbn [snd Agent.ret].
      destruct (Agent.in_index_order acc) as [|tc tcs] eqn:Horder; [done|].
      rewrite bind_snd.
      pose proof (run_tools_inv (tc :: tcs)
                    (messages ++ [Agent.assistant_tool_calls (tc :: tcs)]))
        as Htools.
      destruct (run_tools (tc :: tcs) _).2 as [messages'|e0].
      * destruct Htools as (results & Hall & ->). intros Hraise.
        eapply Agent.raises_later; [|by apply IH].
        exists s, t, acc, results. rewrite Horder. by repeat split.
      * destruct Htools as (before & results & tc' & after & Hcalls & Hall
                            & Htool).
        intros [= ->]. eapply Agent.raises_now, Agent.tool_raises; try done.
        by rewrite Horder.
  - intros [= ->].
    assert (Hraise : (Agent.consume (json := json) ∅ (Agent.chunks s)).2
                     = Raise e) by (by rewrite Hcons).
    apply consume_raises_inv in Hraise
      as (before & c & after & t' & acc' & Hchunks & Hbefore & Hchunk).
    by eapply Agent.raises_now, Agent.chunk_raises.
Qed.

(** [run_agent] raises in no other way. *)
Lemma run_agent_raises_inv question history e :
  (run_agent question history).2 = Raise e ->
  raises_within Agent.MAX_ITERATIONS
    ([Agent.chat "system" SYSTEM_PROMPT] ++ default [] history ++
     [Agent.chat "user" question]) e.
Proof. apply react_raises_inv. Qed.

(** *** The iteration cap *)

Lemma react_requests_le n messages :
  (length (Agent.requests (react n messages)) <= n)%nat.
Proof.
  revert messages. induction n as [|n IH]; intros messages; [simpl; lia|].
  rewrite react_step. unfold Agent.requests. rewrite bind_fst.
  rewrite omap_app, length_app. unfold Agent.request. cbn [fst snd omap length].
  destruct (create messages) as [s|e]; [|simpl; lia].
  rewrite bind_fst, omap_app, length_app.
  pose proof (local_requests _ (Return tt) (consume_stream_trace s)) as Hs.
  unfold Agent.requests in Hs. cbn [fst] in Hs. rewrite Hs. cbn [length].
  destruct (Agent.consume_stream s).2 as [acc|e]; [|simpl; lia].
  destruct (Agent.in_index_order acc) as [|tc tcs]; [simpl; lia|].
  rewrite bind_fst, omap_app, length_app.
  pose proof (local_requests _ (Return tt) (run_tools_trace (tc :: tcs)
    (messages ++ [Agent.assistant_tool_calls (tc :: tcs)]))) as Ht.
  unfold Agent.requests in Ht. cbn [fst] in Ht. rewrite Ht. cbn [length].
  destruct (run_tools _ _).2 as [messages'|e]; [|simpl; lia].
  specialize (IH messages'). unfold Agent.requests in IH. simpl. lia.
Qed.

Lemma in_index_order_nonempty acc :
  acc <> ∅ -> Agent.in_index_order acc <> [].
Proof.
  intros Hne Hnil. apply Hne. unfold Agent.in_index_order in Hnil.
  apply fmap_nil_inv in Hnil. apply map_to_list_empty_iff.
  apply Permutation_nil_r. rewrite <- Hnil.
  symmetry. apply merge_sort_Permutation.
Qed.

Lemma run_tools_returns calls messages :
  Agent.tools_return execute_tool ->
  exists t messages',
    run_tools calls messages = (t, Return messages') /\
    (length calls <=
     length (List.filter Agent.is_tool_start (Agent.yields (t, Return tt))))%nat.
Proof.
  intros Htools. revert messages.
  induction calls as [|tc calls IH]; intros messages.
  - exists [], messages. split; [done|simpl; lia].
  - rewrite run_tools_cons. cbv zeta.
    destruct (Htools (Agent.name tc)
                (default empty_object (json_loads (Agent.arguments_str tc))))
      as [result Hres].
    destruct (IH (messages ++ [Agent.tool_message (Agent.id tc) result]))
      as (t & messages' & Hrun & Hcount).
    unfold Agent.yield, Agent.lift. rewrite bind_return, Hres, bind_return.
    rewrite bind_return, Hrun. cbn [fst snd app].
    eexists _, messages'. split; [reflexivity|].
    unfold Agent.yields in *. cbn [fst] in *. simpl.
    apply le_n_S. exact Hcount.
Qed.

(** A run in which every turn calls tools and no tool raises goes through
    all its turns and ends with the closing text and [done]. *)
Lemma react_capped n messages :
  Agent.always_calls_tools (json := json) create -> Agent.tools_return execute_tool ->
  (react n messages).2 = Return tt /\
  length (Agent.requests (react n messages)) = n /\
  exists before,
    Agent.yields (react n messages) =
      before ++ [Agent.text_delta Agent.cap_text; Agent.done] /\
    Forall (fun ev => ev <> Agent.done /\ forall msg, ev <> Agent.error msg)
           before /\
    (n <= length (List.filter Agent.is_tool_start before))%nat.
Proof.
  intros Hcalls Htools. revert messages.
  induction n as [|n IH]; intros messages.
  - split; [done|]. split; [done|]. exists []. repeat split; [constructor|done].
  - destruct (Hcalls messages) as (s & t & acc & Hcreate & Hcons & Hne).
    destruct (Agent.in_index_order acc) as [|tc tcs] eqn:Hacc;
      [by apply in_index_order_nonempty in Hne|].
    destruct (run_tools_returns (tc :: tcs)
                (messages ++ [Agent.assistant_tool_calls (tc :: tcs)]) Htools)
      as (t2 & messages' & Hrun & Hcount).
    destruct (IH messages') as (Hret & Hreq & before & Hyields & Hquiet & Hn).
    assert (Hstep : react (S n) messages =
                    ([Agent.Request messages] ++
                       (t ++ (t2 ++ (react n messages').1)),
                     (react n messages').2)).
    { rewrite react_step. unfold Agent.request.
      rewrite Hcreate, bind_return, Hcons, bind_return. cbn [fst snd].
      rewrite Hacc, Hrun, bind_return. done. }
    rewrite Hstep. cbn [snd]. split; [exact Hret|].
    pose proof (consume_stream_trace s) as Ht. rewrite Hcons in Ht.
    cbn [fst] in Ht.
    pose proof (run_tools_trace (tc :: tcs)
      (messages ++ [Agent.assistant_tool_calls (tc :: tcs)])) as Ht2.
    rewrite Hrun in Ht2. cbn [fst] in Ht2.
    split.
    + rewrite (requests_app _ _ (Return tt)), (requests_app _ _ (Return tt)),
        (requests_app _ _ (Return tt)).
      rewrite (local_requests t _ Ht), (local_requests t2 _ Ht2).
      destruct (react n messages') as [t3 o3]. cbn [fst snd] in *.
      rewrite length_app, length_app, length_app.
      unfold Agent.requests in *. cbn [fst] in *. simpl. lia.
    + exists (Agent.yields (t, Return tt) ++
              Agent.yields (t2, Return tt) ++ before).
      rewrite (yields_app _ _ (Return tt)), (yields_app _ _ (Return tt)),
        (yields_app _ _ (Return tt)).
      destruct (react n messages') as [t3 o3]. cbn [fst snd] in *.
      split; [|split].
      * rewrite Hyields. unfold Agent.yields at 1. cbn [fst]. simpl.
        by rewrite <- !app_assoc.
      * apply Forall_app. split;
          [apply quiet_yields, quiet_local_quiet, Ht|].
        apply Forall_app. split;
          [apply quiet_yields, quiet_local_quiet, Ht2|exact Hquiet].
      * rewrite !List.filter_app, !length_app. simpl in Hcount. lia.
Qed.

(** C6: [run_agent] always returns after at most 15 provider calls; and
    when every turn streams tool calls and no tool raises, it makes exactly
    15 calls, each followed by at least one tool execution, and its last two
    events are the text delta announcing the cap and [done], no [done]
    coming before. *)
Theorem run_agent_iteration_cap question history :
  (length (Agent.requests (run_agent question history)) <= 15)%nat /\
  (Agent.always_calls_tools (json := json) create -> Agent.tools_return execute_tool ->
   (run_agent question history).2 = Return tt /\
   length (Agent.requests (run_agent question history)) = 15%nat /\
   exists before,
     Agent.yields (run_agent question history) =
       before ++ [Agent.text_delta Agent.cap_text; Agent.done] /\
     Forall (fun ev => ev <> Agent.done /\ forall msg, ev <> Agent.error msg)
            before /\
     (15 <= length (List.filter Agent.is_tool_start before))%nat).
Proof.
  split.
  - apply react_requests_le.
  - intros Hcalls Htools. by apply react_capped.
Qed.

End AgentFacts.

Lemma event_stream_surfaces_exception_witness :
  Agent.event_stream
    (Agent.run_agent Examples.text_loads "{}" Examples.listing_tool
                     Examples.broken_client "You explore code."
                     "Where is main?" None)
  = [ Agent.Data (Agent.text_delta "Let me look");
      Agent.Data (Agent.error "Connection reset") ] /\
  Agent.event_stream
    (Agent.run_agent Examples.text_loads "{}" Examples.failing_tool
                     Examples.eager_client "You explore code." "Where is main?"
                     None)
  = [ Agent.Data (Agent.tool_start (Some "list_files") "{}");
      Agent.Data (Agent.error "connection is closed") ] /\
  Agent.event_stream
    (Agent.run_agent Examples.text_loads "{}" Examples.listing_tool
                     Examples.rate_limited_client "You explore code."
                     "Where is main?" None)
  = [ Agent.Data (Agent.tool_start (Some "list_files") "{}");
      Agent.Data (Agent.tool_end (Some "list_files"));
      Agent.Data (Agent.error "Rate limit reached") ].
Proof.
  split; [|split].
  - destruct (event_stream_surfaces_exception Examples.text_loads "{}"
                Examples.listing_tool Examples.broken_client
                "You explore code." "Where is main?" None "Connection reset")
      as (_ & Hstream & _); [|exact Hstream].
    apply Agent.raises_now. eapply Agent.stream_raises; reflexivity.
  - destruct (event_stream_surfaces_exception Examples.text_loads "{}"
                Examples.failing_tool Examples.eager_client
                "You explore code." "Where is main?" None
                "connection is closed")
      as (_ & Hstream & _); [|exact Hstream].
    apply Agent.raises_now.
    eapply (Agent.tool_raises _ _ _ _ _ _ _ _ _ [] []);
      try reflexivity.
    constructor.
  - destruct (event_stream_surfaces_exception Examples.text_loads "{}"
                Examples.listing_tool Examples.rate_limited_client
                "You explore code." "Where is main?" None
                "Rate limit reached")
      as (_ & Hstream & _); [|exact Hstream].
    eapply Agent.raises_later.
    + eexists _, _, _, ["README.md"].
      split; [reflexivity|]. split; [reflexivity|]. split; [reflexivity|].
      split; [discriminate|]. split; [|reflexivity].
      repeat constructor.
    + apply Agent.raises_now, Agent.provider_raises. reflexivity.
Defined.

Lemma run_agent_iteration_cap_witness :
  length (Agent.requests
            (Agent.run_agent Examples.text_loads "{}" Examples.listing_tool
                             Examples.eager_client "You explore code."
                             "Where is main?" None)) = 15%nat.
Proof.
  destruct (run_agent_iteration_cap Examples.text_loads "{}"
              Examples.listing_tool Examples.eager_client "You explore code."
              "Where is main?" None) as [_ Hcap].
  destruct Hcap as (_ & Hlen & _).
  - intros messages. eexists _, _, _. split; [reflexivity|].
    split; [reflexivity|]. intros Hempty.
    apply (f_equal (fun m : gmap Z Agent.tool_call => m !! 0)) in Hempty.
    discriminate Hempty.
  - intros name arguments. by eexists.
  - exact Hlen.
Defined.

(** ** [search_code] *)

Section SearchFacts.

Context {compiled : Type}.
Variable re_compile : string -> Shell.compilation compiled.
Variable re_search : compiled -> string -> bool.
Variable like : string -> string -> bool.

Lemma scan_lines_cons c path line_num line rest output :
  Shell.scan_lines re_search c path line_num (line :: rest) output =
  if re_search c line then
    if (Shell.MAX_SEARCH_MATCHES
        <=? length (output ++ [Shell.Hit path line_num line]))%nat
    then Shell.Truncated (output ++ [Shell.Hit path line_num line])
    else Shell.scan_lines re_search c path (line_num + 1) rest
                          (output ++ [Shell.Hit path line_num line])
  else Shell.scan_lines re_search c path (line_num + 1) rest output.
Proof. reflexivity. Qed.

Lemma scan_lines_scanning c path line_num file_lines output output' :
  Shell.scan_lines re_search c path line_num file_lines output
    = Shell.Scanning output' ->
  output' = output ++ Shell.line_hits re_search c path line_num file_lines.
Proof.
  revert line_num output.
  induction file_lines as [|line rest IH]; intros line_num output.
  - simpl. intros [= <-]. by rewrite app_nil_r.
  - rewrite scan_lines_cons. cbn [Shell.line_hits].
    destruct (re_search c line).
    + destruct (Nat.leb _ _); [done|].
      intros H%IH. by rewrite H, <- app_assoc.
    + apply IH.
Qed.

Lemma scan_lines_below_cap c path line_num file_lines output :
  (length (output ++ Shell.line_hits re_search c path line_num file_lines)
   < Shell.MAX_SEARCH_MATCHES)%nat ->
  Shell.scan_lines re_search c path line_num file_lines output
    = Shell.Scanning (output ++ Shell.line_hits re_search c path line_num file_lines).
Proof.
  revert line_num output.
  induction file_lines as [|line rest IH]; intros line_num output.
  - simpl. by rewrite app_nil_r.
  - rewrite scan_lines_cons. cbn [Shell.line_hits].
    destruct (re_search c line).
    + intros Hlen.
      assert (Hshort : (length (output ++ [Shell.Hit path line_num line])
                        < Shell.MAX_SEARCH_MATCHES)%nat).
      { rewrite !length_app in *. cbn [length] in *. lia. }
      apply Nat.leb_gt in Hshort as Hcap. rewrite Hcap.
      rewrite IH; rewrite <- app_assoc; done.
    + apply IH.
Qed.

Lemma scan_rows_scanning c rows output output' :
  Shell.scan_rows re_search c rows output = Shell.Scanning output' ->
  Forall (fun r => File.content r <> None) rows /\
  output' = output ++ Shell.all_hits re_search c rows.
Proof.
  revert output. induction rows as [|row rows IH]; intros output; simpl.
  - intros [= <-]. by rewrite app_nil_r.
  - unfold Shell.row_hits.
    destruct (File.content row) as [text|] eqn:Hcontent; [|done].
    destruct (Shell.scan_lines _ _ _ _ _ _) as [out1| |] eqn:Hlines; [|done..].
    apply scan_lines_scanning in Hlines as ->.
    intros [Hall ->]%IH. split; [|by rewrite <- app_assoc].
    constructor; [by rewrite Hcontent|done].
Qed.

Lemma scan_rows_below_cap c rows output :
  Forall (fun r => File.content r <> None) rows ->
  (length (output ++ Shell.all_hits re_search c rows) < Shell.MAX_SEARCH_MATCHES)%nat ->
  Shell.scan_rows re_search c rows output
    = Shell.Scanning (output ++ Shell.all_hits re_search c rows).
Proof.
  intros Hall. revert output.
  induction Hall as [|row rows Hrow _ IH]; intros output; simpl.
  - by rewrite app_nil_r.
  - unfold Shell.row_hits. destruct (File.content row) as [text|]; [|done].
    simpl. intros Hlen. rewrite scan_lines_below_cap.
    + rewrite IH; rewrite <- app_assoc; done.
    + rewrite !length_app in *. lia.
Qed.

Lemma line_hits_mono c c' path line_num file_lines :
  (forall line, re_search c' line = true -> re_search c line = true) ->
  Shell.line_hits re_search c' path line_num file_lines
    `sublist_of` Shell.line_hits re_search c path line_num file_lines.
Proof.
  intros Hsub. revert line_num.
  induction file_lines as [|line rest IH]; intros line_num; simpl; [done|].
  apply sublist_app; [|apply IH].
  destruct (re_search c' line) eqn:Hc'.
  - by rewrite (Hsub _ Hc').
  - apply sublist_nil_l.
Qed.

Lemma all_hits_mono c c' rows rows' :
  (forall line, re_search c' line = true -> re_search c line = true) ->
  rows' `sublist_of` rows ->
  Shell.all_hits re_search c' rows' `sublist_of` Shell.all_hits re_search c rows.
Proof.
  intros Hsub. induction 1 as [|row rows' rows _ IH|row rows' rows _ IH]; simpl.
  - done.
  - apply sublist_app; [by apply line_hits_mono|exact IH].
  - by apply sublist_inserts_l.
Qed.

Lemma filter_sublist_impl {A} (f g : A -> bool) l :
  (forall x, f x = true -> g x = true) ->
  List.filter f l `sublist_of` List.filter g l.
Proof.
  intros Himp. induction l as [|x l IH]; simpl; [done|].
  destruct (f x) eqn:Hf.
  - rewrite (Himp _ Hf). by constructor.
  - destruct (g x); [by constructor|done].
Qed.

(** More literals, fewer candidate rows. *)
Lemma candidates_mono files repo_id glob literals literals' :
  (forall lit, lit ∈ literals -> lit ∈ literals') ->
  Shell.candidates like files repo_id literals' glob
    `sublist_of` Shell.candidates like files repo_id literals glob.
Proof.
  intros Hsub. unfold Shell.candidates. apply filter_sublist_impl.
  intros r [[Hdir Hlit]%andb_true_iff Hglob]%andb_true_iff.
  rewrite Hdir, Hglob, andb_true_r. simpl.
  unfold Shell.literal_condition in *.
  apply forallb_forall. intros lit Hin.
  eapply forallb_forall in Hlit; [exact Hlit|].
  by apply list_elem_of_In, Hsub, list_elem_of_In.
Qed.

(** What [search_code] returns when its scan ran to the end. *)
Lemma search_code_scanning files repo_id pattern glob c output :
  re_compile pattern = Shell.Compiled c ->
  Shell.search_scan re_search like files repo_id pattern glob c
    = Shell.Scanning output ->
  Shell.search_code re_compile re_search like files repo_id pattern glob =
  Return (match output with
          | [] => "No matches found for pattern: " +:+ pattern
          | _ :: _ => Py.join Shell.nl (Shell.render_hit <$> output)
          end).
Proof.
  intros Hc Hscan. unfold Shell.search_code. rewrite Hc, Hscan.
  unfold Shell.search_scan in Hscan.
  destruct (Shell.candidates _ _ _ _ _) as [|row rows]; [|by destruct output].
  simpl in Hscan. by injection Hscan as <-.
Qed.

(** C9, as the code has it: let P' have every literal of P (and more), let
    every line the expression P' matches be matched by P, and let the search
    for P run to the end without reaching the cap of 50.  Then the search
    for P' runs to the end too, its candidate rows are among those of P, and
    the matches it emits are among those emitted for P, in the same order. *)
Theorem search_code_monotone files repo_id glob P P' c c' output :
  re_compile P = Shell.Compiled c ->
  re_compile P' = Shell.Compiled c' ->
  (forall lit, lit ∈ Shell._extract_literals P ->
               lit ∈ Shell._extract_literals P') ->
  (forall line, re_search c' line = true -> re_search c line = true) ->
  Shell.search_scan re_search like files repo_id P glob c
    = Shell.Scanning output ->
  exists output',
    Shell.search_scan re_search like files repo_id P' glob c'
      = Shell.Scanning output' /\
    output' `sublist_of` output /\
    Shell.candidates like files repo_id (Shell._extract_literals P') glob
      `sublist_of`
      Shell.candidates like files repo_id (Shell._extract_literals P) glob /\
    Shell.search_code re_compile re_search like files repo_id P glob =
      Return (match output with
              | [] => "No matches found for pattern: " +:+ P
              | _ :: _ => Py.join Shell.nl (Shell.render_hit <$> output)
              end) /\
    Shell.search_code re_compile re_search like files repo_id P' glob =
      Return (match output' with
              | [] => "No matches found for pattern: " +:+ P'
              | _ :: _ => Py.join Shell.nl (Shell.render_hit <$> output')
              end).
Proof.
  intros Hc Hc' Hlits Hlines Hscan.
  pose proof Hscan as Hscan0. unfold Shell.search_scan in Hscan.
  apply scan_rows_scanning in Hscan as [Hall Hout]. simpl in Hout.
  pose proof (candidates_mono files repo_id glob _ _ Hlits) as Hrows.
  pose proof (all_hits_mono c c' _ _ Hlines Hrows) as Hhits.
  assert (Hbelow : (length output < Shell.MAX_SEARCH_MATCHES)%nat).
  { unfold Shell.search_scan in Hscan0.
    destruct (Nat.lt_ge_cases (length output) Shell.MAX_SEARCH_MATCHES)
      as [|Hge]; [done|].
    exfalso. revert Hscan0 Hge. clear.
    generalize (Shell.candidates like files repo_id
                  (Shell._extract_literals P) glob).
    intros rows. change (@nil Shell.hit) with (@nil Shell.hit) at 1.
    assert (Hgen : forall acc,
               (length acc < Shell.MAX_SEARCH_MATCHES)%nat ->
               Shell.scan_rows re_search c rows acc = Shell.Scanning output ->
               (length output < Shell.MAX_SEARCH_MATCHES)%nat).
    { induction rows as [|row rows IH]; intros acc Hacc; simpl.
      - by intros [= <-].
      - destruct (File.content row) as [text|]; [|done].
        destruct (Shell.scan_lines _ _ _ _ _ _) as [out1| |] eqn:Hl; [|done..].
        apply IH. revert Hacc Hl. clear.
        generalize 1. generalize (Py.split "010" text).
        intros file_lines. revert acc.
        induction file_lines as [|line rest IH]; intros acc n Hacc.
        + simpl. by intros [= <-].
        + rewrite scan_lines_cons.
          destruct (re_search c line); [|by apply IH].
          destruct (Nat.leb _ _) eqn:Hcap; [done|].
          apply IH. by apply Nat.leb_gt in Hcap. }
    intros Hs Hge. specialize (Hgen [] ltac:(simpl; unfold Shell.MAX_SEARCH_MATCHES; lia) Hs).
    lia. }
  exists (Shell.all_hits re_search c' (Shell.candidates like files repo_id
                         (Shell._extract_literals P') glob)).
  assert (Hscan' : Shell.search_scan re_search like files repo_id P' glob c' =
                   Shell.Scanning
                     (Shell.all_hits re_search c' (Shell.candidates like files repo_id
                                     (Shell._extract_literals P') glob))).
  { unfold Shell.search_scan. rewrite scan_rows_below_cap; [done| |].
    - apply Forall_forall. intros r Hr.
      eapply Forall_forall in Hall; [exact Hall|].
      by eapply elem_of_sublist.
    - simpl. apply sublist_length in Hhits. rewrite Hout in Hbelow. lia. }
  split; [exact Hscan'|]. split; [by rewrite Hout|].
  split; [exact Hrows|].
  split; [by apply (search_code_scanning _ _ _ _ c)|].
  by apply (search_code_scanning _ _ _ _ c').
Qed.

End SearchFacts.

Section SearchExamples.

Lemma prefix_app_l a b hay :
  String.prefix (a +:+ b) hay = true -> String.prefix a hay = true.
Proof.
  revert hay. induction a as [|x a IH]; intros hay; [by destruct hay|].
  rewrite append_cons. destruct hay as [|y hay]; simpl; [done|].
  destruct (ascii_dec x y); [apply IH|done].
Qed.

(** A line that contains a text contains every prefix of it. *)
Lemma contains_app_l hay a b :
  Py.contains hay (a +:+ b) = true -> Py.contains hay a = true.
Proof.
  induction hay as [|c hay IH].
  - change (Py.contains "" ?n) with (String.prefix n "" || false).
    rewrite !orb_false_r. apply prefix_app_l.
  - change (Py.contains (String c hay) ?n)
      with (String.prefix n (String c hay) || Py.contains hay n).
    intros [H|H]%orb_true_iff; apply orb_true_iff.
    + left. by eapply prefix_app_l.
    + right. by apply IH.
Qed.

Lemma search_code_monotone_witness :
  Shell.search_code Examples.word_compile Examples.word_search
                    Examples.sql_like Examples.foo_bar_repo "r1" "foo bar" None
  = Return "No matches found for pattern: foo bar".
Proof.
  destruct (search_code_monotone Examples.word_compile Examples.word_search
              Examples.sql_like Examples.foo_bar_repo "r1" None
              "foo" "foo bar" ["foo"] ["foo bar"]
              [Shell.Hit "a.txt" 1 "foo"] eq_refl eq_refl)
    as (output' & Hscan & _ & _ & _ & Hcode).
  - intros lit Hlit. apply list_elem_of_In in Hlit. apply list_elem_of_In.
    simpl in *. tauto.
  - intros line. unfold Examples.word_search. simpl.
    rewrite !orb_false_r. apply (contains_app_l line "foo" " bar").
  - reflexivity.
  - assert (output' = []) as ->; [|exact Hcode].
    vm_compute in Hscan. by injection Hscan as <-.
Defined.

(** C9, as stated, fails in two ways.  Adding the literal [bar] as an
    alternative adds the line [bar] to the matches; and with the cap of 50,
    adding the literal [xyz] brings out line 51, which the search for [abc]
    alone never reaches. *)
Lemma search_code_not_monotone :
  (Shell._extract_literals "foo|bar" = Shell._extract_literals "foo" ++ ["bar"]
   /\
   Shell.search_code Examples.word_compile Examples.word_search
                     Examples.sql_like Examples.foo_bar_repo "r1" "foo" None
   = Return "a.txt:1:foo" /\
   Shell.search_code Examples.word_compile Examples.word_search
                     Examples.sql_like Examples.foo_bar_repo "r1" "foo|bar" None
   = Return ("a.txt:1:foo" +:+ Shell.nl +:+ "a.txt:2:bar") /\
   exists output output',
     Shell.search_scan Examples.word_search Examples.sql_like
                       Examples.foo_bar_repo "r1" "foo" None ["foo"]
     = Shell.Scanning output /\
     Shell.search_scan Examples.word_search Examples.sql_like
                       Examples.foo_bar_repo "r1" "foo|bar" None ["foo"; "bar"]
     = Shell.Scanning output' /\
     ~ (forall h, h ∈ output' -> h ∈ output)) /\
  (Shell._extract_literals "abc xyz" = Shell._extract_literals "abc" ++ ["xyz"]
   /\
   exists output output',
     Shell.search_scan Examples.word_search Examples.sql_like
                       Examples.long_repo "r1" "abc" None ["abc"]
     = Shell.Truncated output /\
     Shell.search_scan Examples.word_search Examples.sql_like
                       Examples.long_repo "r1" "abc xyz" None ["abc xyz"]
     = Shell.Scanning output' /\
     Shell.Hit "log.txt" 51 "abc xyz" ∈ output' /\
     Shell.Hit "log.txt" 51 "abc xyz" ∉ output).
Proof.
  split.
  - split; [reflexivity|]. split; [vm_compute; reflexivity|].
    split; [vm_compute; reflexivity|].
    exists [Shell.Hit "a.txt" 1 "foo"],
           [Shell.Hit "a.txt" 1 "foo"; Shell.Hit "a.txt" 2 "bar"].
    split; [vm_compute; reflexivity|]. split; [vm_compute; reflexivity|].
    intros H. specialize (H (Shell.Hit "a.txt" 2 "bar")).
    assert (Hin : Shell.Hit "a.txt" 2 "bar"
                  ∈ [Shell.Hit "a.txt" 1 "foo"; Shell.Hit "a.txt" 2 "bar"])
      by (apply list_elem_of_In; simpl; tauto).
    apply H, list_elem_of_In in Hin. simpl in Hin.
    destruct Hin as [Heq|[]]. discriminate Heq.
  - split; [reflexivity|].
    eexists _, _. split; [vm_compute; reflexivity|].
    split; [vm_compute; reflexivity|]. split.
    + apply list_elem_of_In. simpl. tauto.
    + intros Hin%list_elem_of_In. simpl in Hin.
      repeat (destruct Hin as [Heq|Hin]; [discriminate Heq|]). exact Hin.
Qed.

End SearchExamples.

(** ** The context selector *)

Section SelectorFacts.

Context {F : Type} {arith : ChatService.Score F}.

(** The scores the comparison is known to order. *)
Variable D : F -> Prop.
Hypothesis lt_asym :
  forall a b, D a -> D b -> ChatService.lt a b = true ->
              ChatService.lt b a = false.
Hypothesis lt_negtrans :
  forall a b c, D a -> D b -> D c ->
    ChatService.lt a b = false -> ChatService.lt b c = false ->
    ChatService.lt a c = false.







End SelectorFacts.

Section SelectorExact.




End SelectorExact.


Section SelectorExamples.



(** On that manifest the page found through its file name comes first. *)
Example select_context_pages_example :
  ChatService._select_context_pages (arith := ChatService.float_score)
    Examples.wiki_pages Examples.auth_question 5
  = ["oauth"; "sessions"].
Proof. vm_compute. reflexivity. Qed.


End SelectorExamples.

(** * Further properties of the code *)

(** ** [list_files] in directory mode *)

Section ListDirectory.

#[local] Instance listing_le_trans : Transitive Shell.listing_le.
Proof.
  intros x y z. unfold Shell.listing_le.
  destruct (File.is_directory x), (File.is_directory y),
    (File.is_directory z); try done; apply transitivity.
Qed.

#[local] Instance listing_le_total : Total Shell.listing_le.
Proof.
  intros x y. unfold Shell.listing_le.
  destruct (File.is_directory x), (File.is_directory y); try tauto;
    apply total, _.
Qed.

Lemma fetch_children_elem files repo_id parent r :
  r ∈ Shell.fetch_children files repo_id parent <->
  r ∈ files /\ File.repo_id r = repo_id /\ File.parent_path r = parent.
Proof.
  unfold Shell.fetch_children. rewrite merge_sort_Permutation.
  rewrite !list_elem_of_In, filter_In, andb_true_iff. unfold Shell.of_repo.
  rewrite !String.eqb_eq. tauto.
Qed.

Lemma fetch_children_sorted files repo_id parent :
  StronglySorted Shell.listing_le (Shell.fetch_children files repo_id parent).
Proof. unfold Shell.fetch_children. apply StronglySorted_merge_sort; apply _. Qed.

(** Directory mode: for a path without [*] and [?] (["."] standing for the
    root), [list_files] prints exactly the rows of the repository whose
    parent_path is that path, directories before files and each kind in
    name order, directories with a trailing slash; and the [ls] error when
    there is no such row. *)
Theorem list_files_directory files repo_id path :
  let dir := if String.eqb (Py.strip "/" path) "." then EmptyString
             else Py.strip "/" path in
  Py.contains_char dir "*" = false ->
  Py.contains_char dir "?" = false ->
  let rows := Shell.fetch_children files repo_id dir in
  (forall r, r ∈ rows <->
             r ∈ files /\ File.repo_id r = repo_id /\
             File.parent_path r = dir) /\
  (forall before r after r',
     rows = before ++ r :: after -> r' ∈ after ->
     (File.is_directory r = false -> File.is_directory r' = false) /\
     (File.is_directory r = File.is_directory r' ->
      String.le (File.name r) (File.name r'))) /\
  Shell.list_files files repo_id path =
    match rows with
    | [] => "ls: cannot access '" +:+
            (if String.eqb dir EmptyString then "." else dir) +:+
            "': No such file or directory"
    | _ :: _ => Py.join Shell.nl (Shell.dir_entry <$> rows)
    end.
Proof.
  intros dir Hstar Hq rows. split; [|split].
  - intros r. apply fetch_children_elem.
  - intros before r after r' Hrows Hr'.
    pose proof (fetch_children_sorted files repo_id dir) as Hs.
    fold rows in Hs. rewrite Hrows in Hs.
    apply StronglySorted_app_1_r, StronglySorted_inv in Hs as [_ Hall].
    eapply Forall_forall in Hall; [|exact Hr'].
    unfold Shell.listing_le in Hall.
    destruct (File.is_directory r), (File.is_directory r'); done.
  - unfold Shell.list_files. fold dir. rewrite Hstar, Hq. cbv iota beta zeta.
    cbn [orb]. fold rows. by destruct rows.
Qed.

Lemma list_files_directory_witness :
  Shell.list_files Examples.scenario_repo "r1" "src" = "b/" +:+ Shell.nl +:+ "a.py".
Proof.
  pose proof (list_files_directory Examples.scenario_repo "r1" "src"
                eq_refl eq_refl) as (_ & _ & Hout).
  exact Hout.
Defined.

Lemma lstrip_rstrip chars chars' s :
  Py.lstrip chars s = s ->
  Py.lstrip chars (Py.rstrip chars' s) = Py.rstrip chars' s.
Proof.
  destruct s as [|c s]; [done|]. simpl.
  destruct (Py.contains_char chars c) eqn:Hc.
  - intros Heq. exfalso.
    assert (Hlen : forall t, (String.length (Py.lstrip chars t)
                              <= String.length t)%nat).
    { induction t as [|d t IH]; simpl; [lia|].
      destruct (Py.contains_char chars d); simpl; lia. }
    specialize (Hlen s). rewrite Heq in Hlen. simpl in Hlen. lia.
  - intros _. destruct (Py.rstrip chars' s).
    + destruct (Py.contains_char chars' c); [done|]. simpl. by rewrite Hc.
    + simpl. by rewrite Hc.
Qed.

Lemma lstrip_idem chars s :
  Py.lstrip chars (Py.lstrip chars s) = Py.lstrip chars s.
Proof.
  induction s as [|c s IH]; [done|]. simpl.
  destruct (Py.contains_char chars c) eqn:Hc; [done|]. simpl. by rewrite Hc.
Qed.

Lemma strip_idem chars s :
  Py.strip chars (Py.strip chars s) = Py.strip chars s.
Proof.
  unfold Py.strip.
  rewrite (lstrip_rstrip chars chars (Py.lstrip chars s)) by apply lstrip_idem.
  apply rstrip_rstrip.
Qed.

(** [list_files] does not see leading or trailing slashes, and the paths
    ["."], ["/"] and [""] all name the root of the repository. *)
Theorem list_files_strips_slashes files repo_id path :
  Shell.list_files files repo_id path =
  Shell.list_files files repo_id (Py.strip "/" path) /\
  Shell.list_files files repo_id "." = Shell.list_files files repo_id "" /\
  Shell.list_files files repo_id "/" = Shell.list_files files repo_id "".
Proof.
  split; [|split; reflexivity].
  unfold Shell.list_files. by rewrite strip_idem.
Qed.

End ListDirectory.

(** ** [read_file] on a part of the file *)

Section ReadPart.

(** [read_file] once the row is found and the slice is taken. *)
Lemma read_file_render files repo_id path row text start_line end_line
    selected first_num :
  Shell.fetchrow_path files repo_id (Py.lstrip "./" (Py.strip "/" path))
    = Some row ->
  File.is_directory row = false ->
  File.content row = Some text ->
  let lines := Py.split "010" text in
  let total := Z.of_nat (length lines) in
  match start_line with
  | Some st =>
      if st <? 0 then (Py.slice lines (Some st) None, total + st + 1)
      else (Py.slice lines (Some (Shell.or_default start_line 1 - 1))
                     (Some (Shell.or_default end_line total)),
            Shell.or_default start_line 1 - 1 + 1)
  | None => (Py.slice lines (Some (Shell.or_default start_line 1 - 1))
                      (Some (Shell.or_default end_line total)),
             Shell.or_default start_line 1 - 1 + 1)
  end = (selected, first_num) ->
  let shown := take Shell.MAX_FILE_LINES selected in
  let width :=
    String.length (Py.str (first_num + Z.of_nat (length shown) - 1)) in
  let result := Py.join Shell.nl (Shell.number_lines width first_num shown) in
  Shell.read_file files repo_id path start_line end_line =
  Return (if (Shell.MAX_FILE_LINES <? length selected)%nat
          then result +:+ Shell.truncation_notice total
          else result).
Proof.
  intros Hrow Hdir Hcontent lines total Hsel shown width result.
  unfold Shell.read_file. rewrite Hrow, Hdir, Hcontent. cbv zeta.
  fold lines. fold total. rewrite Hsel.
  subst result width shown.
  destruct (Nat.ltb_spec Shell.MAX_FILE_LINES (length selected)) as [Hlong|Hshort].
  - reflexivity.
  - by rewrite take_ge.
Qed.

Lemma slice_tail {A} (l : list A) k :
  0 < k ->
  Py.slice l (Some (- k)) None =
  drop (length l - Nat.min (Z.to_nat k) (length l)) l.
Proof.
  intros Hk. unfold Py.slice, Py.slice_bound.
  destruct (Z.ltb_spec (- k) 0) as [_|]; [|lia].
  rewrite take_ge.
  - f_equal. lia.
  - rewrite length_drop. lia.
Qed.

Lemma slice_range {A} (l : list A) s e :
  1 <= s -> 1 <= e ->
  Py.slice l (Some (s - 1)) (Some e) =
  take (Z.to_nat (Z.min e (Z.of_nat (length l)) - s + 1))
       (drop (Z.to_nat (s - 1)) l).
Proof.
  intros Hs He. unfold Py.slice, Py.slice_bound.
  destruct (Z.ltb_spec (s - 1) 0) as [|_]; [lia|].
  destruct (Z.ltb_spec e 0) as [|_]; [lia|].
  destruct (Z_le_gt_dec (s - 1) (Z.of_nat (length l))) as [Hin|Hout].
  - f_equal; [|f_equal]; lia.
  - rewrite !drop_ge by lia. by rewrite !take_nil.
Qed.

(** Tail mode.  For [start_line = -k] with [k > 0], [read_file] prints the
    last [min k N] lines of the file, at most 500 of them, whatever
    [end_line] is, and numbers them from [N - k + 1]: the numbers are the
    line numbers of the file when [k <= N], and start at or below zero when
    [k > N]. *)
Theorem read_file_tail files repo_id path row text k end_line :
  Shell.fetchrow_path files repo_id (Py.lstrip "./" (Py.strip "/" path))
    = Some row ->
  File.is_directory row = false ->
  File.content row = Some text ->
  0 < k ->
  let lines := Py.split "010" text in
  let N := length lines in
  let count := Nat.min (Z.to_nat k) N in
  let shown := Nat.min count 500 in
  let first_num := Z.of_nat N - k + 1 in
  let width := String.length (Py.str (first_num + Z.of_nat shown - 1)) in
  exists out : list string,
    Shell.read_file files repo_id path (Some (- k)) end_line =
      Return (if (500 <? count)%nat
              then Py.join Shell.nl out +:+
                   Shell.truncation_notice (Z.of_nat N)
              else Py.join Shell.nl out) /\
    length out = shown /\
    (forall i, (i < shown)%nat ->
       out !! i =
       Shell.numbered width (first_num + Z.of_nat i)
         <$> lines !! (N - count + i)%nat).
Proof.
  intros Hrow Hdir Hcontent Hk lines N count shown first_num width.
  assert (Hsel : (if - k <? 0
                  then (Py.slice lines (Some (- k)) None,
                        Z.of_nat (length lines) + - k + 1)
                  else (Py.slice lines
                          (Some (Shell.or_default (Some (- k)) 1 - 1))
                          (Some (Shell.or_default end_line
                                   (Z.of_nat (length lines)))),
                        Shell.or_default (Some (- k)) 1 - 1 + 1))
                 = (drop (N - count) lines, first_num)).
  { destruct (Z.ltb_spec (- k) 0) as [_|]; [|lia].
    by rewrite slice_tail. }
  pose proof (read_file_render files repo_id path row text (Some (- k))
                end_line (drop (N - count) lines) first_num
                Hrow Hdir Hcontent Hsel) as Hread.
  cbv zeta in Hread. fold lines in Hread. fold N in Hread.
  assert (Hlen : length (drop (N - count) lines) = count).
  { rewrite length_drop. fold N. subst count. lia. }
  rewrite Hlen in Hread.
  assert (Hshown : length (take Shell.MAX_FILE_LINES (drop (N - count) lines))
                   = shown).
  { rewrite length_take, Hlen. subst shown. unfold Shell.MAX_FILE_LINES. lia. }
  rewrite Hshown in Hread. fold width in Hread.
  exists (Shell.number_lines width first_num
            (take Shell.MAX_FILE_LINES (drop (N - count) lines))).
  split; [exact Hread|]. split.
  - by rewrite number_lines_length.
  - intros i Hi. rewrite number_lines_lookup.
    rewrite lookup_take_lt, lookup_drop; [done|].
    subst shown. unfold Shell.MAX_FILE_LINES. lia.
Qed.

Lemma read_file_tail_witness :
  Shell.read_file Examples.notes_repo "r1" "notes.txt" (Some (-1)) (Some 1) =
  Return "2 | beta".
Proof.
  destruct (read_file_tail Examples.notes_repo "r1" "notes.txt"
              Examples.notes_row ("alpha" +:+ Shell.nl +:+ "beta") 1 (Some 1)
              eq_refl eq_refl eq_refl ltac:(lia))
    as (out & Hread & Hlen & Hout).
  specialize (Hout 0%nat ltac:(vm_compute; lia)).
  destruct out as [|line [|]]; try discriminate Hlen.
  vm_compute in Hout. injection Hout as <-. exact Hread.
Defined.

(** Range mode.  With [s = start_line or 1] and [e = end_line or N] both
    positive, [read_file] prints the lines [s .. min e N] of the file, at
    most 500 of them, each under its own line number; a range that starts
    after the end of the file, or ends before it starts, gives the empty
    string and no error. *)
Theorem read_file_range files repo_id path row text start_line end_line :
  Shell.fetchrow_path files repo_id (Py.lstrip "./" (Py.strip "/" path))
    = Some row ->
  File.is_directory row = false ->
  File.content row = Some text ->
  let lines := Py.split "010" text in
  let N := length lines in
  let s := Shell.or_default start_line 1 in
  let e := Shell.or_default end_line (Z.of_nat N) in
  1 <= s -> 1 <= e ->
  let count := Z.to_nat (Z.min e (Z.of_nat N) - s + 1) in
  let shown := Nat.min count 500 in
  let width := String.length (Py.str (s + Z.of_nat shown - 1)) in
  exists out : list string,
    Shell.read_file files repo_id path start_line end_line =
      Return (if (500 <? count)%nat
              then Py.join Shell.nl out +:+
                   Shell.truncation_notice (Z.of_nat N)
              else Py.join Shell.nl out) /\
    length out = shown /\
    (forall i, (i < shown)%nat ->
       out !! i =
       Shell.numbered width (s + Z.of_nat i)
         <$> lines !! (Z.to_nat (s - 1) + i)%nat) /\
    (Z.min e (Z.of_nat N) < s ->
     Shell.read_file files repo_id path start_line end_line = Return "").
Proof.
  intros Hrow Hdir Hcontent lines N s e Hs He count shown width.
  set (selected := take count (drop (Z.to_nat (s - 1)) lines)).
  pose proof (read_file_render files repo_id path row text start_line
                end_line selected s Hrow Hdir Hcontent) as Hread.
  cbv zeta in Hread. fold lines in Hread. fold N in Hread.
  fold s in Hread. fold e in Hread.
  rewrite slice_range in Hread by done. fold N in Hread. fold count in Hread.
  fold selected in Hread.
  assert (Hcat : match start_line with
                 | Some st => if st <? 0 then
                                (Py.slice lines (Some st) None,
                                 Z.of_nat N + st + 1)
                              else (selected, s - 1 + 1)
                 | None => (selected, s - 1 + 1)
                 end = (selected, s)).
  { replace (s - 1 + 1) with s by lia.
    destruct start_line as [st|]; [|done].
    destruct (Z.ltb_spec st 0) as [Hneg|]; [|done].
    subst s. unfold Shell.or_default in Hs.
    destruct (Z.eqb_spec st 0); lia. }
  specialize (Hread Hcat).
  assert (Hlen : length selected = count).
  { subst selected. rewrite length_take, length_drop. fold N.
    subst count. lia. }
  rewrite Hlen in Hread.
  assert (Hshown : length (take Shell.MAX_FILE_LINES selected) = shown).
  { rewrite length_take, Hlen. subst shown. unfold Shell.MAX_FILE_LINES. lia. }
  rewrite Hshown in Hread. fold width in Hread.
  exists (Shell.number_lines width s (take Shell.MAX_FILE_LINES selected)).
  split; [exact Hread|]. split; [by rewrite number_lines_length|]. split.
  - intros i Hi. rewrite number_lines_lookup.
    rewrite lookup_take_lt by (subst shown; unfold Shell.MAX_FILE_LINES; lia).
    subst selected. rewrite lookup_take_lt by (subst shown; lia).
    by rewrite lookup_drop.
  - intros Hempty. rewrite Hread.
    assert (count = 0%nat) as Hzero by (subst count; lia).
    assert (selected = []) as -> by (subst selected; by rewrite Hzero).
    by rewrite Hzero.
Qed.

Lemma read_file_range_witness :
  Shell.read_file Examples.notes_repo "r1" "notes.txt" (Some 2) (Some 0) =
    Return "2 | beta" /\
  Shell.read_file Examples.notes_repo "r1" "notes.txt" (Some 3) None =
    Return "".
Proof.
  split.
  - destruct (read_file_range Examples.notes_repo "r1" "notes.txt"
                Examples.notes_row ("alpha" +:+ Shell.nl +:+ "beta")
                (Some 2) (Some 0) eq_refl eq_refl eq_refl
                ltac:(vm_compute; discriminate) ltac:(vm_compute; discriminate))
      as (out & Hread & Hlen & Hout & _).
    specialize (Hout 0%nat ltac:(vm_compute; lia)).
    destruct out as [|line [|]]; try discriminate Hlen.
    vm_compute in Hout. injection Hout as <-. exact Hread.
  - destruct (read_file_range Examples.notes_repo "r1" "notes.txt"
                Examples.notes_row ("alpha" +:+ Shell.nl +:+ "beta")
                (Some 3) None eq_refl eq_refl eq_refl
                ltac:(vm_compute; discriminate) ltac:(vm_compute; discriminate))
      as (out & _ & _ & _ & Hempty).
    apply Hempty. vm_compute. reflexivity.
Defined.

End ReadPart.

(** ** [search_code]: the cap and the emitted matches *)

Section SearchOutput.

Context {compiled : Type}.
Variable re_compile : string -> Shell.compilation compiled.
Variable re_search : compiled -> string -> bool.
Variable like : string -> string -> bool.

(** The scan of one file stops at the match that fills the cap. *)
Lemma scan_lines_cap c path line_num file_lines output :
  (length output < Shell.MAX_SEARCH_MATCHES)%nat ->
  let all := output ++ Shell.line_hits re_search c path line_num file_lines in
  Shell.scan_lines re_search c path line_num file_lines output =
  if (length all <? Shell.MAX_SEARCH_MATCHES)%nat then Shell.Scanning all
  else Shell.Truncated (take Shell.MAX_SEARCH_MATCHES all).
Proof.
  revert line_num output.
  induction file_lines as [|line rest IH]; intros line_num output Hlen all.
  - subst all. cbn [Shell.line_hits Shell.scan_lines]. rewrite app_nil_r.
    by apply Nat.ltb_lt in Hlen as ->.
  - rewrite scan_lines_cons. subst all. cbn [Shell.line_hits].
    destruct (re_search c line); [|by apply IH].
    rewrite app_assoc.
    destruct (Nat.leb_spec Shell.MAX_SEARCH_MATCHES
                (length (output ++ [Shell.Hit path line_num line])))
      as [Hfull|Hroom].
    + assert (Hexact : length (output ++ [Shell.Hit path line_num line])
                       = Shell.MAX_SEARCH_MATCHES).
      { rewrite length_app in *. cbn [length] in *. lia. }
      destruct (Nat.ltb_spec
                  (length ((output ++ [Shell.Hit path line_num line]) ++
                           Shell.line_hits re_search c path (line_num + 1) rest))
                  Shell.MAX_SEARCH_MATCHES) as [Hlt|_].
      * rewrite length_app in Hlt. lia.
      * by rewrite <- Hexact, take_app_length.
    + by apply IH.
Qed.

Lemma scan_rows_cap c rows output :
  Forall (fun r => File.content r <> None) rows ->
  (length output < Shell.MAX_SEARCH_MATCHES)%nat ->
  let all := output ++ Shell.all_hits re_search c rows in
  Shell.scan_rows re_search c rows output =
  if (length all <? Shell.MAX_SEARCH_MATCHES)%nat then Shell.Scanning all
  else Shell.Truncated (take Shell.MAX_SEARCH_MATCHES all).
Proof.
  intros Hall. revert output.
  induction Hall as [|row rows Hrow _ IH]; intros output Hlen all.
  - subst all. cbn [Shell.all_hits flat_map Shell.scan_rows].
    rewrite app_nil_r. by apply Nat.ltb_lt in Hlen as ->.
  - subst all. cbn [Shell.all_hits flat_map Shell.scan_rows].
    set (rest := flat_map (Shell.row_hits re_search c) rows).
    unfold Shell.row_hits.
    destruct (File.content row) as [text|]; [|done]. cbn [default].
    rewrite scan_lines_cap by done. cbv zeta.
    set (hits1 := Shell.line_hits re_search c (File.path row) 1
                    (Py.split "010" text)).
    rewrite (app_assoc output hits1).
    destruct (Nat.ltb_spec (length (output ++ hits1))
                Shell.MAX_SEARCH_MATCHES) as [Hroom|Hfull].
    + by apply IH.
    + destruct (Nat.ltb_spec (length ((output ++ hits1) ++ rest))
                  Shell.MAX_SEARCH_MATCHES) as [Hlt|_].
      * rewrite length_app in Hlt. lia.
      * by rewrite (take_app_le (output ++ hits1) rest).
Qed.

(** What [search_code] prints on a store whose file rows all have
    content: the matching lines of the candidate files, in the order of the
    scan, all of them while there are fewer than 50 and the first 50
    followed by the truncation notice otherwise.  The notice is printed
    also when there are exactly 50 matching lines and none is left out. *)
Theorem search_code_output files repo_id pattern glob c :
  re_compile pattern = Shell.Compiled c ->
  (forall r, r ∈ files -> File.is_directory r = false ->
             File.content r <> None) ->
  let hits :=
    Shell.all_hits re_search c
      (Shell.candidates like files repo_id
         (Shell._extract_literals pattern) glob) in
  Shell.search_code re_compile re_search like files repo_id pattern glob =
  Return (match hits with
          | [] => "No matches found for pattern: " +:+ pattern
          | _ :: _ =>
              if (length hits <? 50)%nat
              then Py.join Shell.nl (Shell.render_hit <$> hits)
              else Py.join Shell.nl
                     ((Shell.render_hit <$> take 50 hits) ++
                      [Shell.search_notice])
          end).
Proof.
  intros Hc Hcontent hits. unfold Shell.search_code. rewrite Hc.
  unfold Shell.search_scan.
  set (rows := Shell.candidates like files repo_id
                 (Shell._extract_literals pattern) glob) in *.
  assert (Hrows : Forall (fun r => File.content r <> None) rows).
  { apply Forall_forall. intros r Hr. subst rows. unfold Shell.candidates in Hr.
    apply list_elem_of_In, filter_In in Hr as [Hr Hcond].
    apply list_elem_of_In, fetch_by_path_elem in Hr as [Hr _].
    apply andb_true_iff in Hcond as [[Hdir _]%andb_true_iff _].
    apply Hcontent; [done|]. by apply negb_true_iff. }
  rewrite (scan_rows_cap c rows [] Hrows)
    by (cbn [length]; unfold Shell.MAX_SEARCH_MATCHES; lia).
  cbv zeta. rewrite app_nil_l. fold hits.
  destruct rows as [|row rows'] eqn:Hrs; [done|].
  change Shell.MAX_SEARCH_MATCHES with 50%nat.
  destruct (Nat.ltb_spec (length hits) 50) as [Hlt|Hge].
  - by destruct hits.
  - destruct hits; [cbn [length] in Hge; lia|done].
Qed.

Lemma line_hits_elem c path line_num file_lines h :
  h ∈ Shell.line_hits re_search c path line_num file_lines <->
  exists i : nat,
    file_lines !! i = Some (Shell.hit_line h) /\
    re_search c (Shell.hit_line h) = true /\
    Shell.hit_path h = path /\
    Shell.hit_line_num h = line_num + Z.of_nat i.
Proof.
  revert line_num.
  induction file_lines as [|line rest IH]; intros line_num;
    cbn [Shell.line_hits].
  - split; [by intros ?%elem_of_nil|]. by intros (i & Hi & _).
  - rewrite elem_of_app, IH. split.
    + intros [Hhead|(i & Hi & Hm & Hp & Hn)].
      * destruct (re_search c line) eqn:Hline;
          [|by apply elem_of_nil in Hhead].
        apply list_elem_of_singleton in Hhead as ->. exists 0%nat.
        cbn. repeat split; [done|]. lia.
      * exists (S i). repeat split; try done. lia.
    + intros ([|i] & Hi & Hm & Hp & Hn).
      * left. injection Hi as ->. rewrite Hm.
        apply list_elem_of_singleton. destruct h as [p n l]. cbn in *.
        f_equal; [done|lia].
      * right. exists i. repeat split; try done. lia.
Qed.

(** Every match [search_code] emits is a line of the repository: the row
    of its path is a file row of the repository that passes the literal
    and glob conditions, its text is line [line_num] (counted from 1) of
    the content of that row, and the expression matches it. *)
Theorem search_hits_sound files repo_id pattern glob c output h :
  Shell.search_scan re_search like files repo_id pattern glob c
    = Shell.Scanning output \/
  Shell.search_scan re_search like files repo_id pattern glob c
    = Shell.Truncated output ->
  h ∈ output ->
  exists r text,
    r ∈ files /\ File.repo_id r = repo_id /\ File.is_directory r = false /\
    Shell.literal_condition like (Shell._extract_literals pattern) r = true /\
    Shell.glob_condition like glob r = true /\
    File.content r = Some text /\
    Shell.hit_path h = File.path r /\
    1 <= Shell.hit_line_num h /\
    Py.split "010" text !! Z.to_nat (Shell.hit_line_num h - 1)
      = Some (Shell.hit_line h) /\
    re_search c (Shell.hit_line h) = true.
Proof.
  unfold Shell.search_scan.
  set (rows := Shell.candidates like files repo_id
                 (Shell._extract_literals pattern) glob).
  intros Hscan Hh.
  assert (Hgen : forall rs acc out,
             Shell.scan_rows re_search c rs acc = Shell.Scanning out \/
             Shell.scan_rows re_search c rs acc = Shell.Truncated out ->
             forall h, h ∈ out ->
               h ∈ acc \/
               exists r text, r ∈ rs /\ File.content r = Some text /\
                 h ∈ Shell.line_hits re_search c (File.path r) 1
                       (Py.split "010" text)).
  { clear. induction rs as [|row rs IH]; intros acc out Hscan h Hh.
    - cbn in Hscan. destruct Hscan as [[= <-]|[=]]. by left.
    - cbn [Shell.scan_rows] in Hscan.
      destruct (File.content row) as [text|] eqn:Hcontent;
        [|by destruct Hscan].
      assert (Hlines : forall lines n acc out,
                 Shell.scan_lines re_search c (File.path row) n lines acc
                   = Shell.Scanning out \/
                 Shell.scan_lines re_search c (File.path row) n lines acc
                   = Shell.Truncated out ->
                 forall h, h ∈ out ->
                   h ∈ acc \/
                   h ∈ Shell.line_hits re_search c (File.path row) n lines).
      { clear. induction lines as [|line rest IHl]; intros n acc out Hs h Hh.
        - cbn in Hs. destruct Hs as [[= <-]|[=]]. by left.
        - rewrite scan_lines_cons in Hs. cbn [Shell.line_hits].
          destruct (re_search c line).
          + destruct (Nat.leb _ _).
            * destruct Hs as [[=]|[= <-]].
              apply elem_of_app in Hh as [?|?]; [by left|].
              right. apply elem_of_app. by left.
            * destruct (IHl _ _ _ Hs h Hh) as [Hacc|Hrest].
              -- apply elem_of_app in Hacc as [?|?]; [by left|].
                 right. apply elem_of_app. by left.
              -- right. apply elem_of_app. by right.
          + destruct (IHl _ _ _ Hs h Hh) as [?|?]; [by left|by right]. }
      destruct (Shell.scan_lines re_search c (File.path row) 1
                  (Py.split "010" text) acc) as [out1|out1|e] eqn:Hl.
      + destruct (IH _ _ Hscan h Hh) as [Hin|(r & t & Hr & Ht & Hin)].
        * destruct (Hlines _ _ _ _ (or_introl Hl) h Hin) as [?|?];
            [by left|].
          right. exists row, text. split; [by left|done].
        * right. exists r, t. split; [by right|done].
      + destruct Hscan as [[=]|[= <-]].
        destruct (Hlines _ _ _ _ (or_intror Hl) h Hh) as [?|?]; [by left|].
        right. exists row, text. split; [by left|done].
      + by destruct Hscan. }
  destruct (Hgen rows [] output Hscan h Hh)
    as [Hnil|(r & text & Hr & Hcontent & Hin)]; [by apply elem_of_nil in Hnil|].
  subst rows. unfold Shell.candidates in Hr.
  apply list_elem_of_In, filter_In in Hr as [Hr Hcond].
  apply list_elem_of_In, fetch_by_path_elem in Hr as [Hr Hrepo].
  apply andb_true_iff in Hcond as [[Hdir Hlit]%andb_true_iff Hglob].
  apply line_hits_elem in Hin as (i & Hi & Hm & Hp & Hn).
  exists r, text. repeat split; try done.
  - by apply negb_true_iff.
  - lia.
  - rewrite Hn. by replace (Z.to_nat (1 + Z.of_nat i - 1)) with i by lia.
Qed.

End SearchOutput.

Lemma search_code_output_witness :
  Shell.search_code Examples.word_compile Examples.word_search
                    Examples.sql_like Examples.foo_bar_repo "r1" "bar" None
  = Return "a.txt:2:bar".
Proof.
  apply (search_code_output Examples.word_compile Examples.word_search
           Examples.sql_like Examples.foo_bar_repo "r1" "bar" None ["bar"]
           eq_refl).
  intros r Hr _. apply list_elem_of_In in Hr. simpl in Hr.
  destruct Hr as [<-|[]]. discriminate.
Defined.

Lemma search_hits_sound_witness :
  exists r text,
    r ∈ Examples.foo_bar_repo /\ File.content r = Some text /\
    Py.split "010" text !! 1%nat = Some "bar".
Proof.
  destruct (search_hits_sound Examples.word_search Examples.sql_like
              Examples.foo_bar_repo "r1" "bar" None ["bar"]
              [Shell.Hit "a.txt" 2 "bar"] (Shell.Hit "a.txt" 2 "bar")
              (or_introl eq_refl))
    as (r & text & Hr & _ & _ & _ & _ & Hcontent & _ & _ & Hline & _).
  - apply list_elem_of_In. simpl. tauto.
  - exists r, text. repeat split; done.
Defined.

(** ** [_extract_literals] *)

Section Literals.

Lemma rev_app_append s t : String.rev_app s t = String.rev s +:+ t.
Proof.
  unfold String.rev. revert t.
  induction s as [|c s IH]; intros t; cbn [String.rev_app]; [done|].
  rewrite (IH (String c t)), (IH (String c "")).
  by rewrite append_assoc.
Qed.

Lemma rev_cons c s : String.rev (String c s) = String.rev s +:+ String c "".
Proof. unfold String.rev at 1. cbn [String.rev_app]. apply rev_app_append. Qed.

Lemma length_app_string s t :
  String.length (s +:+ t) = (String.length s + String.length t)%nat.
Proof.
  induction s as [|c s IH]; [done|].
  rewrite append_cons. cbn [String.length]. by rewrite IH.
Qed.

Lemma length_rev s : String.length (String.rev s) = String.length s.
Proof.
  induction s as [|c s IH]; [done|].
  rewrite rev_cons, length_app_string, IH. cbn [String.length]. lia.
Qed.

Lemma all_word_app s t :
  Shell.all_word (s +:+ t) = Shell.all_word s && Shell.all_word t.
Proof.
  induction s as [|c s IH]; [done|].
  rewrite append_cons. cbn [Shell.all_word]. by rewrite IH, andb_assoc.
Qed.

Lemma all_word_rev s : Shell.all_word (String.rev s) = Shell.all_word s.
Proof.
  induction s as [|c s IH]; [done|].
  rewrite rev_cons, all_word_app, IH. cbn [Shell.all_word].
  rewrite andb_true_r. apply andb_comm.
Qed.

Lemma literal_runs_spec pattern :
  forall cur lit,
    Shell.all_word cur = true ->
    lit ∈ Shell.literal_runs cur pattern ->
    (3 <= String.length lit)%nat /\ Shell.all_word lit = true /\
    exists a b, String.rev cur +:+ pattern = a +:+ lit +:+ b /\
                run_ends b /\
                (a = EmptyString \/
                 exists a' c, a = a' +:+ String c EmptyString /\
                              Shell.is_word c = false).
Proof.
  assert (Hemit : forall cur lit,
             Shell.all_word cur = true -> lit ∈ Shell.emit_run cur ->
             (3 <= String.length lit)%nat /\ Shell.all_word lit = true /\
             lit = String.rev cur).
  { intros cur lit Hcur. unfold Shell.emit_run.
    destruct (Nat.leb_spec 3 (String.length cur)) as [Hlen|_];
      [|by intros ?%elem_of_nil].
    intros ->%list_elem_of_singleton.
    by rewrite length_rev, all_word_rev. }
  induction pattern as [|c pattern IH]; intros cur lit Hcur;
    cbn [Shell.literal_runs].
  - intros (Hlen & Hword & ->)%Hemit; [|done].
    split; [done|]. split; [done|].
    exists EmptyString, EmptyString. split; [|split; by left].
    by rewrite append_nil_r.
  - destruct (Shell.is_word c) eqn:Hc.
    + intros Hin. apply IH in Hin as (Hlen & Hword & a & b & Heq & Hb & Ha).
      * split; [done|]. split; [done|]. exists a, b.
        split; [|done]. rewrite <- Heq, rev_cons, append_assoc.
        by rewrite append_cons.
      * cbn [Shell.all_word]. by rewrite Hc, Hcur.
    + intros [Hin|Hin]%elem_of_app.
      * apply Hemit in Hin as (Hlen & Hword & ->); [|done].
        split; [done|]. split; [done|].
        exists EmptyString, (String c pattern). split; [done|].
        split; [|by left]. right. by exists c, pattern.
      * apply IH in Hin as (Hlen & Hword & a & b & Heq & Hb & Ha); [|done].
        split; [done|]. split; [done|].
        exists (String.rev cur +:+ String c a), b.
        split; [|split; [done|]].
        -- change (String.rev "" +:+ pattern) with pattern in Heq.
           rewrite Heq. by rewrite append_assoc, append_cons.
        -- right. destruct Ha as [->|(a' & c' & -> & Hc')].
           ++ by exists (String.rev cur), c.
           ++ exists (String.rev cur +:+ String c a'), c'. split; [|done].
              by rewrite append_assoc, append_cons.
Qed.

Lemma literal_runs_word pattern :
  forall cur,
    Shell.all_word pattern = true ->
    Shell.literal_runs cur pattern =
    Shell.emit_run (String.rev pattern +:+ cur).
Proof.
  induction pattern as [|c pattern IH]; intros cur; cbn [Shell.literal_runs];
    [done|].
  cbn [Shell.all_word]. intros [Hc Hword]%andb_true_iff.
  rewrite Hc, IH by done. by rewrite rev_cons, append_assoc.
Qed.

Lemma rev_app_string s t :
  String.rev (s +:+ t) = String.rev t +:+ String.rev s.
Proof.
  induction s as [|c s IH]; [by rewrite append_nil_r|].
  by rewrite append_cons, !rev_cons, IH, append_assoc.
Qed.

Lemma rev_involutive s : String.rev (String.rev s) = s.
Proof.
  induction s as [|c s IH]; [done|].
  by rewrite rev_cons, rev_app_string, IH.
Qed.

(** The literals sent to the prefilter are maximal runs of word characters
    of the pattern, of three characters or more: each stands in the
    pattern between two characters that are not word characters (or at an
    end of the pattern).  A pattern made of word characters only is its
    own single literal when it has three characters, and has none
    otherwise. *)
Theorem extract_literals_runs pattern :
  (forall lit, lit ∈ Shell._extract_literals pattern ->
     (3 <= String.length lit)%nat /\ Shell.all_word lit = true /\
     exists a b, pattern = a +:+ lit +:+ b /\ run_starts a /\ run_ends b) /\
  (Shell.all_word pattern = true ->
   Shell._extract_literals pattern =
     if (3 <=? String.length pattern)%nat then [pattern] else []).
Proof.
  split.
  - intros lit Hin. unfold Shell._extract_literals in Hin.
    apply literal_runs_spec in Hin as (Hlen & Hword & a & b & Heq & Hb & Ha);
      [|done].
    split; [done|]. split; [done|]. by exists a, b.
  - intros Hword. unfold Shell._extract_literals.
    rewrite literal_runs_word by done. rewrite append_nil_r.
    unfold Shell.emit_run. by rewrite length_rev, rev_involutive.
Qed.

End Literals.

(** ** The records of the ingestion walk *)

Section WalkRecords.

Variable MAX_FILE_SIZE : Z.
Variable repo_id : string.

#[local] Arguments Ingestion.member : simpl never.
#[local] Arguments Ingestion._get_extension : simpl never.

Lemma file_record_elem rel_dir filename st_size text r :
  r ∈ Ingestion.file_record MAX_FILE_SIZE repo_id rel_dir filename st_size text
  <->
  Ingestion.member filename Ingestion.SKIP_FILENAMES = false /\
  Ingestion.member (Ingestion._get_extension filename)
                   Ingestion.SKIP_EXTENSIONS = false /\
  exists size content,
    st_size = Some size /\ size <= MAX_FILE_SIZE /\ text = Some content /\
    r = File.Row repo_id (Ingestion.path_str (rel_dir ++ [filename]))
          (Py.last_piece (rel_dir ++ [filename]))
          (if String.eqb (Ingestion._get_extension filename) EmptyString
           then None else Some (Ingestion._get_extension filename))
          (Ingestion.parent_str (rel_dir ++ [filename]))
          (Z.of_nat (length (rel_dir ++ [filename]))) false (Some content).
Proof.
  unfold Ingestion.file_record.
  destruct (Ingestion.member filename _);
    [split; [by intros ?%elem_of_nil|by intros [? _]]|].
  destruct (Ingestion.member _ Ingestion.SKIP_EXTENSIONS);
    [split; [by intros ?%elem_of_nil|by intros (_ & ? & _)]|].
  destruct st_size as [size|];
    [|split; [by intros ?%elem_of_nil|by intros (_ & _ & ? & ? & ? & _)]].
  destruct (Z.ltb_spec MAX_FILE_SIZE size).
  { split; [by intros ?%elem_of_nil|].
    intros (_ & _ & ? & ? & [= <-] & ? & _). lia. }
  destruct text as [content|];
    [|split; [by intros ?%elem_of_nil|by intros (_ & _ & ? & ? & _ & _ & ? & _)]].
  rewrite list_elem_of_singleton. split.
  - intros ->. repeat split. by exists size, content.
  - by intros (_ & _ & ? & ? & [= <-] & _ & [= <-] & ->).
Qed.

(** The records of a directory: its own, those of its files, and those of
    the sub-directories that are not pruned. *)
Lemma walk_elem entries rel_dir r :
  r ∈ Ingestion.walk MAX_FILE_SIZE repo_id rel_dir (Ingestion.Directory entries)
  <->
  r ∈ Ingestion.dir_record repo_id rel_dir \/
  (exists filename st_size text,
     (filename, Ingestion.RegularFile st_size text) ∈ entries /\
     r ∈ Ingestion.file_record MAX_FILE_SIZE repo_id rel_dir filename
           st_size text) \/
  (exists d sub,
     (d, Ingestion.Directory sub) ∈ entries /\
     Ingestion.member d Ingestion.SKIP_DIRS = false /\
     r ∈ Ingestion.walk MAX_FILE_SIZE repo_id (rel_dir ++ [d])
           (Ingestion.Directory sub)).
Proof.
  cbn [Ingestion.walk]. rewrite !elem_of_app.
  apply or_iff_compat_l.
  match goal with
  | |- _ ∈ ?f entries \/ _ ∈ ?g entries <-> _ =>
      set (files := f); set (dirs := g)
  end.
  assert (Hfiles : forall es,
             r ∈ files es <->
             exists filename st_size text,
               (filename, Ingestion.RegularFile st_size text) ∈ es /\
               r ∈ Ingestion.file_record MAX_FILE_SIZE repo_id rel_dir
                     filename st_size text).
  { induction es as [|[filename [st_size text|sub]] es IHes].
    - split; [by intros ?%elem_of_nil|].
      by intros (? & ? & ? & ?%elem_of_nil & _).
    - change (files ((filename, Ingestion.RegularFile st_size text) :: es))
        with (Ingestion.file_record MAX_FILE_SIZE repo_id rel_dir filename
                st_size text ++ files es).
      rewrite elem_of_app, IHes. split.
      + intros [Hr|(f & s & t & Hin & Hr)].
        * exists filename, st_size, text. split; [by left|done].
        * exists f, s, t. split; [by right|done].
      + intros (f & s & t & Hin & Hr).
        apply elem_of_cons in Hin as [[= -> -> ->]|Hin]; [by left|].
        right. by exists f, s, t.
    - change (files ((filename, Ingestion.Directory sub) :: es))
        with (files es).
      rewrite IHes. split.
      + intros (f & s & t & Hin & Hr). exists f, s, t. split; [by right|done].
      + intros (f & s & t & Hin & Hr).
        apply elem_of_cons in Hin as [[=]|Hin]. by exists f, s, t. }
  assert (Hdirs : forall es,
             r ∈ dirs es <->
             exists d sub,
               (d, Ingestion.Directory sub) ∈ es /\
               Ingestion.member d Ingestion.SKIP_DIRS = false /\
               r ∈ Ingestion.walk MAX_FILE_SIZE repo_id (rel_dir ++ [d])
                     (Ingestion.Directory sub)).
  { induction es as [|[d [st_size text|sub]] es IHes].
    - split; [by intros ?%elem_of_nil|].
      by intros (? & ? & ?%elem_of_nil & _).
    - change (dirs ((d, Ingestion.RegularFile st_size text) :: es))
        with (dirs es).
      rewrite IHes. split.
      + intros (d' & s & Hin & Hr). exists d', s. split; [by right|done].
      + intros (d' & s & Hin & Hr).
        apply elem_of_cons in Hin as [[=]|Hin]. by exists d', s.
    - change (dirs ((d, Ingestion.Directory sub) :: es))
        with ((if Ingestion.member d Ingestion.SKIP_DIRS then []
               else Ingestion.walk MAX_FILE_SIZE repo_id (rel_dir ++ [d])
                      (Ingestion.Directory sub)) ++ dirs es).
      rewrite elem_of_app, IHes. split.
      + intros [Hr|(d' & s & Hin & Hr)].
        * destruct (Ingestion.member d Ingestion.SKIP_DIRS) eqn:Hskip;
            [by apply elem_of_nil in Hr|].
          exists d, sub. split; [by left|done].
        * exists d', s. split; [by right|done].
      + intros (d' & s & Hin & Hskip & Hr).
        apply elem_of_cons in Hin as [[= -> ->]|Hin].
        * left. by rewrite Hskip.
        * right. by exists d', s. }
  by rewrite Hfiles, Hdirs.
Qed.

Lemma removelast_snoc {A} (l : list A) x : removelast (l ++ [x]) = l.
Proof. by rewrite removelast_last. Qed.

Lemma last_piece_snoc l x : Py.last_piece (l ++ [x]) = x.
Proof. unfold Py.last_piece. apply last_last. Qed.

Lemma parent_str_snoc l x : Ingestion.parent_str (l ++ [x]) = Py.join "/" l.
Proof.
  unfold Ingestion.parent_str. rewrite removelast_snoc. by destruct l.
Qed.

Lemma path_str_snoc l x :
  Ingestion.path_str (l ++ [x]) = Py.join "/" (l ++ [x]).
Proof. unfold Ingestion.path_str. by destruct l. Qed.

Lemma walk_shape n :
  forall rel_dir r,
    r ∈ Ingestion.walk MAX_FILE_SIZE repo_id rel_dir n ->
    (exists front leaf, rel_dir = front ++ [leaf] /\
       r = File.Row repo_id (Py.join "/" rel_dir) leaf None
             (Py.join "/" front) (Z.of_nat (length rel_dir)) true None) \/
    exists parts leaf,
      Forall (fun d => Ingestion.member d Ingestion.SKIP_DIRS = false)
             parts /\
      record_at repo_id (rel_dir ++ parts) leaf r.
Proof.
  induction n as [st_size text|entries IH] using Ingestion.node_induction;
    intros rel_dir r; [by intros ?%elem_of_nil|].
  rewrite walk_elem.
  intros [Hr|[(filename & st_size & text & Hin & Hr)|(d & sub & Hin & Hskip & Hr)]].
  - left. destruct rel_dir as [|x rel_dir] using rev_ind;
      [by apply elem_of_nil in Hr|].
    clear IHrel_dir. exists rel_dir, x. split; [done|].
    unfold Ingestion.dir_record in Hr.
    destruct (rel_dir ++ [x]) as [|y l] eqn:Heq;
      [by apply elem_of_nil in Hr|].
    apply list_elem_of_singleton in Hr as ->. rewrite <- Heq.
    by rewrite path_str_snoc, last_piece_snoc, parent_str_snoc.
  - right. apply file_record_elem in Hr
      as (Hname & Hext & size & content & -> & Hsize & -> & ->).
    exists [], filename. split; [constructor|].
    rewrite app_nil_r. unfold record_at. cbn [File.repo_id File.path
      File.name File.parent_path File.depth File.extension File.is_directory].
    rewrite path_str_snoc, last_piece_snoc, parent_str_snoc, length_app.
    cbn [length]. repeat split; try done. lia.
  - right. eapply Forall_forall in IH; [|exact Hin]. cbn [snd] in IH.
    destruct (IH _ _ Hr) as [(front & leaf & Hfront & ->)|(parts & leaf & Hparts & Hrec)].
    + apply app_inj_tail in Hfront as [<- <-]. exists [], d.
      split; [constructor|]. rewrite app_nil_r. unfold record_at.
      cbn [File.repo_id File.path File.name File.parent_path File.depth
           File.extension File.is_directory].
      rewrite length_app. cbn [length]. repeat split; try done. lia.
    + exists (d :: parts), leaf. split; [by constructor|].
      by rewrite <- app_assoc in Hrec.
Qed.


(** Every record of the walk stands for an entry [leaf] of a directory
    [dirs] of the clone: its path is the parts joined by slashes, its name
    the last part, its parent path the parts before it (the empty string at
    the root), its depth their number, and its extension, for a file, the
    lowercased one of the name, or null when the name has none.  No
    directory on the way is in [SKIP_DIRS]; a recorded directory is not in
    [SKIP_DIRS], and a recorded file has neither a name in [SKIP_FILENAMES]
    nor an extension in [SKIP_EXTENSIONS]. *)
Theorem collect_records_shape clone r :
  r ∈ Ingestion._collect_file_records MAX_FILE_SIZE repo_id clone ->
  exists dirs leaf,
    Forall (fun d => Ingestion.member d Ingestion.SKIP_DIRS = false) dirs /\
    record_at repo_id dirs leaf r.
Proof.
  intros Hr. apply walk_shape in Hr
    as [(front & leaf & Hnil & _)|(parts & leaf & Hparts & Hrec)].
  - by destruct front.
  - by exists parts, leaf.
Qed.

Lemma dir_record_parent rel_dir d r :
  r ∈ Ingestion.dir_record repo_id (rel_dir ++ [d]) ->
  File.parent_path r = Py.join "/" rel_dir.
Proof.
  unfold Ingestion.dir_record.
  destruct (rel_dir ++ [d]) as [|y l] eqn:Heq; [by intros ?%elem_of_nil|].
  intros ->%list_elem_of_singleton. rewrite <- Heq.
  cbn [File.parent_path]. apply parent_str_snoc.
Qed.

Lemma dir_record_self x rel_dir :
  exists p, p ∈ Ingestion.dir_record repo_id (x :: rel_dir) /\
            File.is_directory p = true /\
            File.path p = Py.join "/" (x :: rel_dir).
Proof. eexists. split; [by apply list_elem_of_singleton|]. done. Qed.

Lemma walk_parent n :
  forall rel_dir r,
    r ∈ Ingestion.walk MAX_FILE_SIZE repo_id rel_dir n ->
    r ∈ Ingestion.dir_record repo_id rel_dir \/
    (rel_dir = [] /\ File.parent_path r = EmptyString) \/
    exists p, p ∈ Ingestion.walk MAX_FILE_SIZE repo_id rel_dir n /\
              File.is_directory p = true /\
              File.path p = File.parent_path r.
Proof.
  induction n as [st_size text|entries IH] using Ingestion.node_induction;
    intros rel_dir r; [by intros ?%elem_of_nil|].
  assert (Hchild : File.parent_path r = Py.join "/" rel_dir ->
            (rel_dir = [] /\ File.parent_path r = EmptyString) \/
            exists p, p ∈ Ingestion.walk MAX_FILE_SIZE repo_id rel_dir
                            (Ingestion.Directory entries) /\
                      File.is_directory p = true /\
                      File.path p = File.parent_path r).
  { intros Hparent. destruct rel_dir as [|x rel_dir]; [by left|].
    right. destruct (dir_record_self x rel_dir) as (p & Hp & Hdir & Hpath).
    exists p. split; [|by rewrite Hparent].
    apply walk_elem. by left. }
  intros Hr. pose proof Hr as Hr0. apply walk_elem in Hr
    as [Hr|[(filename & st_size & text & Hin & Hr)|(d & sub & Hin & Hskip & Hr)]].
  - by left.
  - right. apply Hchild. apply file_record_elem in Hr
      as (_ & _ & size & content & _ & _ & _ & ->).
    cbn [File.parent_path]. apply parent_str_snoc.
  - right. eapply Forall_forall in IH; [|exact Hin]. cbn [snd] in IH.
    destruct (IH _ _ Hr) as [Hd|[[Hnil _]|(p & Hp & Hdir & Hpath)]].
    + by apply Hchild, (dir_record_parent _ d).
    + by destruct rel_dir.
    + right. exists p. split; [|done]. apply walk_elem.
      right. right. by exists d, sub.
Qed.

(** The directory of every record is recorded too: a record that is not
    at the root of the clone has its parent path as the path of a
    directory record of the same walk. *)
Theorem collect_records_parent clone r :
  r ∈ Ingestion._collect_file_records MAX_FILE_SIZE repo_id clone ->
  File.parent_path r <> EmptyString ->
  exists p,
    p ∈ Ingestion._collect_file_records MAX_FILE_SIZE repo_id clone /\
    File.is_directory p = true /\
    File.path p = File.parent_path r.
Proof.
  intros Hr Hparent. apply walk_parent in Hr as [Hr|[[_ Hroot]|Hp]].
  - by apply elem_of_nil in Hr.
  - done.
  - exact Hp.
Qed.

End WalkRecords.

Lemma collect_records_shape_witness :
  exists dirs leaf,
    Forall (fun d => Ingestion.member d Ingestion.SKIP_DIRS = false) dirs /\
    record_at "r1" dirs leaf
      (File.Row "r1" "src/b/c.py" "c.py" (Some ".py") "src/b" 3 false
                (Some "x = 1")).
Proof.
  apply (collect_records_shape 512000 "r1" Examples.clone_tree).
  apply list_elem_of_In. vm_compute. tauto.
Defined.

Lemma collect_records_parent_witness :
  exists p,
    p ∈ Ingestion._collect_file_records 512000 "r1" Examples.clone_tree /\
    File.is_directory p = true /\ File.path p = "src/b".
Proof.
  apply (collect_records_parent 512000 "r1" Examples.clone_tree
           (File.Row "r1" "src/b/c.py" "c.py" (Some ".py") "src/b" 3 false
                     (Some "x = 1"))).
  - apply list_elem_of_In. vm_compute. tauto.
  - discriminate.
Defined.

(** ** File names, repository names and repeated ingestion *)

Section Names.

Lemma split_app_any sep s t :
  Py.split sep (s +:+ String sep t) = Py.split sep s ++ Py.split sep t.
Proof.
  induction s as [|c s IH].
  - change ("" +:+ String sep t) with (String sep t).
    cbn [Py.split app]. by rewrite Ascii.eqb_refl.
  - rewrite append_cons. cbn [Py.split]. rewrite IH.
    destruct (Ascii.eqb c sep); [done|].
    pose proof (split_nonempty sep s) as Hne.
    by destruct (Py.split sep s).
Qed.

Lemma lstrip_app chars s t :
  Py.lstrip chars s <> EmptyString ->
  Py.lstrip chars (s +:+ t) = Py.lstrip chars s +:+ t.
Proof.
  induction s as [|c s IH]; [done|].
  rewrite append_cons. cbn [Py.lstrip].
  destruct (Py.contains_char chars c); [exact IH|].
  intros _. by rewrite append_cons.
Qed.

Lemma lower_dot e : Py.lower (String "." e) = String "." (Py.lower e).
Proof. reflexivity. Qed.

(** [_get_extension] gives the part of the name from its last dot on, in
    lower case, when something other than dots comes before that dot; and
    the empty string otherwise, so a name such as [.gitignore], whose only
    dots are leading ones, has no extension. *)
Theorem get_extension_spec :
  (forall stem e,
      Py.lstrip "." stem <> EmptyString ->
      Py.contains_char e "." = false ->
      Ingestion._get_extension (stem +:+ "." +:+ e) = "." +:+ Py.lower e) /\
  (forall name,
      Py.contains_char (Py.lstrip "." name) "." = false ->
      Ingestion._get_extension name = EmptyString).
Proof.
  split.
  - intros stem e Hstem He.
    unfold Ingestion._get_extension, Ingestion.splitext_ext.
    rewrite lstrip_app by done.
    change ("." +:+ e) with (String "." e).
    assert (Hdot : Py.contains_char (Py.lstrip "." stem +:+ String "." e) "."
                   = true).
    { rewrite contains_char_app, contains_char_cons. cbn.
      apply orb_true_r. }
    rewrite Hdot, split_app_any, (split_no_sep "." e He).
    unfold Py.last_piece. rewrite last_last. apply lower_dot.
  - intros name Hname.
    unfold Ingestion._get_extension, Ingestion.splitext_ext.
    by rewrite Hname.
Qed.

Lemma get_extension_spec_witness :
  Ingestion._get_extension "Test.Spec.TS" = ".ts" /\
  Ingestion._get_extension ".gitignore" = "".
Proof.
  split.
  - apply (proj1 get_extension_spec "Test.Spec" "TS");
      [discriminate|reflexivity].
  - apply (proj2 get_extension_spec ".gitignore"). reflexivity.
Defined.

Lemma contains_slashes hay :
  Py.contains hay "://" = true ->
  exists a b, hay = a +:+ String "/" b.
Proof.
  induction hay as [|c hay IH].
  - cbn. discriminate.
  - change (Py.contains (String c hay) "://")
      with (String.prefix "://" (String c hay) || Py.contains hay "://").
    intros [Hpre|Hin]%orb_true_iff.
    + destruct hay as [|c1 [|c2 hay]]; cbn in Hpre;
        repeat match type of Hpre with
               | (if ?d then _ else _) = true =>
                   destruct d; [subst|discriminate]
               end; try discriminate.
      by exists ":", (String "/" hay).
    + destruct (IH Hin) as (a & b & ->). by exists (String c a), b.
Qed.

(** [_extract_repo_name] on the URL stripped of trailing slashes and of
    one [.git] suffix.  With a scheme separator the name is always the last
    two segments between slashes (the fallback to the last segment alone is
    never taken), so [.../owner/repo] gives [owner/repo]; without one, the
    name is what follows the last colon, or the whole text when there is
    no colon. *)
Theorem extract_repo_name_forms url :
  let clean := Ingestion.removesuffix (Py.rstrip "/" url) ".git" in
  (Py.contains clean "://" = true ->
   let parts := Py.split "/" clean in
   (2 <= length parts)%nat /\
   Ingestion._extract_repo_name url =
     Py.join "/" (drop (length parts - 2) parts)) /\
  (forall base owner repo,
      Py.contains clean "://" = true ->
      clean = base +:+ "/" +:+ owner +:+ "/" +:+ repo ->
      Py.contains_char owner "/" = false ->
      Py.contains_char repo "/" = false ->
      Ingestion._extract_repo_name url = owner +:+ "/" +:+ repo) /\
  (forall host path,
      Py.contains clean "://" = false ->
      clean = host +:+ ":" +:+ path ->
      Py.contains_char path ":" = false ->
      Ingestion._extract_repo_name url = path) /\
  (Py.contains clean "://" = false ->
   Py.contains_char clean ":" = false ->
   Ingestion._extract_repo_name url = clean).
Proof.
  intros clean.
  assert (Hhttps : Py.contains clean "://" = true ->
            (2 <= length (Py.split "/" clean))%nat /\
            Ingestion._extract_repo_name url =
              Py.join "/" (drop (length (Py.split "/" clean) - 2)
                                (Py.split "/" clean))).
  { intros Hscheme.
    assert (Hlen : (2 <= length (Py.split "/" clean))%nat).
    { destruct (contains_slashes _ Hscheme) as (a & b & ->).
      rewrite split_app_any, length_app.
      pose proof (split_nonempty "/" a). pose proof (split_nonempty "/" b).
      destruct (Py.split "/" a), (Py.split "/" b); cbn [length]; try done.
      lia. }
    split; [done|].
    unfold Ingestion._extract_repo_name. fold clean. rewrite Hscheme.
    by apply Nat.leb_le in Hlen as ->. }
  split; [exact Hhttps|]. split; [|split].
  - intros base owner repo Hscheme Hclean Howner Hrepo.
    destruct (Hhttps Hscheme) as [_ ->]. rewrite Hclean.
    change ("/" +:+ owner +:+ "/" +:+ repo)
      with (String "/" (owner +:+ String "/" repo)).
    rewrite split_app_any, (split_app_sep "/" owner repo Howner),
      (split_no_sep "/" repo Hrepo).
    rewrite length_app. cbn [length].
    replace (length (Py.split "/" base) + 2 - 2)%nat
      with (length (Py.split "/" base)) by lia.
    by rewrite drop_app_length.
  - intros host path Hscheme Hclean Hpath.
    unfold Ingestion._extract_repo_name. fold clean. rewrite Hscheme, Hclean.
    change (":" +:+ path) with (String ":" path).
    assert (Hcolon : Py.contains_char (host +:+ String ":" path) ":" = true).
    { rewrite contains_char_app, contains_char_cons. cbn. apply orb_true_r. }
    rewrite Hcolon, split_app_any, (split_no_sep ":" path Hpath).
    unfold Py.last_piece. apply last_last.
  - intros Hscheme Hcolon.
    unfold Ingestion._extract_repo_name. fold clean.
    by rewrite Hscheme, Hcolon.
Qed.

Lemma extract_repo_name_forms_witness :
  Ingestion._extract_repo_name "https://github.com/expressjs/express.git/"
    = "expressjs/express" /\
  Ingestion._extract_repo_name "git@bitbucket.org:team/repo.git"
    = "team/repo".
Proof.
  split.
  - apply (proj1 (proj2 (extract_repo_name_forms
                           "https://github.com/expressjs/express.git/"))
             "https://github.com" "expressjs" "express"); reflexivity.
  - apply (proj1 (proj2 (proj2 (extract_repo_name_forms
                                  "git@bitbucket.org:team/repo.git")))
             "git@bitbucket.org" "team/repo"); reflexivity.
Defined.

End Names.

Section IngestTwice.

Lemma find_fmap {A} (p : A -> bool) (f : A -> A) l :
  (forall x, p (f x) = p x) ->
  List.find p (f <$> l) = f <$> List.find p l.
Proof.
  intros Hp. induction l as [|x l IH]; [done|].
  rewrite fmap_cons. cbn [List.find]. rewrite Hp.
  by destruct (p x).
Qed.

Lemma find_set_status new_status repo_id url rs :
  List.find (fun r => String.eqb (Ingestion.url r) url)
            (Ingestion.set_status new_status repo_id rs) =
  (fun r => if String.eqb (Ingestion.id r) repo_id
            then Ingestion.Repo (Ingestion.id r) (Ingestion.url r)
                   (Ingestion.name r) new_status
            else r)
    <$> List.find (fun r => String.eqb (Ingestion.url r) url) rs.
Proof.
  unfold Ingestion.set_status. apply find_fmap.
  intros r. by destruct (String.eqb (Ingestion.id r) repo_id).
Qed.

(** After a call of [ingest_repo] for a URL, whatever its outcome (the
    clone succeeded, the clone failed and the row was left in status
    [error], or a row was already there), every later call for the same
    URL answers [already_exists] and changes nothing: a failed ingestion
    is not tried again.  The id it answers is that of the first row with
    the URL, which is the new one when the URL was not known. *)
Theorem ingest_repo_twice MAX d url id1 id2 clone1 clone2 :
  let d1 := (Ingestion.ingest_repo MAX d url id1 clone1).1 in
  exists existing,
    Ingestion.ingest_repo MAX d1 url id2 clone2 =
      (d1, Return (Ingestion.already_exists existing)) /\
    existing =
      match List.find (fun r => String.eqb (Ingestion.url r) url)
                      (Ingestion.repos d) with
      | Some row => Ingestion.id row
      | None => id1
      end.
Proof.
  intros d1. subst d1.
  destruct (List.find _ (Ingestion.repos d)) as [row|] eqn:Hfind.
  - exists (Ingestion.id row). split; [|done].
    rewrite (ingest_repo_dedup_any_status MAX d url id1 clone1 row Hfind).
    by apply ingest_repo_dedup_any_status.
  - exists id1. split; [|done].
    set (new := Ingestion.Repo id1 url (Ingestion._extract_repo_name url)
                  "ingesting").
    assert (Hnew : forall st,
               List.find (fun r => String.eqb (Ingestion.url r) url)
                 (Ingestion.set_status st id1 (Ingestion.repos d ++ [new]))
               = Some (Ingestion.Repo id1 url
                         (Ingestion._extract_repo_name url) st)).
    { intros st. rewrite find_set_status.
      assert (Happ : List.find (fun r => String.eqb (Ingestion.url r) url)
                       (Ingestion.repos d ++ [new]) = Some new).
      { revert Hfind. generalize (Ingestion.repos d).
        induction l as [|r l IH]; cbn [List.find app].
        - intros _. subst new. cbn [Ingestion.url].
          by rewrite String.eqb_refl.
        - destruct (String.eqb (Ingestion.url r) url); [done|apply IH]. }
      rewrite Happ. subst new. cbn [fmap option_fmap option_map Ingestion.id
        Ingestion.url Ingestion.name]. by rewrite String.eqb_refl. }
    assert (Hfirst : (Ingestion.ingest_repo MAX d url id1 clone1).1 =
              match clone1 with
              | Return tree =>
                  Ingestion.Db
                    (Ingestion.set_status "ready" id1
                       (Ingestion.repos d ++ [new]))
                    (Ingestion.files d ++
                     Ingestion._collect_file_records MAX id1 tree)
              | Raise _ =>
                  Ingestion.Db
                    (Ingestion.set_status "error" id1
                       (Ingestion.repos d ++ [new]))
                    (Ingestion.files d)
              end).
    { unfold Ingestion.ingest_repo. rewrite Hfind. by destruct clone1. }
    rewrite Hfirst. destruct clone1 as [tree|e].
    + exact (ingest_repo_dedup_any_status MAX (Ingestion.Db _ _) url id2
               clone2 _ (Hnew "ready")).
    + exact (ingest_repo_dedup_any_status MAX (Ingestion.Db _ _) url id2
               clone2 _ (Hnew "error")).
Qed.



End IngestTwice.

(** ** The agent loop: answers, tool turns and the end of the stream *)

Section AgentTurns.

Context {json : Type}.
Variable json_loads : string -> option json.
Variable empty_object : json.
Variable execute_tool : option string -> json -> outcome string.
Variable create : list Agent.message -> outcome Agent.stream.
Variable SYSTEM_PROMPT : string.

#[local] Abbreviation gen := (Agent.gen (json := json)).
#[local] Abbreviation action := (Agent.action (json := json)).
#[local] Abbreviation react :=
  (Agent.react json_loads empty_object execute_tool create).
#[local] Abbreviation run_tools :=
  (Agent.run_tools json_loads empty_object execute_tool).
#[local] Abbreviation run_agent :=
  (Agent.run_agent json_loads empty_object execute_tool create SYSTEM_PROMPT).

(** A run that returns has yielded [done] last, and neither [done] nor
    [error] before. *)
Lemma react_return_done n messages :
  (react n messages).2 = Return tt ->
  exists before,
    Agent.yields (react n messages) = before ++ [Agent.done] /\
    Forall (fun ev => ev <> Agent.done /\ forall msg, ev <> Agent.error msg)
           before.
Proof.
  revert messages. induction n as [|n IH]; intros messages.
  - intros _. exists [Agent.text_delta Agent.cap_text].
    split; [done|]. by repeat constructor.
  - rewrite react_step. unfold Agent.request.
    destruct (create messages) as [s|e]; [|done].
    rewrite bind_return. cbn [fst snd].
    pose proof (consume_stream_trace (json := json) s) as Ht.
    destruct (Agent.consume_stream s) as [t [acc|e]]; [|done].
    rewrite bind_return. cbn [fst snd] in *.
    destruct (Agent.in_index_order acc) as [|tc tcs].
    + intros _. exists (Agent.yields (json := json) (t, Return tt)).
      split.
      * rewrite (yields_app _ _ (Return tt)), (yields_app _ _ (Return tt)).
        done.
      * by apply quiet_yields, quiet_local_quiet.
    + pose proof (run_tools_trace json_loads empty_object execute_tool
                    (tc :: tcs)
                    (messages ++ [Agent.assistant_tool_calls (tc :: tcs)]))
        as Ht2.
      destruct (run_tools _ _) as [t2 [messages'|e]]; [|done].
      rewrite bind_return. cbn [fst snd] in *.
      intros Hret. destruct (IH messages' Hret) as (before & Hyields & Hquiet).
      exists (Agent.yields (json := json) (t, Return tt) ++
              Agent.yields (json := json) (t2, Return tt) ++ before).
      split.
      * rewrite (yields_app _ _ (Return tt)), (yields_app _ _ (Return tt)),
          (yields_app _ _ (Return tt)).
        destruct (react n messages') as [t3 o3]. cbn [fst snd] in *.
        rewrite Hyields. by rewrite <- !app_assoc.
      * apply Forall_app. split;
          [by apply quiet_yields, quiet_local_quiet|].
        apply Forall_app. split;
          [by apply quiet_yields, quiet_local_quiet|done].
Qed.

(** Whatever the provider and the tools do, the stream of the chat route
    ends with exactly one terminal frame, [done] when [run_agent] returned
    and [error] when it raised, and no frame before it is a [done] or an
    [error]. *)
Theorem event_stream_one_terminal question history :
  exists before last,
    Agent.event_stream (run_agent question history) =
      (Agent.Data <$> before) ++ [Agent.Data last] /\
    Forall (fun ev => ev <> Agent.done /\ forall msg, ev <> Agent.error msg)
           before /\
    match (run_agent question history).2 with
    | Return _ => last = Agent.done
    | Raise e => last = Agent.error e
    end.
Proof.
  unfold Agent.event_stream, Agent.run_agent.
  set (messages := [Agent.chat "system" SYSTEM_PROMPT] ++ default [] history ++
                   [Agent.chat "user" question]).
  destruct (react Agent.MAX_ITERATIONS messages).2 as [[]|e] eqn:Hout.
  - destruct (react_return_done _ _ Hout) as (before & Hyields & Hquiet).
    exists before, Agent.done. rewrite Hyields, fmap_app, app_nil_r.
    done.
  - apply react_raise_quiet in Hout.
    exists (Agent.yields (react Agent.MAX_ITERATIONS messages)), (Agent.error e).
    split; [done|]. split; [|done].
    destruct (react _ _) as [t o]. by apply quiet_yields.
Qed.

#[local] Abbreviation tool_events :=
  (flat_map
     (fun tc : Agent.tool_call =>
        [Agent.Yield
           (Agent.tool_start (Agent.name tc)
              (default empty_object (json_loads (Agent.arguments_str tc))));
         Agent.Yield (Agent.tool_end (Agent.name tc))])).

#[local] Abbreviation tool_messages :=
  (zip_with (fun (tc : Agent.tool_call) result =>
               Agent.tool_message (Agent.id tc) result)).

#[local] Abbreviation returned :=
  (fun (tc : Agent.tool_call) result =>
     execute_tool (Agent.name tc)
       (default empty_object (json_loads (Agent.arguments_str tc)))
     = Return result).

Lemma run_tools_app before results rest messages :
  Forall2 returned before results ->
  run_tools (before ++ rest) messages =
  (tool_events before ++
     (run_tools rest (messages ++ tool_messages before results)).1,
   (run_tools rest (messages ++ tool_messages before results)).2).
Proof.
  intros Hall. revert messages.
  induction Hall as [|tc result before results Hres _ IH]; intros messages.
  - cbn [app flat_map zip_with]. rewrite app_nil_r.
    by destruct (run_tools rest messages).
  - rewrite <- app_comm_cons, run_tools_cons. cbv zeta.
    unfold Agent.yield, Agent.lift.
    rewrite bind_return, Hres, bind_return, bind_return, IH.
    cbn [fst snd app flat_map zip_with]. by rewrite <- app_assoc.
Qed.

(** The tool calls of a turn.  While the tools return, each call gives a
    [tool_start] and a [tool_end] event, in the order of the calls, and one
    tool message appended to the conversation, carrying the id of the call
    and the result.  The first tool that raises ends the loop with its
    exception right after its [tool_start]: it has no [tool_end], and the
    calls after it are not started. *)
Theorem run_tools_events before results messages :
  Forall2 returned before results ->
  run_tools before messages =
    (tool_events before, Return (messages ++ tool_messages before results)) /\
  (forall tc after e,
      execute_tool (Agent.name tc)
        (default empty_object (json_loads (Agent.arguments_str tc)))
      = Raise e ->
      run_tools (before ++ tc :: after) messages =
        (tool_events before ++
         [Agent.Yield
            (Agent.tool_start (Agent.name tc)
               (default empty_object
                  (json_loads (Agent.arguments_str tc))))],
         Raise e)).
Proof.
  intros Hall. split.
  - pose proof (run_tools_app before results [] messages Hall) as Happ.
    rewrite app_nil_r in Happ. rewrite Happ. cbn [Agent.run_tools Agent.ret
      fst snd]. by rewrite app_nil_r.
  - intros tc after e Hraise.
    rewrite (run_tools_app before results (tc :: after) messages Hall).
    rewrite run_tools_cons. cbv zeta. unfold Agent.yield, Agent.lift.
    rewrite bind_return, Hraise. done.
Qed.

Lemma on_chunk_text acc c :
  text_only c ->
  Agent.on_chunk (json := json) acc c =
  (option_list ((fun text => Agent.Yield (Agent.text_delta text))
                  <$> chunk_text c),
   Return acc).
Proof.
  intros (d & rest & -> & Hcalls). unfold Agent.on_chunk, chunk_text.
  destruct Hcalls as [-> | ->];
    by destruct (Agent.content d) as [[|a text]|].
Qed.

Lemma consume_text acc cs :
  Forall text_only cs ->
  Agent.consume (json := json) acc cs =
  ((fun text => Agent.Yield (Agent.text_delta text)) <$> omap chunk_text cs,
   Return acc).
Proof.
  induction 1 as [|c cs Hc _ IH]; [done|].
  change (Agent.consume acc (c :: cs))
    with (Agent.bind (Agent.on_chunk (json := json) acc c)
            (fun acc' => Agent.consume acc' cs)).
  rewrite (on_chunk_text _ _ Hc), bind_return, IH. cbn [fst snd].
  change (omap chunk_text (c :: cs))
    with (match chunk_text c with
          | Some text => text :: omap chunk_text cs
          | None => omap chunk_text cs
          end).
  by destruct (chunk_text c).
Qed.

(** A turn without tool calls is the answer.  When the first stream of the
    provider carries no tool call and ends normally, [run_agent] sends one
    request, with the system prompt, the history if any and the question,
    yields one [text_delta] per non-empty content of the stream, in order,
    then [done], and returns. *)
Theorem run_agent_text_answer question history s :
  let messages :=
    [Agent.chat "system" SYSTEM_PROMPT] ++ default [] history ++
    [Agent.chat "user" question] in
  create messages = Return s ->
  Forall text_only (Agent.chunks s) ->
  Agent.failure s = None ->
  run_agent question history =
  (Agent.Request messages ::
     ((fun text => Agent.Yield (Agent.text_delta text))
        <$> omap chunk_text (Agent.chunks s)) ++
     [Agent.Yield Agent.done],
   Return tt).
Proof.
  intros messages Hcreate Htext Hend. unfold Agent.run_agent. fold messages.
  change Agent.MAX_ITERATIONS with (S 14). rewrite react_step.
  unfold Agent.request. rewrite Hcreate, bind_return. cbn [fst snd].
  assert (Hcons : Agent.consume_stream (json := json) s =
            ((fun text => Agent.Yield (Agent.text_delta text))
               <$> omap chunk_text (Agent.chunks s), Return ∅)).
  { unfold Agent.consume_stream.
    change (Agent.bind (Agent.consume (json := json) ∅ (Agent.chunks s))
              (fun acc => match Agent.failure s with
                          | None => Agent.ret acc
                          | Some e => Agent.raise e
                          end) = 
            ((fun text => Agent.Yield (Agent.text_delta text))
               <$> omap chunk_text (Agent.chunks s), Return ∅)).
    rewrite (consume_text _ _ Htext), bind_return, Hend.
    cbn [fst snd Agent.ret]. by rewrite app_nil_r. }
  rewrite Hcons, bind_return. cbn [fst snd].
  assert (Hnil : Agent.in_index_order ∅ = []).
  { unfold Agent.in_index_order. by rewrite map_to_list_empty. }
  rewrite Hnil. done.
Qed.

Lemma accumulate_lookup acc tc f :
  Agent.function tc = Some f ->
  exists acc1,
    Agent.accumulate acc tc = Return acc1 /\
    forall i,
      acc1 !! i =
      if Agent.index tc =? i then
        Some match acc !! i with
             | Some c => Agent.ToolCall (Agent.id c) (Agent.name c)
                           (Agent.arguments_str c +:+ fragment tc)
             | None => Agent.ToolCall (Agent.tc_id tc) (Agent.fn_name f)
                         (EmptyString +:+ fragment tc)
             end
      else acc !! i.
Proof.
  intros Hf. unfold Agent.accumulate, fragment. rewrite Hf.
  set (j := Agent.index tc).
  assert (Hother : forall (m : gmap Z Agent.tool_call) g i,
             (j =? i) = false -> alter g j m !! i = m !! i).
  { intros m g i Hi. apply lookup_alter_ne. by apply Z.eqb_neq in Hi. }
  destruct (acc !! j) as [c|] eqn:Hj.
  - destruct (Agent.fn_arguments f) as [[|a text]|]; eexists;
      (split; [reflexivity|]); intros i;
      destruct (Z.eqb_spec j i) as [<-|Hne]; rewrite ?Hj; cbn [default];
      rewrite ?append_nil_r; try done; try by destruct c.
    + by rewrite lookup_alter_eq, Hj.
    + by rewrite lookup_alter_ne.
  - destruct (Agent.fn_arguments f) as [[|a text]|]; eexists;
      (split; [reflexivity|]); intros i;
      destruct (Z.eqb_spec j i) as [<-|Hne]; rewrite ?Hj; cbn [default].
    + by rewrite lookup_insert_eq.
    + by rewrite lookup_insert_ne.
    + by rewrite lookup_alter_eq, lookup_insert_eq.
    + by rewrite lookup_alter_ne, lookup_insert_ne.
    + by rewrite lookup_insert_eq.
    + by rewrite lookup_insert_ne.
Qed.

Lemma accumulate_all_lookup tcs :
  forall acc,
    Forall (fun tc => Agent.function tc <> None) tcs ->
    exists acc',
      Agent.accumulate_all acc tcs = Return acc' /\
      forall i,
        acc' !! i =
        match acc !! i with
        | Some c =>
            Some (Agent.ToolCall (Agent.id c) (Agent.name c)
                    (fold_left String.app (fragment <$> pieces_of i tcs)
                               (Agent.arguments_str c)))
        | None =>
            match pieces_of i tcs with
            | [] => None
            | first :: _ =>
                Some (Agent.ToolCall (Agent.tc_id first)
                        (Agent.function first ≫= Agent.fn_name)
                        (fold_left String.app (fragment <$> pieces_of i tcs)
                                   EmptyString))
            end
        end.
Proof.
  induction tcs as [|tc tcs IH]; intros acc Hall.
  - exists acc. split; [done|]. intros i. cbn.
    destruct (acc !! i) as [c|]; [by destruct c|done].
  - apply Forall_cons in Hall as [Htc Hall].
    destruct (Agent.function tc) as [f|] eqn:Hf; [|done].
    destruct (accumulate_lookup acc tc f Hf) as (acc1 & Hstep & Hacc1).
    destruct (IH acc1 Hall) as (acc' & Hrest & Hacc').
    exists acc'. split.
    + cbn [Agent.accumulate_all]. by rewrite Hstep.
    + intros i. rewrite Hacc', Hacc1. unfold pieces_of. cbn [List.filter].
      destruct (Agent.index tc =? i); [|done].
      rewrite fmap_cons. cbn [fold_left].
      destruct (acc !! i) as [c|]; [done|].
      cbn [Agent.id Agent.name Agent.arguments_str]. by rewrite Hf.
Qed.

(** The pieces of the tool calls of one delta, when each carries a
    function part: the accumulator gets one entry per index that occurs;
    the id and the name of the entry are those of the first piece with
    that index, whatever later pieces say, and its argument text is the
    concatenation of the argument fragments of the pieces with that index,
    in the order of arrival. *)
Theorem accumulate_all_pieces tcs :
  Forall (fun tc => Agent.function tc <> None) tcs ->
  exists acc,
    Agent.accumulate_all ∅ tcs = Return acc /\
    forall i,
      acc !! i =
      match pieces_of i tcs with
      | [] => None
      | first :: _ =>
          Some (Agent.ToolCall (Agent.tc_id first)
                  (Agent.function first ≫= Agent.fn_name)
                  (fold_left String.app (fragment <$> pieces_of i tcs)
                             EmptyString))
      end.
Proof.
  intros Hall. destruct (accumulate_all_lookup tcs ∅ Hall) as (acc & Hrun & Hacc).
  exists acc. split; [done|]. intros i. by rewrite Hacc, lookup_empty.
Qed.

End AgentTurns.

Lemma run_tools_events_witness :
  Agent.run_tools Examples.text_loads "{}" Examples.listing_tool
    [Agent.ToolCall (Some "call_1") (Some "list_files") "{}"] [] =
  ([Agent.Yield (Agent.tool_start (Some "list_files") "{}");
    Agent.Yield (Agent.tool_end (Some "list_files"))],
   Return [Agent.tool_message (Some "call_1") "README.md"]).
Proof.
  apply (proj1 (run_tools_events Examples.text_loads "{}"
                  Examples.listing_tool
                  [Agent.ToolCall (Some "call_1") (Some "list_files") "{}"]
                  ["README.md"] []
                  ltac:(repeat constructor))).
Defined.

Lemma run_agent_text_answer_witness :
  Agent.yields
    (Agent.run_agent Examples.text_loads "{}" Examples.listing_tool
       (fun _ => Return (Agent.Stream
                           [ [Agent.Delta None (Some "It is ")];
                             [Agent.Delta (Some []) None];
                             [Agent.Delta None (Some "main.py")] ] None))
       "You explore code." "Where is main?" None)
  = [Agent.text_delta "It is "; Agent.text_delta "main.py"; Agent.done].
Proof.
  rewrite (run_agent_text_answer Examples.text_loads "{}"
             Examples.listing_tool _ "You explore code." "Where is main?"
             None _ eq_refl).
  - reflexivity.
  - repeat constructor; eexists _, _; (split; [reflexivity|]); auto.
  - reflexivity.
Defined.

Lemma accumulate_all_pieces_witness :
  exists acc,
    Agent.accumulate_all ∅
      [ Agent.TcChunk 0 (Some "call_abc")
          (Some (Agent.FunctionChunk (Some "search_code") (Some "")));
        Agent.TcChunk 0 None
          (Some (Agent.FunctionChunk None (Some "{'patt")));
        Agent.TcChunk 0 None
          (Some (Agent.FunctionChunk None (Some "ern': 'auth'}"))) ]
      = Return acc /\
    acc !! 0 = Some (Agent.ToolCall (Some "call_abc") (Some "search_code")
                       "{'pattern': 'auth'}").
Proof.
  destruct (accumulate_all_pieces
              [ Agent.TcChunk 0 (Some "call_abc")
                  (Some (Agent.FunctionChunk (Some "search_code") (Some "")));
                Agent.TcChunk 0 None
                  (Some (Agent.FunctionChunk None (Some "{'patt")));
                Agent.TcChunk 0 None
                  (Some (Agent.FunctionChunk None (Some "ern': 'auth'}"))) ])
    as (acc & Hrun & Hacc).
  - repeat constructor; discriminate.
  - exists acc. split; [exact Hrun|]. by rewrite Hacc.
Defined.

(** ** The job queue: claims, recovery and what a run leaves alone *)

Section ClaimFacts.

Variable now : string.

#[local] Instance claim_le_trans : Transitive JobClaim.claim_le.
Proof.
  intros x y z. unfold JobClaim.claim_le.
  intros [Hxy|[Hxy Hcxy]] [Hyz|[Hyz Hcyz]]; try (left; lia).
  right. split; [lia|]. by etransitivity.
Qed.

#[local] Instance claim_le_total : Total JobClaim.claim_le.
Proof.
  intros x y. unfold JobClaim.claim_le.
  destruct (Z.lt_trichotomy (JobClaim.priority x.2) (JobClaim.priority y.2))
    as [Hlt|[Heq|Hgt]]; [right; by left| |left; by left].
  destruct (total String.le (JobClaim.created_at x.2)
              (JobClaim.created_at y.2)); [left|right]; right; split;
    done || lia.
Qed.

Lemma next_spec t :
  match JobClaim.next t with
  | Some (job_id, e) =>
      t !! job_id = Some e /\ JobClaim.eligible e = true /\
      forall job_id' e',
        t !! job_id' = Some e' -> JobClaim.eligible e' = true ->
        JobClaim.claim_le (job_id, e) (job_id', e')
  | None =>
      forall job_id e, t !! job_id = Some e -> JobClaim.eligible e = false
  end.
Proof.
  unfold JobClaim.next.
  set (rows := List.filter (fun p : string * JobClaim.entry =>
                              JobClaim.eligible p.2) (map_to_list t)).
  assert (Hrows : forall job_id e,
             (job_id, e) ∈ merge_sort JobClaim.claim_le rows <->
             t !! job_id = Some e /\ JobClaim.eligible e = true).
  { intros job_id e. rewrite merge_sort_Permutation. subst rows.
    rewrite list_elem_of_In, filter_In.
    rewrite <- (list_elem_of_In (map_to_list t)).
    by rewrite elem_of_map_to_list. }
  pose proof (StronglySorted_merge_sort JobClaim.claim_le rows) as Hsorted.
  destruct (merge_sort JobClaim.claim_le rows) as [|[job_id e] rest].
  - intros job_id e He. destruct (JobClaim.eligible e) eqn:Hel; [|done].
    pose proof (proj2 (Hrows job_id e) (conj He Hel)) as Hnil.
    by apply elem_of_nil in Hnil.
  - cbn [head]. destruct (proj1 (Hrows job_id e)) as [Hin Hel]; [by left|].
    split; [done|]. split; [done|].
    intros job_id' e' Hin' Hel'.
    apply StronglySorted_inv in Hsorted as [_ Hfirst].
    pose proof (proj2 (Hrows job_id' e') (conj Hin' Hel')) as Hmem.
    apply elem_of_cons in Hmem as [[= -> ->]|Hrest].
    + right. split; done.
    + eapply Forall_forall in Hfirst; [exact Hfirst|exact Hrest].
Qed.

(** [_dequeue_next] claims a queued job that has attempts left and that no
    other such job precedes in the order (higher priority, then earlier
    creation): the row becomes [running] with one attempt more and the
    start time, the returned row is the updated one, and no other row
    changes.  It returns nothing, and changes nothing, exactly when no
    queued job has attempts left. *)
Theorem dequeue_next_claims t :
  match JobClaim._dequeue_next now t with
  | (t', Some (job_id, claimed)) =>
      exists e,
        t !! job_id = Some e /\
        JobQueue.status (JobClaim.row e) = "queued" /\
        JobQueue.attempts (JobClaim.row e)
          < JobQueue.max_attempts (JobClaim.row e) /\
        (forall job_id' e',
            t !! job_id' = Some e' -> JobClaim.eligible e' = true ->
            JobClaim.claim_le (job_id, e) (job_id', e')) /\
        claimed = JobClaim.claim now e /\
        JobQueue.status (JobClaim.row claimed) = "running" /\
        JobQueue.attempts (JobClaim.row claimed)
          = JobQueue.attempts (JobClaim.row e) + 1 /\
        JobQueue.attempts (JobClaim.row claimed)
          <= JobQueue.max_attempts (JobClaim.row claimed) /\
        t' !! job_id = Some claimed /\
        forall job_id', job_id' <> job_id -> t' !! job_id' = t !! job_id'
  | (t', None) =>
      t' = t /\
      forall job_id e,
        t !! job_id = Some e ->
        JobQueue.status (JobClaim.row e) <> "queued" \/
        JobQueue.max_attempts (JobClaim.row e)
          <= JobQueue.attempts (JobClaim.row e)
  end.
Proof.
  unfold JobClaim._dequeue_next. pose proof (next_spec t) as Hnext.
  destruct (JobClaim.next t) as [[job_id e]|].
  - destruct Hnext as (Hin & Hel & Hmin). exists e.
    unfold JobClaim.eligible in Hel.
    apply andb_true_iff in Hel as [Hq%String.eqb_eq Hlt%Z.ltb_lt].
    repeat split; try done.
    + cbn. lia.
    + by rewrite lookup_insert_eq.
    + intros job_id' Hne. by rewrite lookup_insert_ne.
  - split; [done|]. intros job_id e He. specialize (Hnext _ _ He).
    unfold JobClaim.eligible in Hnext.
    apply andb_false_iff in Hnext as [Hq|Hge].
    + left. by apply String.eqb_neq.
    + right. by apply Z.ltb_ge.
Qed.

(** Crash recovery.  After [start] no job is [running]: the jobs that were
    are [queued] again, without worker, and every other row is as before.
    The attempt of the interrupted run is not given back, so a job that
    was interrupted in its last attempt stays [queued] and is not claimed
    by [_dequeue_next] any more. *)
Theorem start_requeues t :
  (forall job_id e,
      JobClaim.start t !! job_id = Some e ->
      JobQueue.status (JobClaim.row e) <> "running") /\
  (forall job_id e,
      t !! job_id = Some e ->
      JobQueue.status (JobClaim.row e) <> "running" ->
      JobClaim.start t !! job_id = Some e) /\
  (forall job_id e,
      t !! job_id = Some e ->
      JobQueue.status (JobClaim.row e) = "running" ->
      exists e',
        JobClaim.start t !! job_id = Some e' /\
        JobQueue.status (JobClaim.row e') = "queued" /\
        JobClaim.worker_id e' = None /\
        JobQueue.attempts (JobClaim.row e')
          = JobQueue.attempts (JobClaim.row e) /\
        JobQueue.max_attempts (JobClaim.row e')
          = JobQueue.max_attempts (JobClaim.row e) /\
        (JobQueue.max_attempts (JobClaim.row e)
           <= JobQueue.attempts (JobClaim.row e) ->
         forall t' job_id' claimed,
           JobClaim._dequeue_next now (JobClaim.start t)
             = (t', Some (job_id', claimed)) ->
           job_id' <> job_id)).
Proof.
  split; [|split].
  - intros job_id e. unfold JobClaim.start. rewrite lookup_fmap.
    destruct (t !! job_id) as [e0|]; [|done]. cbn. intros [= <-].
    unfold JobClaim.requeue.
    destruct (String.eqb_spec (JobQueue.status (JobClaim.row e0)) "running");
      [by cbn|done].
  - intros job_id e He Hstatus. unfold JobClaim.start.
    rewrite lookup_fmap, He. cbn.
    unfold JobClaim.requeue. by apply String.eqb_neq in Hstatus as ->.
  - intros job_id e He Hstatus.
    assert (Hreq : JobClaim.requeue e =
              JobClaim.Entry
                (JobQueue.Job (JobQueue.wiki_id (JobClaim.row e)) "queued"
                   (JobQueue.attempts (JobClaim.row e))
                   (JobQueue.max_attempts (JobClaim.row e))
                   (JobQueue.error_message (JobClaim.row e))
                   (JobQueue.completed_at (JobClaim.row e)))
                (JobClaim.priority e) (JobClaim.created_at e)
                (JobClaim.started_at e) None).
    { unfold JobClaim.requeue. by apply String.eqb_eq in Hstatus as ->. }
    assert (Hstart : JobClaim.start t !! job_id
                     = Some (JobClaim.requeue e)).
    { unfold JobClaim.start. by rewrite lookup_fmap, He. }
    exists (JobClaim.requeue e). split; [done|]. rewrite Hreq.
    cbn [JobClaim.row JobClaim.worker_id JobQueue.status JobQueue.attempts
         JobQueue.max_attempts].
    repeat split; try done.
    intros Hlast t' job_id' claimed Hclaim ->.
    pose proof (dequeue_next_claims (JobClaim.start t)) as Hspec.
    rewrite Hclaim in Hspec.
    destruct Hspec as (e1 & He1 & _ & Hlt & _).
    rewrite Hstart in He1. injection He1 as <-.
    rewrite Hreq in Hlt. cbn in Hlt. lia.
Qed.

(** A claimed job that fails.  The attempt count handed to [_fail_job] is
    the one of the claimed row, already incremented: the job goes back to
    [queued] when that count is still below [max_attempts], and becomes
    [failed] when the claim used the last attempt. *)
Theorem claimed_job_fails t t' job_id claimed error d stored :
  JobClaim._dequeue_next now t = (t', Some (job_id, claimed)) ->
  JobQueue.jobs d !! job_id = Some stored ->
  let final :=
    JobQueue._fail_job now job_id error
      (JobQueue.attempts (JobClaim.row claimed))
      (JobQueue.max_attempts (JobClaim.row claimed)) d in
  JobQueue.status <$> JobQueue.jobs final !! job_id =
    Some (if JobQueue.attempts (JobClaim.row claimed)
             =? JobQueue.max_attempts (JobClaim.row claimed)
          then "failed" else "queued") /\
  JobQueue.error_message <$> JobQueue.jobs final !! job_id
    = Some (Some error).
Proof.
  intros Hclaim Hstored final.
  pose proof (dequeue_next_claims t) as Hspec. rewrite Hclaim in Hspec.
  destruct Hspec as (e & _ & _ & _ & _ & _ & _ & _ & Hle & _).
  subst final.
  destruct (Z.eqb_spec (JobQueue.attempts (JobClaim.row claimed))
              (JobQueue.max_attempts (JobClaim.row claimed))) as [Heq|Hne].
  - rewrite (fail_job_final now job_id error _ _ d stored) by (done || lia).
    cbn [JobQueue.jobs]. by rewrite lookup_insert_eq.
  - rewrite fail_job_retry by lia. cbn [JobQueue.jobs].
    by rewrite lookup_alter_eq, Hstored.
Qed.

End ClaimFacts.

Lemma claimed_job_fails_witness :
  JobQueue.status <$>
    JobQueue.jobs (JobQueue._fail_job "2026-01-01 00:05:00" "j1" "boom" 3 3
                     Examples.job_db) !! "j1"
  = Some "failed".
Proof.
  destruct (claimed_job_fails "2026-01-01 00:05:00" Examples.queued_table
              _ "j1" _ "boom" Examples.job_db Examples.last_attempt_job
              eq_refl eq_refl)
    as [Hstatus _].
  exact Hstatus.
Defined.

Section RunJobFrame.

Variable now : string.
Variable execute : string -> JobQueue.db -> JobQueue.db * outcome unit.

Lemma alter_missing {A} (f : A -> A) (m : gmap string A) k :
  m !! k = None -> alter f k m = m.
Proof.
  intros Hk. apply map_eq. intros i.
  destruct (decide (i = k)) as [->|Hne].
  - by rewrite lookup_alter_eq, Hk.
  - by rewrite lookup_alter_ne.
Qed.

(** What a run leaves alone.  [_run_job] changes, in what the pipeline
    left, the row of its job and nothing else in [jobs]; of that row it
    keeps the wiki, the attempt count and the maximum.  It changes a wiki
    row only when the pipeline raised on the last attempt, and then only
    the wiki of the stored job row, which it marks [failed] with the
    error: a failure that is retried leaves the wiki as the pipeline left
    it.  When the job row is gone, nothing is changed at all. *)
Theorem run_job_frame job_id claimed d d' r :
  execute (JobQueue.wiki_id claimed) d = (d', r) ->
  let final := JobQueue._run_job now execute job_id claimed d in
  (forall j, j <> job_id ->
     JobQueue.jobs final !! j = JobQueue.jobs d' !! j) /\
  (forall row,
     JobQueue.jobs d' !! job_id = Some row ->
     exists row',
       JobQueue.jobs final !! job_id = Some row' /\
       JobQueue.wiki_id row' = JobQueue.wiki_id row /\
       JobQueue.attempts row' = JobQueue.attempts row /\
       JobQueue.max_attempts row' = JobQueue.max_attempts row) /\
  (JobQueue.jobs d' !! job_id = None -> final = d') /\
  (forall w,
     JobQueue.wikis final !! w <> JobQueue.wikis d' !! w ->
     exists e row,
       r = Raise e /\
       ~ JobQueue.attempts claimed < JobQueue.max_attempts claimed /\
       JobQueue.jobs d' !! job_id = Some row /\
       JobQueue.wiki_id row = w /\
       JobQueue.wikis final !! w = Some (JobQueue.Wiki "failed" (Some e))).
Proof.
  intros Hexec final. subst final. unfold JobQueue._run_job. rewrite Hexec.
  destruct r as [[]|e].
  - unfold JobQueue._complete_job. cbn [JobQueue.jobs JobQueue.wikis].
    split; [|split; [|split]].
    + intros j Hne. by rewrite lookup_alter_ne.
    + intros row Hrow. rewrite lookup_alter_eq, Hrow. by eexists.
    + intros Hnone. rewrite alter_missing by done. by destruct d'.
    + intros w Hw. done.
  - destruct (Z.lt_ge_cases (JobQueue.attempts claimed)
                (JobQueue.max_attempts claimed)) as [Hretry|Hlast].
    + rewrite fail_job_retry by done. cbn [JobQueue.jobs JobQueue.wikis].
      split; [|split; [|split]].
      * intros j Hne. by rewrite lookup_alter_ne.
      * intros row Hrow. rewrite lookup_alter_eq, Hrow. by eexists.
      * intros Hnone. rewrite alter_missing by done. by destruct d'.
      * intros w Hw. done.
    + destruct (JobQueue.jobs d' !! job_id) as [row|] eqn:Hrow.
      * rewrite (fail_job_final now job_id e _ _ d' row) by (done || lia).
        cbn [JobQueue.jobs JobQueue.wikis].
        split; [|split; [|split]].
        -- intros j Hne. by rewrite lookup_insert_ne.
        -- intros row0 [= <-]. rewrite lookup_insert_eq. by eexists.
        -- done.
        -- intros w Hw. exists e, row.
           destruct (decide (w = JobQueue.wiki_id row)) as [->|Hne];
             [|by rewrite lookup_alter_ne in Hw].
           repeat split; try done; [lia|].
           rewrite lookup_alter_eq in *.
           by destruct (JobQueue.wikis d' !! JobQueue.wiki_id row).
      * unfold JobQueue._fail_job.
        apply Z.ltb_ge in Hlast as ->.
        rewrite lookup_alter_eq, Hrow. cbn [fmap option_fmap option_map].
        cbn [JobQueue.jobs JobQueue.wikis].
        split; [|split; [|split]].
        -- intros j Hne. by rewrite lookup_alter_ne.
        -- done.
        -- intros _. rewrite alter_missing by done. by destruct d'.
        -- intros w Hw. done.
Qed.

End RunJobFrame.

Lemma run_job_frame_witness :
  let final :=
    JobQueue._run_job "2026-01-01 00:00:00" Examples.failing_pipeline "j1"
                      Examples.last_attempt_job Examples.job_db in
  exists row',
    JobQueue.jobs final !! "j1" = Some row' /\
    JobQueue.wiki_id row' = "w1" /\ JobQueue.attempts row' = 3.
Proof.
  destruct (run_job_frame "2026-01-01 00:00:00" Examples.failing_pipeline
              "j1" Examples.last_attempt_job Examples.job_db Examples.job_db
              (Raise "git clone failed") eq_refl)
    as (_ & Hrow & _).
  destruct (Hrow Examples.last_attempt_job eq_refl)
    as (row' & Hfinal & Hwiki & Hattempts & _).
  by exists row'.
Defined.
